(** * Process resolver of the runtime security probe

    A shallow embedding of [ProcessResolver] (package [probe]): the binary
    decoder of inode records, the pid -> entry cache with its lineage links,
    the kernel-table fallback of [Resolve], the /proc enrichment and
    [SyncCache].

    Go pointers are addresses into an explicit heap of entries, the
    [sync.RWMutex] embedded in the resolver is an explicit lock state, and
    every call into a kernel table or into /proc is recorded in a log, so
    that aliasing, lock discipline and "no further query" are statements
    about values. *)

From Stdlib Require Import ZArith Lia.
From Stdlib.Strings Require Import Byte.
From stdpp Require Import base option list gmap strings.

Local Open Scope Z_scope.

(** ** Machine integers and bytes *)

Definition byte_val (b : byte) : Z := Z.of_N (Byte.to_N b).

(** Go's conversion [byte(v)]: the low eight bits. *)
Definition to_byte (v : Z) : byte :=
  default "000"%byte (Byte.of_N (Z.to_N (v mod 256))).

(** Go's conversions [uint32(v)], [int32(v)] and the wrap-around of an
    [int64] product. *)
Definition uint32 (v : Z) : Z := v mod 2 ^ 32.

Definition int32 (v : Z) : Z :=
  let u := v mod 2 ^ 32 in if u <? 2 ^ 31 then u else u - 2 ^ 32.

Definition int64 (v : Z) : Z :=
  let u := v mod 2 ^ 64 in if u <? 2 ^ 63 then u else u - 2 ^ 64.

(** Code that may panic (an index or a slice bound out of range). *)
Inductive Run (A : Type) : Type :=
  | Done (a : A)
  | Panic.
Arguments Done {A} a.
Arguments Panic {A}.

(** The slice expressions [data[lo:hi]] and [data[lo:]]. They panic when a
    bound is out of range; the bound is taken against the length (the slices
    sliced here come out of a table lookup or an [append] and are only used
    within their length). *)
Definition slice (lo hi : Z) (data : list byte) : Run (list byte) :=
  if (0 <=? lo) && (lo <=? hi) && (hi <=? Z.of_nat (length data))
  then Done (take (Z.to_nat (hi - lo)) (drop (Z.to_nat lo) data))
  else Panic.

Definition slice_from (lo : Z) (data : list byte) : Run (list byte) :=
  if (0 <=? lo) && (lo <=? Z.of_nat (length data))
  then Done (drop (Z.to_nat lo) data)
  else Panic.

(** ** encoding/binary, as far as the resolver uses it *)

Module binary.

Inductive ByteOrder : Set := LittleEndian | BigEndian.

(** [Uint32(b)]: reads [b[0..3]], panics on a shorter slice. *)
Definition Uint32 (order : ByteOrder) (b : list byte) : Run Z :=
  match b with
  | b0 :: b1 :: b2 :: b3 :: _ =>
      Done
        match order with
        | LittleEndian =>
            Z.lor (Z.lor (Z.lor (byte_val b0) (Z.shiftl (byte_val b1) 8))
                         (Z.shiftl (byte_val b2) 16))
                  (Z.shiftl (byte_val b3) 24)
        | BigEndian =>
            Z.lor (Z.lor (Z.lor (byte_val b3) (Z.shiftl (byte_val b2) 8))
                         (Z.shiftl (byte_val b1) 16))
                  (Z.shiftl (byte_val b0) 24)
        end
  | _ => Panic
  end.

(** The bytes of [v], least significant first. *)
Fixpoint le_bytes (n : nat) (v : Z) : list byte :=
  match n with
  | O => []
  | S n' => to_byte v :: le_bytes n' (Z.shiftr v 8)
  end.

(** [PutUint32] and [PutUint64] into a buffer of exactly that size. *)
Definition PutUint32 (order : ByteOrder) (v : Z) : list byte :=
  match order with
  | LittleEndian => le_bytes 4 v
  | BigEndian => rev (le_bytes 4 v)
  end.

Definition PutUint64 (order : ByteOrder) (v : Z) : list byte :=
  match order with
  | LittleEndian => le_bytes 8 v
  | BigEndian => rev (le_bytes 8 v)
  end.

End binary.

(** ** Errors *)

Inductive error : Set :=
  | ErrNotEnoughData                (* the package's ErrNotEnoughData *)
  | ErrNew (msg : string)           (* errors.New(msg) *)
  | ErrExternal (code : Z).         (* an error of the OS or of a library *)

(** A Go result pair [(value, error)]. *)
Inductive GoErr (A : Type) : Type :=
  | Success (a : A)
  | Failure (e : error).
Arguments Success {A} a.
Arguments Failure {A} e.

(** ** InodeInfo and its decoder *)

Module InodeInfo.

Record t : Set := mk { MountID : Z; OverlayNumLower : Z }.

Definition zero : t := mk 0 0.

(** [UnmarshalBinary]: the receiver after the call, the count returned
    and the error returned. *)
Definition UnmarshalBinary (order : binary.ByteOrder) (i : t) (data : list byte)
  : Run (t * Z * option error) :=
  if Z.of_nat (length data) <? 8 then Done (i, 0, Some ErrNotEnoughData)
  else
    match binary.Uint32 order data with
    | Panic => Panic
    | Done mountID =>
        let i := mk mountID (OverlayNumLower i) in
        match slice_from 4 data with
        | Panic => Panic
        | Done tail =>
            match binary.Uint32 order tail with
            | Panic => Panic
            | Done lower => Done (mk (MountID i) (int32 lower), 8, None)
            end
        end
    end.

End InodeInfo.

(** ** Process entries *)

(** A pointer to a [ProcessCacheEntry] is an index into the heap of entries;
    a nil pointer is [None]. *)
Abbreviation addr := nat.

(** [time.Time], as far as the resolver looks at it: the zero value (the only
    one [IsZero] accepts) or an instant built by [time.Unix(0, nsec)], whose
    seconds since year 1 are never zero for an [int64] count of nanoseconds. *)
Inductive Time : Set :=
  | TimeZero
  | TimeUnix (nsec : Z).

Definition IsZero (t : Time) : bool :=
  match t with TimeZero => true | TimeUnix _ => false end.

Module FileEvent.

Record t : Set := mk {
  Inode : Z;
  OverlayNumLower : Z;
  MountID : Z;
  PathnameStr : string;
  ContainerPath : string
}.

Definition zero : t := mk 0 0 0 "" "".

End FileEvent.

(** The fields of [ProcessCacheEntry] the resolver reads or writes (the type
    is declared in another file of the package): the embedded
    [ContainerContext.ID] and [ProcessContext], the file event, and the two
    lineage links. *)
Record ProcessCacheEntry : Set := mkEntry {
  FileEvent : FileEvent.t;
  ContainerID : string;
  ExecTimestamp : Time;
  Comm : string;
  PPid : Z;
  TTYName : string;
  Pid : Z;
  Tid : Z;
  UID : Z;
  GID : Z;
  Children : list addr;
  Parent : option addr
}.

(** The zero value [ProcessCacheEntry{}]. *)
Definition zeroEntry : ProcessCacheEntry :=
  mkEntry FileEvent.zero "" TimeZero "" 0 "" 0 0 0 0 [] None.

Definition set_FileEvent (v : FileEvent.t) (e : ProcessCacheEntry) :=
  mkEntry v (ContainerID e) (ExecTimestamp e) (Comm e) (PPid e) (TTYName e)
          (Pid e) (Tid e) (UID e) (GID e) (Children e) (Parent e).
Definition set_ContainerID (v : string) (e : ProcessCacheEntry) :=
  mkEntry (FileEvent e) v (ExecTimestamp e) (Comm e) (PPid e) (TTYName e)
          (Pid e) (Tid e) (UID e) (GID e) (Children e) (Parent e).
Definition set_ExecTimestamp (v : Time) (e : ProcessCacheEntry) :=
  mkEntry (FileEvent e) (ContainerID e) v (Comm e) (PPid e) (TTYName e)
          (Pid e) (Tid e) (UID e) (GID e) (Children e) (Parent e).
Definition set_Comm (v : string) (e : ProcessCacheEntry) :=
  mkEntry (FileEvent e) (ContainerID e) (ExecTimestamp e) v (PPid e) (TTYName e)
          (Pid e) (Tid e) (UID e) (GID e) (Children e) (Parent e).
Definition set_PPid (v : Z) (e : ProcessCacheEntry) :=
  mkEntry (FileEvent e) (ContainerID e) (ExecTimestamp e) (Comm e) v (TTYName e)
          (Pid e) (Tid e) (UID e) (GID e) (Children e) (Parent e).
Definition set_TTYName (v : string) (e : ProcessCacheEntry) :=
  mkEntry (FileEvent e) (ContainerID e) (ExecTimestamp e) (Comm e) (PPid e) v
          (Pid e) (Tid e) (UID e) (GID e) (Children e) (Parent e).
Definition set_Pid (v : Z) (e : ProcessCacheEntry) :=
  mkEntry (FileEvent e) (ContainerID e) (ExecTimestamp e) (Comm e) (PPid e) (TTYName e)
          v (Tid e) (UID e) (GID e) (Children e) (Parent e).
Definition set_Tid (v : Z) (e : ProcessCacheEntry) :=
  mkEntry (FileEvent e) (ContainerID e) (ExecTimestamp e) (Comm e) (PPid e) (TTYName e)
          (Pid e) v (UID e) (GID e) (Children e) (Parent e).
Definition set_UID (v : Z) (e : ProcessCacheEntry) :=
  mkEntry (FileEvent e) (ContainerID e) (ExecTimestamp e) (Comm e) (PPid e) (TTYName e)
          (Pid e) (Tid e) v (GID e) (Children e) (Parent e).
Definition set_GID (v : Z) (e : ProcessCacheEntry) :=
  mkEntry (FileEvent e) (ContainerID e) (ExecTimestamp e) (Comm e) (PPid e) (TTYName e)
          (Pid e) (Tid e) (UID e) v (Children e) (Parent e).
Definition set_Children (v : list addr) (e : ProcessCacheEntry) :=
  mkEntry (FileEvent e) (ContainerID e) (ExecTimestamp e) (Comm e) (PPid e) (TTYName e)
          (Pid e) (Tid e) (UID e) (GID e) v (Parent e).
Definition set_Parent (v : option addr) (e : ProcessCacheEntry) :=
  mkEntry (FileEvent e) (ContainerID e) (ExecTimestamp e) (Comm e) (PPid e) (TTYName e)
          (Pid e) (Tid e) (UID e) (GID e) (Children e) v.

(** [process.FilledProcess], the fields read here ([int32] pids and ids, an
    [int64] creation time in milliseconds). *)
Record FilledProcess : Set := mkProc {
  proc_Pid : Z;
  proc_Ppid : Z;
  proc_CreateTime : Z;
  proc_Name : string;
  proc_Uids : list Z;
  proc_Gids : list Z
}.

(** ** What lies outside the resolver *)

(** The three kernel tables, by the names [Start] looks them up under. *)
Inductive KernelMap : Set := inode_info_cache | proc_cache | pid_cache.

(** What [LookupBytes] returns: an error, [(nil, nil)] for a missing key, or
    the value. *)
Inductive LookupResult : Set :=
  | LookupErr (e : error)
  | LookupNil
  | LookupFound (v : list byte).

(** What [os.Stat] followed by the type assertion of [fi.Sys()] to a
    [syscall.Stat_t] pointer gives. *)
Inductive StatResult : Set :=
  | StatErr (e : error)
  | StatNoSys
  | StatIno (ino : Z).

(** The environment of one call: the tracer's byte order ([ebpf.ByteOrder]),
    the kernel tables, /proc, the container and mount resolvers, and the
    decoder of process records ([ProcessCacheEntry.UnmarshalBinary], declared
    in another file; called with the snapshot flag set). *)
Record Env : Type := mkEnv {
  ByteOrder : binary.ByteOrder;
  LookupBytes : KernelMap -> list byte -> LookupResult;
  Readlink : Z -> GoErr string;
  Stat : Z -> StatResult;
  GetContainerID : Z -> GoErr string;
  PidTTY : Z -> string;
  ResolveContainerPath : FileEvent.t -> FileEvent.t;
  EntryUnmarshalBinary :
    ProcessCacheEntry -> list byte -> Run (ProcessCacheEntry * Z * option error)
}.

(** The calls to the kernel tables, to /proc and to the container resolver,
    in the order they are made. (The path resolution of the mount resolver
    is a function of the environment, [ResolveContainerPath], applied where
    the entry is filled; it is not logged.) *)
Inductive Call : Set :=
  | CallLookupBytes (m : KernelMap) (key : list byte)
  | CallReadlink (pid : Z)
  | CallStat (pid : Z)
  | CallGetContainerID (pid : Z)
  | CallPidTTY (pid : Z).

(** ** The resolver's state *)

(** [sync.RWMutex]: free, held by a writer, or held by [readers] readers. *)
Inductive RWMutex : Set :=
  | Unlocked
  | WLocked
  | RLocked (readers : nat).

Record State : Type := mkState {
  mu : RWMutex;
  entryCache : gmap Z addr;
  heap : list ProcessCacheEntry;
  calls : list Call
}.

Definition set_mu (v : RWMutex) (s : State) : State :=
  mkState v (entryCache s) (heap s) (calls s).
Definition set_entryCache (v : gmap Z addr) (s : State) : State :=
  mkState (mu s) v (heap s) (calls s).
Definition set_heap (v : list ProcessCacheEntry) (s : State) : State :=
  mkState (mu s) (entryCache s) v (calls s).
Definition set_calls (v : list Call) (s : State) : State :=
  mkState (mu s) (entryCache s) (heap s) v.

(** [NewProcessResolver]: an empty cache, a free lock. *)
Definition NewProcessResolver : State := mkState Unlocked ∅ [] [].

(** How a call ends: it returns, it waits on the lock for ever (in a run of
    one goroutine, a lock that is taken stays taken), or it panics. *)
Inductive Outcome (A : Type) : Type :=
  | Returns (a : A) (s : State)
  | Blocks (s : State)
  | Panics.
Arguments Returns {A} a s.
Arguments Blocks {A} s.
Arguments Panics {A}.

Definition M (A : Type) : Type := State -> Outcome A.

Definition ret {A : Type} (a : A) : M A := fun s => Returns a s.

Definition bind {A B : Type} (m : M A) (k : A -> M B) : M B :=
  fun s =>
    match m s with
    | Returns a s' => k a s'
    | Blocks s' => Blocks s'
    | Panics => Panics
    end.

Notation "'let*' x ':=' m 'in' k" := (bind m (fun x => k))
  (at level 10, x name, m at level 100, k at level 200).
Notation "m '>>' k" := (bind m (fun _ => k))
  (at level 100, k at level 200, right associativity).

(** [defer d]: [d] runs when the body returns; a body that blocks never gets
    there, and a panic stays a panic. *)
Definition defer {A : Type} (d : M unit) (body : M A) : M A :=
  let* a := body in d >> ret a.

Definition gets {A : Type} (f : State -> A) : M A := fun s => Returns (f s) s.

Definition run {A : Type} (r : Run A) : M A :=
  fun s => match r with Done a => Returns a s | Panic => Panics end.

(** The four operations of the lock. [Lock] waits while the lock is held in
    either mode, [RLock] while a writer holds it; unlocking a lock that is
    not held in that mode is a fatal error. *)
Definition Lock : M unit :=
  fun s => match mu s with
           | Unlocked => Returns tt (set_mu WLocked s)
           | _ => Blocks s
           end.

Definition Unlock : M unit :=
  fun s => match mu s with
           | WLocked => Returns tt (set_mu Unlocked s)
           | _ => Panics
           end.

Definition RLock : M unit :=
  fun s => match mu s with
           | Unlocked => Returns tt (set_mu (RLocked 1) s)
           | RLocked n => Returns tt (set_mu (RLocked (S n)) s)
           | WLocked => Blocks s
           end.

Definition RUnlock : M unit :=
  fun s => match mu s with
           | RLocked (S (S n)) => Returns tt (set_mu (RLocked (S n)) s)
           | RLocked _ => Returns tt (set_mu Unlocked s)
           | _ => Panics
           end.

(** Reading, writing and allocating entries. A dereference of an address
    outside the heap stands for a nil dereference. *)
Definition load (a : addr) : M ProcessCacheEntry :=
  fun s => match heap s !! a with
           | Some e => Returns e s
           | None => Panics
           end.

Definition store (a : addr) (e : ProcessCacheEntry) : M unit :=
  fun s => match heap s !! a with
           | Some _ => Returns tt (set_heap (<[a := e]> (heap s)) s)
           | None => Panics
           end.

Definition alloc (e : ProcessCacheEntry) : M addr :=
  fun s => Returns (length (heap s)) (set_heap (heap s ++ [e]) s).

Definition cache_insert (pid : Z) (a : addr) : M unit :=
  fun s => Returns tt (set_entryCache (<[pid := a]> (entryCache s)) s).

Definition cache_delete (pid : Z) : M unit :=
  fun s => Returns tt (set_entryCache (delete pid (entryCache s)) s).

Definition call (c : Call) : M unit :=
  fun s => Returns tt (set_calls (calls s ++ [c]) s).

(** ** The process cache *)

(** [insertEntry]: under the write lock, link the entry to the entry cached
    under its parent pid, or to a fresh placeholder for a parent pid of at
    least 1, then store the entry under [pid]. *)
Definition insertEntry (pid : Z) (entry : addr) : M unit :=
  Lock >>
  let* e := load entry in
  let* cache := gets entryCache in
  let* parent :=
    match cache !! PPid e with
    | Some parent =>
        let* p := load parent in
        store parent (set_Children (Children p ++ [entry]) p) >>
        ret (Some parent)
    | None =>
        if 1 <=? PPid e then
          let* parent := alloc (set_Children [entry] (set_Pid (PPid e) zeroEntry)) in
          cache_insert (PPid e) parent >>
          ret (Some parent)
        else ret None
    end in
  let* e := load entry in
  store entry (set_Parent parent e) >>
  cache_insert pid entry >>
  Unlock.

(** [AddEntry], [DelEntry] and [Get]. *)
Definition AddEntry (pid : Z) (entry : addr) : M unit := insertEntry pid entry.

Definition DelEntry (pid : Z) : M unit :=
  Lock >>
  defer Unlock (cache_delete pid).

Definition Get (pid : Z) : M (option addr) :=
  RLock >>
  defer RUnlock
    (let* cache := gets entryCache in
     ret (cache !! pid)).

Section Resolver.

Variable env : Env.

(** [Map.LookupBytes] on one of the three tables. *)
Definition lookupBytes (m : KernelMap) (key : list byte) : M LookupResult :=
  call (CallLookupBytes m key) >>
  ret (LookupBytes env m key).

(** ** The fallback of the facade *)

(** [resolve]: the two table lookups, the length check, the decoding, the
    credentials behind the decoded bytes, then [insertEntry]. The local
    [entry] becomes an object of the heap where its address is taken. The
    caller holds the write lock. *)
Definition resolve (pid : Z) : M (option addr) :=
  let pidb := binary.PutUint32 (ByteOrder env) pid in
  let* r := lookupBytes pid_cache pidb in
  match r with
  | LookupErr _ | LookupNil => ret None
  | LookupFound cookieb =>
      let* key := run (slice 0 4 cookieb) in
      let* r := lookupBytes proc_cache key in
      match r with
      | LookupErr _ | LookupNil => ret None
      | LookupFound entryb =>
          let data := entryb ++ cookieb in
          if Z.of_nat (length data) <? 208 then ret None
          else
            let* d := run (EntryUnmarshalBinary env zeroEntry data) in
            match d with
            | (_, _, Some _) => ret None
            | (entry, read, None) =>
                let* uidb := run (slice read (read + 4) data) in
                let* uid := run (binary.Uint32 (ByteOrder env) uidb) in
                let* gidb := run (slice (read + 4) (read + 8) data) in
                let* gid := run (binary.Uint32 (ByteOrder env) gidb) in
                let entry := set_Tid pid (set_Pid pid (set_GID gid (set_UID uid entry))) in
                let* a := alloc entry in
                insertEntry pid a >>
                ret (Some a)
            end
      end
  end.

(** [Resolve]: under the write lock, held until the function returns, the
    cached entry or the fallback. *)
Definition Resolve (pid : Z) : M (option addr) :=
  Lock >>
  defer Unlock
    (let* cache := gets entryCache in
     match cache !! pid with
     | Some entry => ret (Some entry)
     | None => resolve pid
     end).

(** ** Enrichment from /proc *)

(** [retrieveInodeInfo]: the inode table, then the decoder. *)
Definition retrieveInodeInfo (inode : Z) : M (GoErr InodeInfo.t) :=
  let inodeb := binary.PutUint64 (ByteOrder env) inode in
  let* r := lookupBytes inode_info_cache inodeb in
  match r with
  | LookupErr err => ret (Failure err)
  | LookupNil => ret (Failure (ErrNew "not found"))
  | LookupFound data =>
      let* d := run (InodeInfo.UnmarshalBinary (ByteOrder env) InodeInfo.zero data) in
      match d with
      | (_, _, Some err) => ret (Failure err)
      | (info, _, None) => ret (Success info)
      end
  end.

(** The assignments at the end of [enrichEventFromProc], in their order. *)
Definition fill (proc : FilledProcess) (pathnameStr : string) (inode : Z)
    (info : InodeInfo.t) (containerID : string) (tty : string)
    (e : ProcessCacheEntry) : ProcessCacheEntry :=
  let pid := uint32 (proc_Pid proc) in
  let e := set_FileEvent
             (FileEvent.mk inode (InodeInfo.OverlayNumLower info)
                           (InodeInfo.MountID info) pathnameStr "") e in
  let e := set_FileEvent (ResolveContainerPath env (FileEvent e)) e in
  let e := set_ContainerID containerID e in
  let e := set_ExecTimestamp (TimeUnix (int64 (proc_CreateTime proc * 1000000))) e in
  let e := set_Comm (proc_Name proc) e in
  let e := set_PPid (uint32 (proc_Ppid proc)) e in
  let e := set_TTYName tty e in
  let e := set_Pid pid e in
  let e := set_Tid pid e in
  let e := match proc_Uids proc with
           | uid :: _ => set_UID (uint32 uid) e
           | [] => e
           end in
  match proc_Gids proc with
  | gid :: _ => set_GID (uint32 gid) e
  | [] => e
  end.

(** [enrichEventFromProc]: exec link, stat, inode metadata, container ID;
    the entry is written once all four are there. *)
Definition enrichEventFromProc (entry : addr) (proc : FilledProcess)
  : M (option error) :=
  let pid := uint32 (proc_Pid proc) in
  let* r := call (CallReadlink pid) >> ret (Readlink env pid) in
  match r with
  | Failure err => ret (Some err)
  | Success pathnameStr =>
      if bool_decide (pathnameStr = "/ (deleted)") then
        ret (Some (ErrNew "snapshot failed"))
      else
        let* st := call (CallStat pid) >> ret (Stat env pid) in
        match st with
        | StatErr err => ret (Some err)
        | StatNoSys => ret (Some (ErrNew "snapshot failed"))
        | StatIno inode =>
            let* ri := retrieveInodeInfo inode in
            match ri with
            | Failure err => ret (Some err)
            | Success info =>
                let* rc := call (CallGetContainerID pid) >>
                           ret (GetContainerID env pid) in
                match rc with
                | Failure err => ret (Some err)
                | Success containerID =>
                    let* tty := call (CallPidTTY pid) >> ret (PidTTY env pid) in
                    let* e := load entry in
                    store entry (fill proc pathnameStr inode info containerID tty e) >>
                    ret None
                end
            end
        end
  end.

(** ** The snapshot driver *)

(** [SyncCache]: nothing for pid 0 and for a cached entry with an exec
    timestamp; otherwise the cached entry, or a new one, is enriched under
    the write lock, the lock is released, and the entry is inserted. *)
Definition SyncCache (proc : FilledProcess) : M bool :=
  let pid := uint32 (proc_Pid proc) in
  if pid =? 0 then ret false
  else
    Lock >>
    let* cache := gets entryCache in
    let enrich (entry : addr) : M bool :=
      let* err := enrichEventFromProc entry proc in
      match err with
      | Some _ => Unlock >> ret false
      | None =>
          Unlock >>
          insertEntry pid entry >>
          ret true
      end in
    match cache !! pid with
    | Some entry =>
        let* e := load entry in
        if negb (IsZero (ExecTimestamp e)) then Unlock >> ret false
        else enrich entry
    | None =>
        let* entry := alloc zeroEntry in
        enrich entry
    end.

End Resolver.

(** The number a run of bytes denotes, most significant byte first. *)
Definition be_value (bs : list byte) : Z :=
  fold_left (fun acc b => acc * 256 + byte_val b) bs 0.

(** The number four bytes denote in a given byte order. *)
Definition native_value (order : binary.ByteOrder) (bs : list byte) : Z :=
  match order with
  | binary.LittleEndian => be_value (rev bs)
  | binary.BigEndian => be_value bs
  end.

(** ** Feature detection (package [config])

    The first part of the file: the map of detected features, a package
    variable that detection only adds to, and [detectContainerFeatures].
    What detection reads from outside is a record; the calls it makes to
    [AddOverride] and [AddOverrideFunc] (declared in another file of the
    package) are recorded in the order they are made. *)

Module config.

Inductive Feature : Set :=
  | Docker
  | Containerd
  | Cri
  | Kubernetes
  | ECSFargate
  | EKSFargate.

#[global] Instance Feature_eq_dec : EqDecision Feature.
Proof. solve_decision. Defined.

(** The values [iota] gives the constants. *)
Definition Feature_to_nat (f : Feature) : nat :=
  match f with
  | Docker => 0 | Containerd => 1 | Cri => 2
  | Kubernetes => 3 | ECSFargate => 4 | EKSFargate => 5
  end.

Definition Feature_of_nat (n : nat) : option Feature :=
  match n with
  | 0 => Some Docker | 1 => Some Containerd | 2 => Some Cri
  | 3 => Some Kubernetes | 4 => Some ECSFargate | 5 => Some EKSFargate
  | _ => None
  end%nat.

#[global] Instance Feature_countable : Countable Feature.
Proof.
  refine (inj_countable Feature_to_nat Feature_of_nat _). intros []; reflexivity.
Defined.

Definition defaultLinuxDockerSocket : string := "/var/run/docker.sock".
Definition defaultWindowsDockerSocketPath : string := "//./pipe/docker_engine".
Definition defaultLinuxContainerdSocket : string := "/var/run/containerd/containerd.sock".
Definition defaultLinuxCrioSocket : string := "/var/run/crio/crio.sock".
Definition defaultHostMountPrefix : string := "/host".

(** [strings.Contains]. *)
Fixpoint Contains (s substr : string) : bool :=
  String.prefix substr s
  || match s with
     | EmptyString => false
     | String _ s' => Contains s' substr
     end.

(** A call to [AddOverride(key, value)], or to [AddOverrideFunc] with a
    function that sets an environment variable. *)
Inductive Override : Set :=
  | OverrideValue (key value : string)
  | OverrideSetenv (name value : string).

(** What detection reads: [IsContainerized()], [runtime.GOOS], whether
    [DOCKER_HOST] is set, whether [os.Stat] of a path succeeds, the
    configured [cri_socket_path], [IsKubernetes()], [IsECSFargate()], the
    configured [eks_fargate], and [path.Join] on two elements. *)
Record Host : Type := mkHost {
  IsContainerized : bool;
  GOOS : string;
  DockerHostSet : bool;
  StatOk : string -> bool;
  cri_socket_path : string;
  IsKubernetes : bool;
  IsECSFargate : bool;
  eks_fargate : bool;
  Join : string -> string -> string
}.

(** The package state: [detectedFeatures] and the overrides asked for. *)
Record Detected : Type := mkDetected {
  detectedFeatures : gset Feature;
  overrides : list Override
}.

Definition GetDetectedFeatures (st : Detected) : gset Feature := detectedFeatures st.

Definition IsFeaturePresent (feature : Feature) (st : Detected) : bool :=
  bool_decide (feature ∈ detectedFeatures st).

Definition add (feature : Feature) (st : Detected) : Detected :=
  mkDetected ({[ feature ]} ∪ detectedFeatures st) (overrides st).

Definition AddOverride (o : Override) (st : Detected) : Detected :=
  mkDetected (detectedFeatures st) (overrides st ++ [o]).

Definition detectContainerFeatures (host : Host) (st : Detected) : Detected :=
  let hostMountPrefix :=
    if IsContainerized host then defaultHostMountPrefix else "" in
  (* Docker *)
  let defaultDockerSocketPath :=
    if bool_decide (GOOS host = "windows") then defaultWindowsDockerSocketPath
    else Join host hostMountPrefix defaultLinuxDockerSocket in
  let st :=
    if DockerHostSet host then add Docker st
    else if StatOk host defaultDockerSocketPath then
      AddOverride (OverrideSetenv "DOCKER_HOST" (String.append "unix://" defaultDockerSocketPath))
        (add Docker st)
    else st in
  (* CRI socket *)
  let criSocket := cri_socket_path host in
  let criSocket :=
    if (String.length criSocket =? 0)%nat && negb (IsFeaturePresent Docker st) then
      if StatOk host (Join host hostMountPrefix defaultLinuxContainerdSocket) then
        Join host hostMountPrefix defaultLinuxContainerdSocket
      else if StatOk host (Join host hostMountPrefix defaultLinuxCrioSocket) then
        Join host hostMountPrefix defaultLinuxCrioSocket
      else criSocket
    else criSocket in
  let st :=
    if bool_decide (criSocket ≠ "") then
      let st := add Cri (AddOverride (OverrideValue "cri_socket_path" criSocket) st) in
      if Contains criSocket "containerd" then add Containerd st else st
    else st in
  let st := if IsKubernetes host then add Kubernetes st else st in
  let st := if IsECSFargate host then add ECSFargate st else st in
  if eks_fargate host then add Kubernetes (add EKSFargate st) else st.

(** [detectFeatures]: the container features, then a debug log. *)
Definition detectFeatures (host : Host) (st : Detected) : Detected :=
  detectContainerFeatures host st.

(** The package variable as initialised: an empty map, nothing overridden. *)
Definition initial : Detected := mkDetected ∅ [].

(** The two implications the feature constants carry. *)
Definition coherent (fs : gset Feature) : Prop :=
  (Containerd ∈ fs -> Cri ∈ fs) /\ (EKSFargate ∈ fs -> Kubernetes ∈ fs).

(** A host for the examples: a containerized Linux agent, no [DOCKER_HOST],
    no docker socket, a containerd and a crio socket under [/host]. On the
    elements joined here [path.Join] is concatenation. *)
Definition example_host : Host :=
  mkHost true "linux" false
    (fun path => bool_decide (path = "/host/var/run/containerd/containerd.sock")
                 || bool_decide (path = "/host/var/run/crio/crio.sock"))
    "" true false false
    (fun a b => String.append a b).

(** A host on EKS Fargate on which every socket exists. *)
Definition example_docker_host : Host :=
  mkHost true "linux" false (fun _ => true) "" false false true (fun a b => String.append a b).

(** A host with a CRI socket configured. *)
Definition example_configured_host : Host :=
  mkHost false "linux" true (fun _ => false) "/run/k3s/containerd/containerd.sock"
    false false false (fun a b => String.append a b).

(** The three parts of [detectContainerFeatures], for the statements: the
    docker part, the CRI socket it settles on and the CRI part, and the
    rest. [detect_stages] below shows the function is their composition. *)
Definition docker_stage (host : Host) (dockerPath : string) (st : Detected) : Detected :=
  if DockerHostSet host then add Docker st
  else if StatOk host dockerPath then
    AddOverride (OverrideSetenv "DOCKER_HOST" (String.append "unix://" dockerPath))
      (add Docker st)
  else st.

Definition cri_socket (host : Host) (st : Detected) : string :=
  let hostMountPrefix :=
    if IsContainerized host then defaultHostMountPrefix else "" in
  if (String.length (cri_socket_path host) =? 0)%nat
     && negb (IsFeaturePresent Docker st) then
    if StatOk host (Join host hostMountPrefix defaultLinuxContainerdSocket) then
      Join host hostMountPrefix defaultLinuxContainerdSocket
    else if StatOk host (Join host hostMountPrefix defaultLinuxCrioSocket) then
      Join host hostMountPrefix defaultLinuxCrioSocket
    else cri_socket_path host
  else cri_socket_path host.

Definition cri_stage (criSocket : string) (st : Detected) : Detected :=
  if bool_decide (criSocket ≠ "") then
    let st := add Cri (AddOverride (OverrideValue "cri_socket_path" criSocket) st) in
    if Contains criSocket "containerd" then add Containerd st else st
  else st.

Definition orchestrator_stage (host : Host) (st : Detected) : Detected :=
  let st := if IsKubernetes host then add Kubernetes st else st in
  let st := if IsECSFargate host then add ECSFargate st else st in
  if eks_fargate host then add Kubernetes (add EKSFargate st) else st.

(** The docker socket detection looks for. *)
Definition docker_socket (host : Host) : string :=
  if bool_decide (GOOS host = "windows") then defaultWindowsDockerSocketPath
  else Join host (if IsContainerized host then defaultHostMountPrefix else "")
         defaultLinuxDockerSocket.

End config.

(** ** The HTTP transaction records (package [ebpf])

    The pure methods of [httpTX] and [httpBatch]. The C structures behind
    them are not part of the source here: [Path] is given the bytes of the
    request fragment, [StatusClass] the status code, [GetTransactions] the
    batch index of the notification, all as Go [int]s. *)

Module http.

Definition space : byte := " "%byte.

(** The loop [for ; i < len(b) && b[i] != ' '; i++ {}] from index [i], given
    the bytes from [i] on: the index it stops at. *)
Fixpoint skip (rest : list byte) (i : nat) : nat :=
  match rest with
  | [] => i
  | c :: rest' => if Byte.eqb c space then i else skip rest' (S i)
  end.

(** [Path]: the bytes between the first space and the next one. *)
Definition Path (b : list byte) : Run (list byte) :=
  let i := skip b 0 in
  let i := S i in
  let j := skip (drop i b) i in
  if (i <? j)%nat && (j <=? length b)%nat
  then slice (Z.of_nat i) (Z.of_nat j) b
  else Done [].

(** [StatusClass]: Go's integer division truncates. *)
Definition StatusClass (status_code : Z) : Z := Z.quot status_code 100 * 100.

(** Go's [int], 64 bits wide on the platforms the tracer is built for; the
    conversion [int(x)] of a C counter keeps its low 64 bits. *)
Definition int (x : Z) : Z := int64 x.

(** [IsDirty]: the sum is Go's, it wraps around; [HTTPBatchPages] is a
    parameter. *)
Definition IsDirty (HTTPBatchPages : Z) (idx batch_idx : Z) : bool :=
  int (int batch_idx + HTTPBatchPages) <=? int idx.

(** [GetTransactions]: the index in [batch.txs] of the first transaction of
    the page of the notification. The index expression is checked against
    the length of the array, [txs_len]; the product wraps around. (The
    divisor [HTTPBatchPages] is a constant, and a zero one is refused by the
    compiler.) *)
Definition GetTransactions (HTTPBatchSize HTTPBatchPages txs_len : Z)
    (batch_idx : Z) : Run Z :=
  let pageID := Z.rem (int batch_idx) HTTPBatchPages in
  let i := int (pageID * HTTPBatchSize) in
  if (0 <=? i) && (i <? txs_len) then Done i else Panic.

End http.

(** ** Vocabulary of the statements *)

(** A table lookup misses when it gives an error or no value. *)
Definition lookup_miss (r : LookupResult) : Prop :=
  match r with LookupFound _ => False | _ => True end.

(** The key the pid table is queried with. *)
Definition pid_key (env : Env) (pid : Z) : list byte :=
  binary.PutUint32 (ByteOrder env) pid.

(** The kernel tables do not resolve [pid]: the pid table misses; or it
    holds a value (with the 4-byte cookie in front) whose cookie the record
    table misses; or record and pid-table value together are shorter than
    the 208 bytes of an encoded entry. *)
Inductive kernel_miss (env : Env) (pid : Z) : Prop :=
  | miss_cookie :
      lookup_miss (LookupBytes env pid_cache (pid_key env pid)) ->
      kernel_miss env pid
  | miss_record (cookieb : list byte) :
      LookupBytes env pid_cache (pid_key env pid) = LookupFound cookieb ->
      (4 <= length cookieb)%nat ->
      lookup_miss (LookupBytes env proc_cache (take 4 cookieb)) ->
      kernel_miss env pid
  | miss_short (cookieb entryb : list byte) :
      LookupBytes env pid_cache (pid_key env pid) = LookupFound cookieb ->
      (4 <= length cookieb)%nat ->
      LookupBytes env proc_cache (take 4 cookieb) = LookupFound entryb ->
      (length (entryb ++ cookieb) < 208)%nat ->
      kernel_miss env pid.

(** The kernel tables resolve [pid] to the payload [data], which decodes to
    [entry] with [read] bytes consumed and eight more bytes of credentials
    behind them. *)
Definition kernel_hit (env : Env) (pid : Z) (cookieb data : list byte)
    (entry : ProcessCacheEntry) (read : Z) : Prop :=
  exists entryb,
    LookupBytes env pid_cache (pid_key env pid) = LookupFound cookieb
    /\ (4 <= length cookieb)%nat
    /\ LookupBytes env proc_cache (take 4 cookieb) = LookupFound entryb
    /\ data = entryb ++ cookieb
    /\ (208 <= length data)%nat
    /\ EntryUnmarshalBinary env zeroEntry data = Done (entry, read, None)
    /\ 0 <= read /\ read + 8 <= Z.of_nat (length data).

(** The key the inode table is queried with. *)
Definition inode_key (env : Env) (inode : Z) : list byte :=
  binary.PutUint64 (ByteOrder env) inode.

(** The inode table has no usable record for [inode]: the lookup misses or
    the value is shorter than an inode record. *)
Definition inode_info_missing (env : Env) (inode : Z) : Prop :=
  match LookupBytes env inode_info_cache (inode_key env inode) with
  | LookupFound data => (length data < 8)%nat
  | _ => True
  end.

(** One of the steps of the enrichment of [proc] fails: the exec link is
    unreadable, the binary is deleted, the stat fails (or gives no
    [Stat_t]), the inode metadata is missing, or the container ID is. *)
Inductive enrich_fails (env : Env) (proc : FilledProcess) : Prop :=
  | fail_readlink (err : error) :
      Readlink env (uint32 (proc_Pid proc)) = Failure err ->
      enrich_fails env proc
  | fail_deleted :
      Readlink env (uint32 (proc_Pid proc)) = Success "/ (deleted)" ->
      enrich_fails env proc
  | fail_stat :
      (forall ino, Stat env (uint32 (proc_Pid proc)) ≠ StatIno ino) ->
      enrich_fails env proc
  | fail_inode (ino : Z) :
      Stat env (uint32 (proc_Pid proc)) = StatIno ino ->
      inode_info_missing env ino ->
      enrich_fails env proc
  | fail_container (err : error) :
      GetContainerID env (uint32 (proc_Pid proc)) = Failure err ->
      enrich_fails env proc.

(** Every step of the enrichment of [proc] succeeds, with these results. *)
Definition enrich_ok (env : Env) (proc : FilledProcess) (pathnameStr : string)
    (inode : Z) (info : InodeInfo.t) (containerID : string) : Prop :=
  Readlink env (uint32 (proc_Pid proc)) = Success pathnameStr
  /\ pathnameStr ≠ "/ (deleted)"
  /\ Stat env (uint32 (proc_Pid proc)) = StatIno inode
  /\ (exists data,
        LookupBytes env inode_info_cache (inode_key env inode) = LookupFound data
        /\ InodeInfo.UnmarshalBinary (ByteOrder env) InodeInfo.zero data
           = Done (info, 8, None))
  /\ GetContainerID env (uint32 (proc_Pid proc)) = Success containerID.

(** The logged calls of a complete enrichment of [pid]. *)
Definition enrich_calls (env : Env) (pid inode : Z) : list Call :=
  [CallReadlink pid; CallStat pid;
   CallLookupBytes inode_info_cache (inode_key env inode);
   CallGetContainerID pid; CallPidTTY pid].

(** Every cached pointer points into the heap (Go has no dangling
    pointers, and [insertEntry] never caches nil). *)
Definition cache_wf (s : State) : Prop :=
  forall (k : Z) (a : addr), entryCache s !! k = Some a -> (a < length (heap s))%nat.

(** The data of an entry: everything but its two lineage links. *)
Definition data_of (e : ProcessCacheEntry) : ProcessCacheEntry :=
  set_Children [] (set_Parent None e).

(** [pid] is not fully resolved in the cache: nothing is cached under it, or
    an entry whose exec timestamp is still zero. *)
Definition not_resolved (s : State) (pid : Z) : Prop :=
  match entryCache s !! pid with
  | None => True
  | Some a => exists e, heap s !! a = Some e /\ IsZero (ExecTimestamp e) = true
  end.

(** The operations a client of the resolver can make, one after the other:
    build an entry, and the six public methods ([AddEntry] takes a pointer
    to an entry built before). *)
Inductive Op : Type :=
  | OpNew (e : ProcessCacheEntry)
  | OpAddEntry (pid : Z) (entry : addr)
  | OpDelEntry (pid : Z)
  | OpGet (pid : Z)
  | OpResolve (pid : Z)
  | OpSyncCache (proc : FilledProcess).

Definition step (env : Env) (op : Op) : M unit :=
  match op with
  | OpNew e => alloc e >> ret tt
  | OpAddEntry pid entry => AddEntry pid entry
  | OpDelEntry pid => DelEntry pid
  | OpGet pid => Get pid >> ret tt
  | OpResolve pid => Resolve env pid >> ret tt
  | OpSyncCache proc => SyncCache env proc >> ret tt
  end.

Fixpoint steps (env : Env) (ops : list Op) : M unit :=
  match ops with
  | [] => ret tt
  | op :: ops' => step env op >> steps env ops'
  end.

(** The operation stores an entry under pid 0. *)
Definition inserts_under_pid_0 (op : Op) : Prop :=
  match op with
  | OpAddEntry pid _ => pid = 0
  | _ => False
  end.

(** Every cached entry whose parent pid is zero has no parent pointer;
    [except] leaves one address out. *)
Definition orphans_unlinked (except : option addr) (s : State) : Prop :=
  forall (k : Z) (a : addr) (x : ProcessCacheEntry),
    entryCache s !! k = Some a ->
    Some a ≠ except ->
    heap s !! a = Some x ->
    PPid x = 0 ->
    Parent x = None.

(** The lineage invariant that holds as long as nothing is stored under
    pid 0. *)
Definition lineage_inv (s : State) : Prop :=
  entryCache s !! 0 = None /\ cache_wf s /\ orphans_unlinked None s.

(** The table queries one [Resolve] of [pid] can add to the log: none, the
    pid table alone, or the pid table and then the record table. *)
Definition resolve_log (env : Env) (pid : Z) (log : list Call) : Prop :=
  log = []
  \/ log = [CallLookupBytes pid_cache (pid_key env pid)]
  \/ exists key, log = [CallLookupBytes pid_cache (pid_key env pid);
                        CallLookupBytes proc_cache key].

(** Every cached pointer is live, and the parent pointer of every cached
    entry leads to an entry that has it in its child list. *)
Definition links_inv (s : State) : Prop :=
  cache_wf s
  /\ forall (k : Z) (a : addr) (x : ProcessCacheEntry) (parent : addr),
       entryCache s !! k = Some a ->
       heap s !! a = Some x ->
       Parent x = Some parent ->
       exists p, heap s !! parent = Some p /\ a ∈ Children p.

(** ** Concrete inputs

    A little-endian tracer. The kernel tables know pid 42: its pid-table
    value is the cookie 1 followed by uid and gid 1000, and the record behind
    cookie 1 is 200 bytes long. The inode table knows inode 1234 (mount id 5,
    two lower layers). In /proc every exec link but that of pid 9 is
    readable. The decoder of process records, which is not part of this
    file, is stood in for by one that consumes 200 bytes and sets the parent
    pid to 1. *)

#[global] Instance byte_eq_decision : EqDecision byte := Byte.byte_eq_dec.

Module Example.

Definition cookie42 : list byte :=
  ["001"; "000"; "000"; "000"; "232"; "003"; "000"; "000";
   "232"; "003"; "000"; "000"]%byte.

Definition record42 : list byte := replicate 200 "000"%byte.

Definition inode1234 : list byte :=
  ["005"; "000"; "000"; "000"; "002"; "000"; "000"; "000"]%byte.

Definition tables (m : KernelMap) (key : list byte) : LookupResult :=
  match m with
  | pid_cache =>
      if bool_decide (key = binary.PutUint32 binary.LittleEndian 42)
      then LookupFound cookie42 else LookupNil
  | proc_cache =>
      if bool_decide (key = take 4 cookie42)
      then LookupFound record42 else LookupNil
  | inode_info_cache =>
      if bool_decide (key = binary.PutUint64 binary.LittleEndian 1234)
      then LookupFound inode1234 else LookupNil
  end.

Definition env : Env :=
  mkEnv binary.LittleEndian tables
    (fun pid => if pid =? 9 then Failure (ErrExternal 2) else Success "/usr/bin/app")
    (fun _ => StatIno 1234)
    (fun _ => Success "c0ffee")
    (fun _ => "pts0")
    (fun fe => fe)
    (fun e _ => Done (set_PPid 1 e, 200, None)).

(** Two entries a caller built: pid 20 with parent 10, pid 10 with parent 1. *)
Definition e20 : ProcessCacheEntry := set_PPid 10 (set_Pid 20 zeroEntry).
Definition e10 : ProcessCacheEntry := set_PPid 1 (set_Pid 10 zeroEntry).

(** A fresh resolver and the two entries, at addresses 0 and 1. *)
Definition s0 : State := set_heap [e20; e10] NewProcessResolver.

(** A fresh resolver and two entry objects with the same data (pid 20,
    parent 10), as two callers that resolve the same pid build them, at
    addresses 0 and 1. *)
Definition s_twins : State := set_heap [e20; e20] NewProcessResolver.

(** Two entries with parent pid 0: pid 0 itself and pid 1. *)
Definition idle : ProcessCacheEntry := zeroEntry.
Definition init : ProcessCacheEntry := set_Pid 1 zeroEntry.
Definition s_boot : State := set_heap [idle; init] NewProcessResolver.

(** What /proc says about pids 7, 9, 10 and 0. *)
Definition proc7 : FilledProcess := mkProc 7 1 1000 "app" [1000] [1000].
Definition proc9 : FilledProcess := mkProc 9 1 1000 "gone" [] [].
Definition proc10 : FilledProcess := mkProc 10 1 5 "parent" [0] [0].
Definition proc0 : FilledProcess := mkProc 0 0 0 "swapper" [0] [0].

(** A resolver that has pid 9 cached as a placeholder, and one that has
    pid 7 cached fully resolved. *)
Definition s_placeholder9 : State :=
  mkState Unlocked {[ 9 := 0%nat ]} [set_Children [5%nat] (set_Pid 9 zeroEntry)] [].
Definition s_resolved7 : State :=
  mkState Unlocked {[ 7 := 0%nat ]}
    [set_ExecTimestamp (TimeUnix 1) (set_Pid 7 zeroEntry)] [].

Definition info1234 : InodeInfo.t := InodeInfo.mk 5 2.

(** A resolver that has pid 10 (address 1) and its child pid 20
    (address 0) cached and linked. *)
Definition child20 : ProcessCacheEntry := set_Parent (Some 1%nat) e20.
Definition parent10 : ProcessCacheEntry := set_Children [0%nat] e10.
Definition s_family : State :=
  mkState Unlocked (<[20 := 0%nat]> (<[10 := 1%nat]> ∅)) [child20; parent10] [].

End Example.

(** * Properties *)

(** ** Tactics: running the operations symbolically *)

Ltac unfold_ops :=
  unfold defer, bind, ret, gets, run, Lock, Unlock, RLock, RUnlock, load, store,
    alloc, cache_insert, cache_delete, call.

Ltac exec :=
  cbn [mu entryCache heap calls set_mu set_entryCache set_heap set_calls].

(** [run_by rw]: alternate the rewriting step [rw] (the facts known about
    the state) with reduction, until nothing moves. *)
Ltac run_by rw := exec; repeat (progress (rw; exec)).

(** Case analysis on the innermost [match] of the goal. *)
Ltac case_innermost :=
  match goal with
  | |- context [match ?x with _ => _ end] =>
      lazymatch x with
      | context [match _ with _ => _ end] => fail
      | _ => destruct x eqn:?
      end
  end.

(** ** Bit-level facts about the decoder *)

Lemma byte_val_range (b : byte) : 0 <= byte_val b < 256.
Proof.
  unfold byte_val. pose proof (Byte.to_N_bounded b) as H. lia.
Qed.

Lemma lor_shiftl_add (a b k : Z) :
  0 <= k -> 0 <= a < 2 ^ k -> Z.lor a (Z.shiftl b k) = a + b * 2 ^ k.
Proof.
  intros Hk Ha.
  assert (Hland : Z.land a (Z.shiftl b k) = 0).
  { apply Z.bits_inj'. intros n Hn.
    rewrite Z.land_spec, Z.bits_0.
    destruct (Z.lt_ge_cases n k) as [Hlt | Hge].
    - rewrite (Z.shiftl_spec_low b k n Hlt). apply andb_false_r.
    - replace (Z.testbit a n) with false; [reflexivity |].
      symmetry. destruct (Z.eq_dec a 0) as [-> | Hne].
      + apply Z.bits_0.
      + apply Z.bits_above_log2; [lia |].
        apply Z.log2_lt_pow2; [lia |].
        pose proof (Z.pow_le_mono_r 2 k n) as Hmono. lia. }
  rewrite <- Z.lxor_lor by exact Hland.
  rewrite <- Z.add_nocarry_lxor by exact Hland.
  rewrite Z.shiftl_mul_pow2 by exact Hk. reflexivity.
Qed.

Lemma Uint32_value (order : binary.ByteOrder) (b0 b1 b2 b3 : byte) (rest : list byte) :
  binary.Uint32 order (b0 :: b1 :: b2 :: b3 :: rest)
  = Done (native_value order [b0; b1; b2; b3]).
Proof.
  pose proof (byte_val_range b0). pose proof (byte_val_range b1).
  pose proof (byte_val_range b2). pose proof (byte_val_range b3).
  destruct order; cbn [binary.Uint32 native_value rev app be_value fold_left];
    f_equal.
  - rewrite (lor_shiftl_add (byte_val b0) (byte_val b1) 8) by lia.
    rewrite (lor_shiftl_add _ (byte_val b2) 16) by lia.
    rewrite (lor_shiftl_add _ (byte_val b3) 24) by lia. lia.
  - rewrite (lor_shiftl_add (byte_val b3) (byte_val b2) 8) by lia.
    rewrite (lor_shiftl_add _ (byte_val b1) 16) by lia.
    rewrite (lor_shiftl_add _ (byte_val b0) 24) by lia. lia.
Qed.

Lemma InodeInfo_UnmarshalBinary_eight (order : binary.ByteOrder) (i : InodeInfo.t)
    (b0 b1 b2 b3 b4 b5 b6 b7 : byte) (rest : list byte) :
  InodeInfo.UnmarshalBinary order i (b0 :: b1 :: b2 :: b3 :: b4 :: b5 :: b6 :: b7 :: rest)
  = Done (InodeInfo.mk (native_value order [b0; b1; b2; b3])
                       (int32 (native_value order [b4; b5; b6; b7])),
          8, None).
Proof.
  unfold InodeInfo.UnmarshalBinary.
  destruct (Z.ltb_spec (Z.of_nat (length (b0 :: b1 :: b2 :: b3 :: b4 :: b5 :: b6 :: b7 :: rest))) 8)
    as [Hlt | _]; [cbn [length] in Hlt; lia |].
  rewrite Uint32_value.
  assert (Hs : slice_from 4 (b0 :: b1 :: b2 :: b3 :: b4 :: b5 :: b6 :: b7 :: rest)
               = Done (b4 :: b5 :: b6 :: b7 :: rest)).
  { unfold slice_from.
    destruct (Z.leb_spec 4 (Z.of_nat (length (b0 :: b1 :: b2 :: b3 :: b4 :: b5 :: b6 :: b7 :: rest))))
      as [_ | Hlt]; [reflexivity | cbn [length] in Hlt; lia]. }
  rewrite Hs, Uint32_value. reflexivity.
Qed.

(** C6: a buffer shorter than 8 bytes is refused with [ErrNotEnoughData],
    count 0, the receiver untouched and no out-of-range read (the result is
    not a panic); a buffer of at least 8 bytes decodes without a panic,
    returns 8, takes the mount id from bytes 0-3 and the overlay-lower
    count, as a signed 32-bit number, from bytes 4-7, both in the byte order
    of the tracer. *)
Theorem InodeInfo_UnmarshalBinary_spec :
  forall (order : binary.ByteOrder) (i : InodeInfo.t) (data : list byte),
    ((length data < 8)%nat ->
       InodeInfo.UnmarshalBinary order i data = Done (i, 0, Some ErrNotEnoughData))
    /\
    ((8 <= length data)%nat ->
       exists b0 b1 b2 b3 b4 b5 b6 b7 rest,
         data = b0 :: b1 :: b2 :: b3 :: b4 :: b5 :: b6 :: b7 :: rest
         /\ InodeInfo.UnmarshalBinary order i data
            = Done (InodeInfo.mk (native_value order [b0; b1; b2; b3])
                                 (int32 (native_value order [b4; b5; b6; b7])),
                    8, None)).
Proof.
  intros order i data. split.
  - intros Hlen. unfold InodeInfo.UnmarshalBinary.
    destruct (Z.ltb_spec (Z.of_nat (length data)) 8) as [_ | Hge]; [reflexivity | lia].
  - intros Hlen.
    destruct data as [| b0 [| b1 [| b2 [| b3 [| b4 [| b5 [| b6 [| b7 rest]]]]]]]];
      cbn [length] in Hlen; try lia.
    exists b0, b1, b2, b3, b4, b5, b6, b7, rest. split; [reflexivity |].
    apply InodeInfo_UnmarshalBinary_eight.
Qed.

(** ** Facts about the process cache *)

Section CacheFacts.

Implicit Types (s : State) (pid : Z) (entry parent : addr)
               (e p : ProcessCacheEntry).

(** [insertEntry] when an entry is cached under the parent pid: the child
    list of that entry grows by one, the entry is read back (it may be the
    parent itself), linked and stored. *)
Lemma insertEntry_parent_cached s pid entry e parent p :
  mu s = Unlocked ->
  heap s !! entry = Some e ->
  entryCache s !! PPid e = Some parent ->
  heap s !! parent = Some p ->
  exists e1,
    <[parent := set_Children (Children p ++ [entry]) p]> (heap s) !! entry = Some e1
    /\ insertEntry pid entry s
       = Returns tt
           (mkState Unlocked (<[pid := entry]> (entryCache s))
              (<[entry := set_Parent (Some parent) e1]>
                 (<[parent := set_Children (Children p ++ [entry]) p]> (heap s)))
              (calls s)).
Proof.
  intros Hmu He Hc Hp.
  assert (Hlt : (entry < length (heap s))%nat) by (eapply lookup_lt_Some; eauto).
  destruct (lookup_lt_is_Some_2
              (<[parent := set_Children (Children p ++ [entry]) p]> (heap s)) entry)
    as [e1 He1].
  { rewrite length_insert. exact Hlt. }
  exists e1. split; [exact He1 |].
  unfold insertEntry. unfold_ops.
  run_by ltac:(rewrite ?Hmu, ?He, ?Hc, ?Hp, ?He1). reflexivity.
Qed.

(** [insertEntry] when nothing is cached under the parent pid and the parent
    pid is at least 1: a placeholder is allocated and cached. *)
Lemma insertEntry_placeholder s pid entry e :
  mu s = Unlocked ->
  heap s !! entry = Some e ->
  entryCache s !! PPid e = None ->
  1 <= PPid e ->
  insertEntry pid entry s
  = Returns tt
      (mkState Unlocked
         (<[pid := entry]> (<[PPid e := length (heap s)]> (entryCache s)))
         (<[entry := set_Parent (Some (length (heap s))) e]>
            (heap s ++ [set_Children [entry] (set_Pid (PPid e) zeroEntry)]))
         (calls s)).
Proof.
  intros Hmu He Hc Hge.
  pose proof (lookup_app_l_Some _ [set_Children [entry] (set_Pid (PPid e) zeroEntry)]
                _ _ He) as He'.
  assert (Hleb : (1 <=? PPid e) = true) by (apply Z.leb_le; exact Hge).
  unfold insertEntry. unfold_ops.
  run_by ltac:(rewrite ?Hmu, ?He, ?Hc, ?Hleb, ?He'). reflexivity.
Qed.

(** [insertEntry] when nothing is cached under the parent pid and the parent
    pid is below 1: no parent at all. *)
Lemma insertEntry_orphan s pid entry e :
  mu s = Unlocked ->
  heap s !! entry = Some e ->
  entryCache s !! PPid e = None ->
  PPid e < 1 ->
  insertEntry pid entry s
  = Returns tt
      (mkState Unlocked (<[pid := entry]> (entryCache s))
         (<[entry := set_Parent None e]> (heap s)) (calls s)).
Proof.
  intros Hmu He Hc Hlt.
  assert (Hleb : (1 <=? PPid e) = false) by (apply Z.leb_gt; exact Hlt).
  unfold insertEntry. unfold_ops.
  run_by ltac:(rewrite ?Hmu, ?He, ?Hc, ?Hleb). reflexivity.
Qed.

(** What a returning [insertEntry] found: a free lock, an allocated entry,
    and an allocated parent when one is cached. *)
Lemma insertEntry_returns_inv s pid entry s' :
  insertEntry pid entry s = Returns tt s' ->
  mu s = Unlocked
  /\ exists e, heap s !! entry = Some e
       /\ forall parent, entryCache s !! PPid e = Some parent ->
                         is_Some (heap s !! parent).
Proof.
  unfold insertEntry. unfold_ops.
  destruct (mu s) eqn:Hmu; try discriminate. exec.
  destruct (heap s !! entry) as [e |] eqn:He; try discriminate. exec.
  intros Hrun. split; [reflexivity |]. exists e. split; [reflexivity |].
  intros parent Hc. rewrite Hc in Hrun.
  destruct (heap s !! parent) as [p |] eqn:Hp; [eauto |].
  exfalso. revert Hrun. exec. rewrite Hp. discriminate.
Qed.

Lemma DelEntry_run s pid :
  mu s = Unlocked ->
  DelEntry pid s
  = Returns tt (mkState Unlocked (delete pid (entryCache s)) (heap s) (calls s)).
Proof.
  intros Hmu. unfold DelEntry. unfold_ops.
  run_by ltac:(rewrite ?Hmu). reflexivity.
Qed.

(** [Get] is a peek: with the lock free it returns the slot and leaves the
    state as it was. *)
Lemma Get_run s pid :
  mu s = Unlocked ->
  Get pid s = Returns (entryCache s !! pid) s.
Proof.
  intros Hmu. unfold Get. unfold_ops.
  run_by ltac:(rewrite ?Hmu).
  destruct s as [m c h l]. cbn in Hmu. subst m. reflexivity.
Qed.

(** C8: [DelEntry] removes the slot of [pid] and nothing else. Afterwards
    [Get pid] is absent; every other slot is as before; the heap is as
    before, so the evicted entry [p] is still the object at [parent], still
    in every child list it was in, and its children are still allocated;
    and [Get] on a child cached under its own pid still returns the child,
    whose parent pointer is still [parent]. *)
Theorem DelEntry_frame s pid parent p :
  mu s = Unlocked ->
  entryCache s !! pid = Some parent ->
  heap s !! parent = Some p ->
  exists s',
    DelEntry pid s = Returns tt s'
    /\ Get pid s' = Returns None s'
    /\ heap s' = heap s
    /\ heap s' !! parent = Some p
    /\ (forall k, k ≠ pid -> entryCache s' !! k = entryCache s !! k)
    /\ (forall cpid child c,
          cpid ≠ pid ->
          entryCache s !! cpid = Some child ->
          heap s !! child = Some c ->
          child ∈ Children p ->
          Parent c = Some parent ->
          Get cpid s' = Returns (Some child) s'
          /\ heap s' !! child = Some c
          /\ child ∈ Children p)
    /\ (forall grandparent g,
          heap s !! grandparent = Some g ->
          parent ∈ Children g ->
          exists g', heap s' !! grandparent = Some g' /\ parent ∈ Children g').
Proof.
  intros Hmu Hc Hp. eexists. split; [apply DelEntry_run; exact Hmu |].
  split; [| split; [reflexivity | split; [exact Hp | split; [| split]]]].
  - rewrite Get_run by reflexivity. cbn [entryCache].
    rewrite lookup_delete_eq. reflexivity.
  - intros k Hk. cbn [entryCache]. apply lookup_delete_ne. congruence.
  - intros cpid child c Hne Hcc Hhc Hin Hpar.
    split; [| split; [exact Hhc | exact Hin]].
    rewrite Get_run by reflexivity. cbn [entryCache].
    rewrite lookup_delete_ne by congruence. rewrite Hcc. reflexivity.
  - intros grandparent g Hg Hin. exists g. split; [exact Hg | exact Hin].
Qed.

(** A goroutine that asks for the write lock while the lock is held waits:
    [insertEntry] starts with [Lock]. *)
Lemma insertEntry_blocks s pid entry :
  mu s ≠ Unlocked -> insertEntry pid entry s = Blocks s.
Proof.
  intros Hmu. unfold insertEntry. unfold_ops.
  destruct (mu s); [congruence | reflexivity | reflexivity].
Qed.

Lemma data_of_set_Parent v e : data_of (set_Parent v e) = data_of e.
Proof. reflexivity. Qed.

Lemma data_of_set_Children v e : data_of (set_Children v e) = data_of e.
Proof. reflexivity. Qed.

(** With the lock free, an allocated entry and a well-formed cache,
    [insertEntry] returns; the entry is then cached under [pid] with its
    data as before, and linked to what the cache held under its parent pid
    or to the placeholder just made. *)
Lemma insertEntry_total s pid entry e :
  mu s = Unlocked ->
  heap s !! entry = Some e ->
  cache_wf s ->
  exists s' e',
    insertEntry pid entry s = Returns tt s'
    /\ mu s' = Unlocked
    /\ calls s' = calls s
    /\ entryCache s' !! pid = Some entry
    /\ heap s' !! entry = Some e'
    /\ data_of e' = data_of e
    /\ Parent e' = match entryCache s !! PPid e with
                   | Some parent => Some parent
                   | None => if 1 <=? PPid e then Some (length (heap s)) else None
                   end
    /\ cache_wf s'
    /\ (PPid e ≠ pid -> entryCache s' !! PPid e = Parent e')
    /\ (forall parent, Parent e' = Some parent ->
          exists p, heap s' !! parent = Some p /\ entry ∈ Children p).
Proof.
  intros Hmu He Hwf.
  assert (Hlt : (entry < length (heap s))%nat) by (eapply lookup_lt_Some; eauto).
  destruct (entryCache s !! PPid e) as [parent |] eqn:Hc.
  - destruct (lookup_lt_is_Some_2 (heap s) parent (Hwf _ _ Hc)) as [p Hp].
    assert (Hltp : (parent < length (heap s))%nat) by (eapply lookup_lt_Some; eauto).
    destruct (insertEntry_parent_cached s pid entry e parent p Hmu He Hc Hp)
      as (e1 & He1 & Hrun).
    eexists _, (set_Parent (Some parent) e1). split; [exact Hrun |].
    cbn [mu calls entryCache heap].
    split; [reflexivity | split; [reflexivity | split; [apply lookup_insert_eq |]]].
    split; [| split; [| split; [reflexivity | split; [| split]]]].
    + apply list_lookup_insert_eq. rewrite length_insert. exact Hlt.
    + rewrite data_of_set_Parent.
      destruct (decide (parent = entry)) as [-> | Hne].
      * rewrite list_lookup_insert_eq in He1 by exact Hlt.
        injection He1 as <-. rewrite data_of_set_Children. congruence.
      * rewrite list_lookup_insert_ne in He1 by exact Hne. congruence.
    + intros k a. cbn [entryCache heap]. rewrite !length_insert. rewrite lookup_insert.
      case_decide; [intros [= <-]; exact Hlt | apply Hwf].
    + intros Hne. rewrite lookup_insert_ne by congruence. exact Hc.
    + intros parent' [= <-].
      destruct (decide (parent = entry)) as [-> | Hne].
      * rewrite list_lookup_insert_eq in He1 by exact Hlt. injection He1 as <-.
        eexists. split.
        -- apply list_lookup_insert_eq. rewrite length_insert. exact Hlt.
        -- cbn. apply elem_of_app. right. apply list_elem_of_here.
      * eexists. split.
        -- rewrite list_lookup_insert_ne by congruence.
           apply list_lookup_insert_eq. exact Hltp.
        -- cbn. apply elem_of_app. right. apply list_elem_of_here.
  - destruct (Z.leb_spec 1 (PPid e)) as [Hge | Hlt1].
    + eexists _, (set_Parent (Some (length (heap s))) e).
      split; [apply (insertEntry_placeholder s pid entry e); assumption |].
      cbn [mu calls entryCache heap].
      split; [reflexivity | split; [reflexivity | split; [apply lookup_insert_eq |]]].
      split; [| split; [reflexivity | split; [reflexivity | split; [| split]]]].
      * apply list_lookup_insert_eq. rewrite length_app. lia.
      * intros k a. cbn [entryCache heap]. rewrite length_insert, length_app. cbn [length].
        rewrite !lookup_insert. repeat case_decide.
        -- intros [= <-]. lia.
        -- intros [= <-]. lia.
        -- intros Hk. specialize (Hwf _ _ Hk). lia.
      * intros Hne. rewrite lookup_insert_ne by congruence.
        apply lookup_insert_eq.
      * intros parent' [= <-]. eexists. split.
        -- rewrite list_lookup_insert_ne by lia. apply list_lookup_middle. reflexivity.
        -- cbn. apply list_elem_of_here.
    + eexists _, (set_Parent None e).
      split; [apply (insertEntry_orphan s pid entry e); assumption |].
      cbn [mu calls entryCache heap].
      split; [reflexivity | split; [reflexivity | split; [apply lookup_insert_eq |]]].
      split; [| split; [reflexivity | split; [reflexivity | split; [| split]]]].
      * apply list_lookup_insert_eq. exact Hlt.
      * intros k a. cbn [entryCache heap]. rewrite length_insert, lookup_insert.
        case_decide; [intros [= <-]; exact Hlt | apply Hwf].
      * intros Hne. rewrite lookup_insert_ne by congruence. exact Hc.
      * intros parent' [=].
Qed.

Lemma set_Parent_id v e : Parent e = v -> set_Parent v e = e.
Proof. destruct e. cbn. intros <-. reflexivity. Qed.

Lemma PPid_data_of e e' : data_of e' = data_of e -> PPid e' = PPid e.
Proof. intros H. apply (f_equal PPid) in H. exact H. Qed.

(** Inserting an entry that is already cached under [pid] and already
    linked to the entry cached under its parent pid: the only change is one
    more occurrence of the entry in the child list of the parent. *)
Lemma insertEntry_again s pid entry e parent p :
  mu s = Unlocked ->
  heap s !! entry = Some e ->
  Parent e = Some parent ->
  entryCache s !! PPid e = Some parent ->
  heap s !! parent = Some p ->
  entryCache s !! pid = Some entry ->
  insertEntry pid entry s
  = Returns tt
      (set_heap (<[parent := set_Children (Children p ++ [entry]) p]> (heap s)) s).
Proof.
  intros Hmu He Hpar Hc Hp Hslot.
  assert (Hlt : (entry < length (heap s))%nat) by (eapply lookup_lt_Some; eauto).
  destruct (insertEntry_parent_cached s pid entry e parent p Hmu He Hc Hp)
    as (e1 & He1 & Hrun).
  rewrite Hrun. f_equal.
  assert (Hpar1 : Parent e1 = Some parent).
  { destruct (decide (parent = entry)) as [-> | Hne].
    - rewrite list_lookup_insert_eq in He1 by exact Hlt. injection He1 as <-.
      cbn. congruence.
    - rewrite list_lookup_insert_ne in He1 by exact Hne. congruence. }
  rewrite (set_Parent_id _ _ Hpar1), (list_insert_id _ _ _ He1),
    (insert_id _ _ _ Hslot).
  destruct s as [m c h l]. cbn in Hmu. subst m. reflexivity.
Qed.

(** What the first insert of an entry leaves behind, for a second one:
    every entry other than the inserted one and than the entry cached under
    its parent pid is as before, and what is cached under the parent pid
    afterwards is what was cached there before, or the placeholder just
    allocated; the inserted entry is the last of its children. *)
Lemma insertEntry_first_effect s pid entry e s1 :
  insertEntry pid entry s = Returns tt s1 ->
  mu s = Unlocked ->
  heap s !! entry = Some e ->
  cache_wf s ->
  PPid e ≠ pid ->
  (forall entry2 e2,
      entry2 ≠ entry ->
      heap s !! entry2 = Some e2 ->
      entryCache s !! PPid e ≠ Some entry2 ->
      heap s1 !! entry2 = Some e2)
  /\ (forall parent,
        entryCache s1 !! PPid e = Some parent ->
        (entryCache s !! PPid e = Some parent \/ parent = length (heap s))
        /\ exists p, heap s1 !! parent = Some p /\ last (Children p) = Some entry).
Proof.
  intros Hrun Hmu He Hwf Hne.
  assert (Hlt : (entry < length (heap s))%nat) by (eapply lookup_lt_Some; eauto).
  destruct (entryCache s !! PPid e) as [parent |] eqn:Hc.
  - destruct (lookup_lt_is_Some_2 (heap s) parent (Hwf _ _ Hc)) as [p Hp].
    assert (Hltp : (parent < length (heap s))%nat) by (eapply lookup_lt_Some; eauto).
    destruct (insertEntry_parent_cached s pid entry e parent p Hmu He Hc Hp)
      as (e1 & He1 & Hrun').
    rewrite Hrun' in Hrun. injection Hrun as <-. cbn [entryCache heap]. split.
    + intros entry2 e2 Hne2 He2 Hc2.
      rewrite !list_lookup_insert_ne by congruence. exact He2.
    + intros parent'. rewrite lookup_insert_ne by congruence. rewrite Hc.
      intros [= <-]. split; [left; reflexivity |].
      destruct (decide (parent = entry)) as [-> | Hpe].
      * rewrite list_lookup_insert_eq in He1 by exact Hlt. injection He1 as <-.
        eexists. split.
        -- apply list_lookup_insert_eq. rewrite length_insert. exact Hlt.
        -- cbn. apply last_snoc.
      * eexists. split.
        -- rewrite list_lookup_insert_ne by congruence.
           apply list_lookup_insert_eq. exact Hltp.
        -- cbn. apply last_snoc.
  - destruct (Z.leb_spec 1 (PPid e)) as [Hge | Hlt1].
    + rewrite (insertEntry_placeholder s pid entry e Hmu He Hc Hge) in Hrun.
      injection Hrun as <-. cbn [entryCache heap]. split.
      * intros entry2 e2 Hne2 He2 _.
        rewrite list_lookup_insert_ne by congruence.
        apply lookup_app_l_Some. exact He2.
      * intros parent'. rewrite lookup_insert_ne by congruence.
        rewrite lookup_insert_eq. intros [= <-]. split; [right; reflexivity |].
        eexists. split.
        -- rewrite list_lookup_insert_ne by lia. apply list_lookup_middle. reflexivity.
        -- reflexivity.
    + rewrite (insertEntry_orphan s pid entry e Hmu He Hc Hlt1) in Hrun.
      injection Hrun as <-. cbn [entryCache heap]. split.
      * intros entry2 e2 Hne2 He2 _.
        rewrite list_lookup_insert_ne by congruence. exact He2.
      * intros parent'. rewrite lookup_insert_ne by congruence. rewrite Hc.
        discriminate.
Qed.

(** C4, as amended: a second insert under the same pid. The first insert
    of an entry (not under its own parent pid) caches it under the pid.

    The same object again leaves every slot of the cache, the lock and the
    log as the first insert left them; when the first insert left nothing
    cached under the parent pid, it changes nothing at all, and otherwise
    it changes one thing: the entry, already in the child list of the entry
    cached under its parent pid, is appended to that list once more.

    Another object with the same data (what a second caller resolving the
    same pid inserts) takes the slot of the pid, every other slot staying
    as it was; its parent pointer becomes what is cached under the parent
    pid, and when something is cached there (whose last child is the
    first object) the second object is appended to that child list too, so
    the parent ends with two children for the one pid. *)
Theorem insertEntry_twice s pid entry e :
  mu s = Unlocked ->
  heap s !! entry = Some e ->
  cache_wf s ->
  PPid e ≠ pid ->
  exists s1,
    insertEntry pid entry s = Returns tt s1
    /\ entryCache s1 !! pid = Some entry
    /\ match entryCache s1 !! PPid e with
       | None =>
           insertEntry pid entry s1 = Returns tt s1
           /\ forall entry2 e2,
                entry2 ≠ entry ->
                heap s !! entry2 = Some e2 ->
                data_of e2 = data_of e ->
                insertEntry pid entry2 s1
                = Returns tt
                    (mkState Unlocked (<[pid := entry2]> (entryCache s1))
                       (<[entry2 := set_Parent None e2]> (heap s1))
                       (calls s1))
       | Some parent =>
           exists p,
             heap s1 !! parent = Some p
             /\ entry ∈ Children p
             /\ last (Children p) = Some entry
             /\ insertEntry pid entry s1
                = Returns tt
                    (set_heap
                       (<[parent := set_Children (Children p ++ [entry]) p]> (heap s1))
                       s1)
             /\ forall entry2 e2,
                  entry2 ≠ entry ->
                  heap s !! entry2 = Some e2 ->
                  data_of e2 = data_of e ->
                  entryCache s !! PPid e ≠ Some entry2 ->
                  insertEntry pid entry2 s1
                  = Returns tt
                      (mkState Unlocked (<[pid := entry2]> (entryCache s1))
                         (<[entry2 := set_Parent (Some parent) e2]>
                            (<[parent := set_Children (Children p ++ [entry2]) p]>
                               (heap s1)))
                         (calls s1))
       end.
Proof.
  intros Hmu He Hwf Hne.
  destruct (insertEntry_total s pid entry e Hmu He Hwf)
    as (s1 & e' & Hrun & Hmu1 & _ & Hslot & He' & Hdata & Hpar & Hwf1 & Hcp & Hch).
  destruct (insertEntry_first_effect s pid entry e s1 Hrun Hmu He Hwf Hne)
    as (Hother & Hlast).
  pose proof (PPid_data_of _ _ Hdata) as Hppid.
  exists s1. split; [exact Hrun | split; [exact Hslot |]].
  destruct (Parent e') as [parent |] eqn:Hpe; rewrite (Hcp Hne) in Hlast |- *.
  - destruct (Hlast parent eq_refl) as (Hwhich & p & Hp & Hlastp).
    destruct (Hch parent eq_refl) as (p' & Hp' & Hin).
    assert (p' = p) by congruence. subst p'.
    exists p. split; [exact Hp | split; [exact Hin | split; [exact Hlastp | split]]].
    + apply (insertEntry_again s1 pid entry e' parent p); try assumption.
      rewrite Hppid. exact (Hcp Hne).
    + intros entry2 e2 Hne2 He2 Hd2 Hc2.
      assert (Hlt2 : (entry2 < length (heap s))%nat) by (eapply lookup_lt_Some; eauto).
      assert (Hpne : parent ≠ entry2).
      { destruct Hwhich as [Hold | ->]; [congruence | lia]. }
      pose proof (Hother entry2 e2 Hne2 He2 Hc2) as He2'.
      assert (Hc1 : entryCache s1 !! PPid e2 = Some parent).
      { rewrite (PPid_data_of _ _ Hd2). exact (Hcp Hne). }
      destruct (insertEntry_parent_cached s1 pid entry2 e2 parent p Hmu1 He2' Hc1 Hp)
        as (e1 & He1 & Hrun2).
      rewrite list_lookup_insert_ne in He1 by exact Hpne.
      assert (e1 = e2) by congruence. subst e1. exact Hrun2.
  - assert (Hc1 : entryCache s1 !! PPid e' = None).
    { rewrite Hppid. exact (Hcp Hne). }
    assert (Hlt : PPid e < 1).
    { destruct (entryCache s !! PPid e); [discriminate |].
      destruct (Z.leb_spec 1 (PPid e)); [discriminate | assumption]. }
    split.
    + rewrite (insertEntry_orphan s1 pid entry e' Hmu1 He' Hc1) by (rewrite Hppid; exact Hlt).
      f_equal.
      rewrite (set_Parent_id _ _ Hpe), (list_insert_id _ _ _ He'),
        (insert_id _ _ _ Hslot).
      destruct s1 as [m c h l]. cbn in Hmu1. subst m. reflexivity.
    + intros entry2 e2 Hne2 He2 Hd2.
      assert (Hc2 : entryCache s !! PPid e ≠ Some entry2).
      { destruct (entryCache s !! PPid e); [discriminate Hpar | discriminate]. }
      pose proof (Hother entry2 e2 Hne2 He2 Hc2) as He2'.
      apply (insertEntry_orphan s1 pid entry2 e2 Hmu1 He2').
      * rewrite (PPid_data_of _ _ Hd2). exact (Hcp Hne).
      * rewrite (PPid_data_of _ _ Hd2). exact Hlt.
Qed.

(** One insert under a non-zero pid establishes the lineage invariant,
    whatever the links of the inserted entry were before. *)
Lemma insertEntry_establishes_inv s pid entry s' :
  insertEntry pid entry s = Returns tt s' ->
  pid ≠ 0 ->
  entryCache s !! 0 = None ->
  cache_wf s ->
  orphans_unlinked (Some entry) s ->
  lineage_inv s'.
Proof.
  intros Hrun Hpid H0 Hwf Hold.
  destruct (insertEntry_returns_inv s pid entry s' Hrun) as (Hmu & e & He & Halloc).
  assert (Hlt : (entry < length (heap s))%nat) by (eapply lookup_lt_Some; eauto).
  destruct (entryCache s !! PPid e) as [parent |] eqn:Hc.
  - destruct (Halloc parent eq_refl) as [p Hp].
    assert (Hltp : (parent < length (heap s))%nat) by (eapply lookup_lt_Some; eauto).
    destruct (insertEntry_parent_cached s pid entry e parent p Hmu He Hc Hp)
      as (e1 & He1 & Hrun').
    rewrite Hrun' in Hrun. injection Hrun as <-.
    assert (Hppid : PPid e1 = PPid e).
    { destruct (decide (parent = entry)) as [-> | Hne].
      - rewrite list_lookup_insert_eq in He1 by exact Hlt. injection He1 as <-.
        cbn. congruence.
      - rewrite list_lookup_insert_ne in He1 by exact Hne. congruence. }
    split; [| split].
    + cbn [entryCache]. rewrite lookup_insert_ne by exact Hpid. exact H0.
    + intros k a. cbn [entryCache heap]. rewrite !length_insert, lookup_insert.
      case_decide; [intros [= <-]; exact Hlt | apply Hwf].
    + intros k a x. cbn [entryCache heap]. intros Hk _ Hx Hzero.
      destruct (decide (a = entry)) as [-> | Hae].
      * rewrite list_lookup_insert_eq in Hx by (rewrite length_insert; exact Hlt).
        injection Hx as <-. cbn in Hzero. congruence.
      * rewrite lookup_insert in Hk. case_decide; [congruence |].
        rewrite list_lookup_insert_ne in Hx by congruence.
        destruct (decide (a = parent)) as [-> | Hap].
        -- rewrite list_lookup_insert_eq in Hx by exact Hltp. injection Hx as <-.
           cbn in Hzero |- *. apply (Hold k parent p Hk); [congruence | exact Hp | exact Hzero].
        -- rewrite list_lookup_insert_ne in Hx by congruence.
           apply (Hold k a x Hk); [congruence | exact Hx | exact Hzero].
  - destruct (Z.leb_spec 1 (PPid e)) as [Hge | Hlt1].
    + rewrite (insertEntry_placeholder s pid entry e Hmu He Hc Hge) in Hrun.
      injection Hrun as <-.
      split; [| split].
      * cbn [entryCache]. rewrite !lookup_insert_ne by lia. exact H0.
      * intros k a. cbn [entryCache heap]. rewrite length_insert, length_app.
        cbn [length]. rewrite !lookup_insert. repeat case_decide.
        -- intros [= <-]. lia.
        -- intros [= <-]. lia.
        -- intros Hk. specialize (Hwf _ _ Hk). lia.
      * intros k a x. cbn [entryCache heap]. intros Hk _ Hx Hzero.
        destruct (decide (a = entry)) as [-> | Hae].
        -- rewrite list_lookup_insert_eq in Hx by (rewrite length_app; lia).
           injection Hx as <-. cbn in Hzero. lia.
        -- rewrite lookup_insert in Hk. case_decide; [congruence |].
           rewrite list_lookup_insert_ne in Hx by congruence.
           rewrite lookup_insert in Hk. case_decide.
           ++ injection Hk as <-. rewrite list_lookup_middle in Hx by reflexivity.
              injection Hx as <-. reflexivity.
           ++ rewrite lookup_app_l in Hx by (eapply Hwf; eauto).
              apply (Hold k a x Hk); [congruence | exact Hx | exact Hzero].
    + rewrite (insertEntry_orphan s pid entry e Hmu He Hc Hlt1) in Hrun.
      injection Hrun as <-.
      split; [| split].
      * cbn [entryCache]. rewrite lookup_insert_ne by exact Hpid. exact H0.
      * intros k a. cbn [entryCache heap]. rewrite length_insert, lookup_insert.
        case_decide; [intros [= <-]; exact Hlt | apply Hwf].
      * intros k a x. cbn [entryCache heap]. intros Hk _ Hx Hzero.
        destruct (decide (a = entry)) as [-> | Hae].
        -- rewrite list_lookup_insert_eq in Hx by exact Hlt.
           injection Hx as <-. reflexivity.
        -- rewrite lookup_insert in Hk. case_decide; [congruence |].
           rewrite list_lookup_insert_ne in Hx by congruence.
           apply (Hold k a x Hk); [congruence | exact Hx | exact Hzero].
Qed.

(** The invariant reads the cache and the heap only, and survives changes
    to addresses that are not cached. *)
Lemma orphans_unlinked_frame (except : option addr) s s1 :
  cache_wf s ->
  orphans_unlinked None s ->
  entryCache s1 = entryCache s ->
  (forall a, (a < length (heap s))%nat -> Some a ≠ except ->
             heap s1 !! a = heap s !! a) ->
  orphans_unlinked except s1.
Proof.
  intros Hwf Hold Hc Hh k a x Hk Hex Hx Hzero.
  rewrite Hc in Hk. rewrite (Hh a (Hwf _ _ Hk) Hex) in Hx.
  apply (Hold k a x Hk); [discriminate | exact Hx | exact Hzero].
Qed.

Lemma lineage_inv_frame s s1 :
  lineage_inv s ->
  entryCache s1 = entryCache s ->
  (length (heap s) <= length (heap s1))%nat ->
  (forall a, (a < length (heap s))%nat -> heap s1 !! a = heap s !! a) ->
  lineage_inv s1.
Proof.
  intros (H0 & Hwf & Hold) Hc Hlen Hh. split; [| split].
  - rewrite Hc. exact H0.
  - intros k a. rewrite Hc. intros Hk. specialize (Hwf _ _ Hk). lia.
  - apply (orphans_unlinked_frame None s s1 Hwf Hold Hc). intros a Ha _. apply Hh, Ha.
Qed.

Lemma Get_returns_frame s pid r s' :
  Get pid s = Returns r s' -> entryCache s' = entryCache s /\ heap s' = heap s.
Proof.
  unfold Get. unfold_ops.
  destruct (mu s) as [| | [| n]] eqn:Hmu; exec; try discriminate;
    intros [= _ <-]; split; reflexivity.
Qed.

End CacheFacts.

(** ** The facade *)

Lemma slice_in_range (lo hi : Z) (data : list byte) :
  0 <= lo -> lo <= hi -> hi <= Z.of_nat (length data) ->
  slice lo hi data = Done (take (Z.to_nat (hi - lo)) (drop (Z.to_nat lo) data)).
Proof.
  intros H0 H1 H2. unfold slice.
  destruct (Z.leb_spec 0 lo); [| lia].
  destruct (Z.leb_spec lo hi); [| lia].
  destruct (Z.leb_spec hi (Z.of_nat (length data))); [| lia].
  reflexivity.
Qed.

Lemma slice_length (lo hi : Z) (data out : list byte) :
  slice lo hi data = Done out -> Z.of_nat (length out) = hi - lo.
Proof.
  unfold slice.
  destruct (Z.leb_spec 0 lo); [| discriminate].
  destruct (Z.leb_spec lo hi); [| discriminate].
  destruct (Z.leb_spec hi (Z.of_nat (length data))); [| discriminate].
  cbn [andb]. intros [= <-]. rewrite length_take, length_drop. lia.
Qed.

Lemma Uint32_total (order : binary.ByteOrder) (b : list byte) :
  (4 <= length b)%nat -> exists v, binary.Uint32 order b = Done v.
Proof.
  destruct b as [| b0 [| b1 [| b2 [| b3 rest]]]]; cbn [length]; try lia.
  intros _. eexists. reflexivity.
Qed.

Section Facade.

Variable env : Env.

(** C3: with the lock free and nothing cached under [pid], a pid the kernel
    tables do not resolve makes [Resolve] return nil; the state it leaves
    differs from the one it found in the log of table queries only: the
    cache, the heap of entries and the lock are as before. *)
Theorem Resolve_kernel_miss (s : State) (pid : Z) :
  mu s = Unlocked ->
  entryCache s !! pid = None ->
  kernel_miss env pid ->
  exists log, Resolve env pid s = Returns None (set_calls (calls s ++ log) s).
Proof.
  intros Hmu Hc Hmiss.
  assert (Hs : forall l, mkState Unlocked (entryCache s) (heap s) l = set_calls l s).
  { intros l. destruct s as [m c h l0]. cbn in Hmu. subst m. reflexivity. }
  unfold Resolve, resolve, lookupBytes. fold (pid_key env pid). unfold_ops.
  destruct Hmiss as [Hm | cookieb Hk Hlen Hm | cookieb entryb Hk Hlen Hr Hshort].
  - exists [CallLookupBytes pid_cache (pid_key env pid)].
    run_by ltac:(rewrite ?Hmu, ?Hc).
    destruct (LookupBytes env pid_cache (pid_key env pid)); cbn in Hm; try tauto;
      exec; rewrite <- Hs; reflexivity.
  - exists [CallLookupBytes pid_cache (pid_key env pid);
            CallLookupBytes proc_cache (take 4 cookieb)].
    assert (Hsl : slice 0 4 cookieb = Done (take 4 cookieb)).
    { rewrite slice_in_range by lia. reflexivity. }
    run_by ltac:(rewrite ?Hmu, ?Hc, ?Hk, ?Hsl).
    destruct (LookupBytes env proc_cache (take 4 cookieb)); cbn in Hm; try tauto;
      exec; rewrite <- Hs, <- app_assoc; reflexivity.
  - exists [CallLookupBytes pid_cache (pid_key env pid);
            CallLookupBytes proc_cache (take 4 cookieb)].
    assert (Hsl : slice 0 4 cookieb = Done (take 4 cookieb)).
    { rewrite slice_in_range by lia. reflexivity. }
    assert (Hlt : (Z.of_nat (length (entryb ++ cookieb)) <? 208) = true).
    { apply Z.ltb_lt. lia. }
    run_by ltac:(rewrite ?Hmu, ?Hc, ?Hk, ?Hsl, ?Hr, ?Hlt).
    rewrite <- Hs, <- app_assoc. reflexivity.
Qed.

(** What [resolve] does on a hit, whatever the lock: it waits in
    [insertEntry] when the lock is held. *)
Lemma resolve_hit_locked (s : State) (pid : Z) (cookieb data : list byte)
    (entry : ProcessCacheEntry) (read : Z) :
  mu s ≠ Unlocked ->
  kernel_hit env pid cookieb data entry read ->
  exists e',
    resolve env pid s
    = Blocks (mkState (mu s) (entryCache s) (heap s ++ [e'])
                (calls s ++ [CallLookupBytes pid_cache (pid_key env pid);
                             CallLookupBytes proc_cache (take 4 cookieb)])).
Proof.
  intros Hmu (entryb & Hk & Hlen & Hr & -> & Hbig & Hdec & Hread0 & Hread8).
  assert (Hsl : slice 0 4 cookieb = Done (take 4 cookieb)).
  { rewrite slice_in_range by lia. reflexivity. }
  assert (Hge : (Z.of_nat (length (entryb ++ cookieb)) <? 208) = false).
  { apply Z.ltb_ge. lia. }
  destruct (slice read (read + 4) (entryb ++ cookieb)) as [uidb |] eqn:Huidb;
    [| rewrite slice_in_range in Huidb by lia; discriminate].
  destruct (slice (read + 4) (read + 8) (entryb ++ cookieb)) as [gidb |] eqn:Hgidb;
    [| rewrite slice_in_range in Hgidb by lia; discriminate].
  destruct (Uint32_total (ByteOrder env) uidb) as [uid Huid].
  { apply slice_length in Huidb. lia. }
  destruct (Uint32_total (ByteOrder env) gidb) as [gid Hgid].
  { apply slice_length in Hgidb. lia. }
  exists (set_Tid pid (set_Pid pid (set_GID gid (set_UID uid entry)))).
  unfold resolve, lookupBytes. fold (pid_key env pid).
  unfold bind at 1 2. unfold call at 1, ret at 1. exec. rewrite Hk.
  unfold bind at 1. unfold run at 1. rewrite Hsl.
  unfold bind at 1 2. unfold call at 1, ret at 1. exec. rewrite Hr, Hge.
  unfold bind at 1. unfold run at 1. rewrite Hdec.
  unfold bind at 1. unfold run at 1. rewrite Huidb.
  unfold bind at 1. unfold run at 1. rewrite Huid.
  unfold bind at 1. unfold run at 1. rewrite Hgidb.
  unfold bind at 1. unfold run at 1. rewrite Hgid.
  unfold bind at 1. unfold alloc at 1.
  unfold bind at 1. rewrite insertEntry_blocks by (exec; exact Hmu).
  exec. rewrite <- app_assoc. reflexivity.
Qed.

(** C5: [Resolve] does not always return. With the lock free, nothing
    cached under [pid] and a pid the kernel tables resolve, [Resolve] takes
    the write lock, makes its two table lookups, and then waits in
    [insertEntry] for the write lock it holds itself: it ends blocked,
    with the lock still held and the cache as it was. *)
Theorem Resolve_fallback_self_deadlock (s : State) (pid : Z)
    (cookieb data : list byte) (entry : ProcessCacheEntry) (read : Z) :
  mu s = Unlocked ->
  entryCache s !! pid = None ->
  kernel_hit env pid cookieb data entry read ->
  exists s',
    Resolve env pid s = Blocks s'
    /\ mu s' = WLocked
    /\ entryCache s' = entryCache s
    /\ calls s' = calls s ++ [CallLookupBytes pid_cache (pid_key env pid);
                              CallLookupBytes proc_cache (take 4 cookieb)].
Proof.
  intros Hmu Hc Hhit.
  destruct (resolve_hit_locked (set_mu WLocked s) pid cookieb data entry read)
    as [e' Hrun]; [discriminate | exact Hhit |].
  eexists. split.
  - unfold Resolve. unfold bind at 1. unfold Lock at 1. rewrite Hmu.
    unfold defer. unfold bind at 1 2. unfold gets at 1. exec. rewrite Hc.
    unfold set_mu in Hrun |- *. rewrite Hrun. reflexivity.
  - split; [reflexivity | split; reflexivity].
Qed.

(** A [resolve] that returns while the lock is held has left the cache
    and the heap alone: the one path that writes ends in [insertEntry]. *)
Lemma resolve_returns_frame (s : State) (pid : Z) (r : option addr) (s' : State) :
  mu s ≠ Unlocked ->
  resolve env pid s = Returns r s' ->
  entryCache s' = entryCache s /\ heap s' = heap s /\ mu s' = mu s.
Proof.
  intros Hmu. unfold resolve, lookupBytes.
  unfold bind at 1 2. unfold call at 1, ret at 1.
  destruct (LookupBytes env pid_cache _) as [err | | cookieb];
    [intros [= _ <-]; auto .. |].
  unfold bind at 1. unfold run at 1.
  destruct (slice 0 4 cookieb) as [key |]; [| discriminate].
  unfold bind at 1 2. unfold call at 1, ret at 1.
  destruct (LookupBytes env proc_cache key) as [err | | entryb];
    [intros [= _ <-]; auto .. |].
  destruct (Z.of_nat (length (entryb ++ cookieb)) <? 208);
    [intros [= _ <-]; auto |].
  unfold bind at 1. unfold run at 1.
  destruct (EntryUnmarshalBinary env zeroEntry (entryb ++ cookieb))
    as [[[entry read] [err |]] |]; [intros [= _ <-]; auto | | discriminate].
  unfold bind at 1. unfold run at 1.
  destruct (slice read (read + 4) (entryb ++ cookieb)) as [uidb |]; [| discriminate].
  unfold bind at 1. unfold run at 1.
  destruct (binary.Uint32 (ByteOrder env) uidb) as [uid |]; [| discriminate].
  unfold bind at 1. unfold run at 1.
  destruct (slice (read + 4) (read + 8) (entryb ++ cookieb)) as [gidb |]; [| discriminate].
  unfold bind at 1. unfold run at 1.
  destruct (binary.Uint32 (ByteOrder env) gidb) as [gid |]; [| discriminate].
  unfold bind at 1. unfold alloc at 1.
  unfold bind at 1. rewrite insertEntry_blocks by (exec; exact Hmu).
  discriminate.
Qed.

(** Whenever [Resolve] returns, the cache and the heap are as before. *)
Lemma Resolve_returns_frame (s : State) (pid : Z) (r : option addr) (s' : State) :
  Resolve env pid s = Returns r s' ->
  entryCache s' = entryCache s /\ heap s' = heap s.
Proof.
  unfold Resolve. unfold bind at 1. unfold Lock at 1.
  destruct (mu s) eqn:Hmu; try discriminate.
  unfold defer. unfold bind at 1 2. unfold gets at 1. exec.
  destruct (entryCache s !! pid) as [entry |].
  - unfold_ops. exec. intros [= _ <-]. split; reflexivity.
  - destruct (resolve env pid (set_mu WLocked s)) as [r1 s1 | |] eqn:Hres;
      try discriminate.
    apply resolve_returns_frame in Hres; [| discriminate].
    destruct Hres as (Hc & Hh & Hm). unfold_ops. cbn [mu set_mu] in Hm.
    rewrite Hm. intros [= _ <-]. exec. split; assumption.
Qed.

End Facade.

(** ** Enrichment *)

Section Enrichment.

Variable env : Env.

Lemma InodeInfo_UnmarshalBinary_short (i : InodeInfo.t) (data : list byte) :
  (length data < 8)%nat ->
  InodeInfo.UnmarshalBinary (ByteOrder env) i data = Done (i, 0, Some ErrNotEnoughData).
Proof.
  intros Hlen. unfold InodeInfo.UnmarshalBinary.
  destruct (Z.ltb_spec (Z.of_nat (length data)) 8); [reflexivity | lia].
Qed.

Lemma retrieveInodeInfo_missing (inode : Z) (s : State) :
  inode_info_missing env inode ->
  exists err,
    retrieveInodeInfo env inode s
    = Returns (Failure err)
        (set_calls (calls s ++ [CallLookupBytes inode_info_cache (inode_key env inode)]) s).
Proof.
  unfold inode_info_missing, retrieveInodeInfo, lookupBytes.
  fold (inode_key env inode). unfold_ops. exec.
  destruct (LookupBytes env inode_info_cache (inode_key env inode)) as [err | | data];
    intros Hmiss.
  - exists err. reflexivity.
  - eexists. reflexivity.
  - rewrite InodeInfo_UnmarshalBinary_short by exact Hmiss.
    eexists. reflexivity.
Qed.

Lemma retrieveInodeInfo_found (inode : Z) (data : list byte) (info : InodeInfo.t)
    (n : Z) (s : State) :
  LookupBytes env inode_info_cache (inode_key env inode) = LookupFound data ->
  InodeInfo.UnmarshalBinary (ByteOrder env) InodeInfo.zero data = Done (info, n, None) ->
  retrieveInodeInfo env inode s
  = Returns (Success info)
      (set_calls (calls s ++ [CallLookupBytes inode_info_cache (inode_key env inode)]) s).
Proof.
  intros Hk Hdec. unfold retrieveInodeInfo, lookupBytes.
  fold (inode_key env inode). unfold_ops. exec. rewrite Hk, Hdec. reflexivity.
Qed.

Lemma InodeInfo_UnmarshalBinary_long (i : InodeInfo.t) (data : list byte) :
  (8 <= length data)%nat ->
  exists info, InodeInfo.UnmarshalBinary (ByteOrder env) i data = Done (info, 8, None).
Proof.
  intros Hlen.
  destruct data as [| b0 [| b1 [| b2 [| b3 [| b4 [| b5 [| b6 [| b7 rest]]]]]]]];
    cbn [length] in Hlen; try lia.
  rewrite InodeInfo_UnmarshalBinary_eight. eexists. reflexivity.
Qed.

(** The inode table either has no usable record, or one that decodes. *)
Lemma classic_missing (inode : Z) :
  inode_info_missing env inode
  \/ exists data info,
       LookupBytes env inode_info_cache (inode_key env inode) = LookupFound data
       /\ InodeInfo.UnmarshalBinary (ByteOrder env) InodeInfo.zero data
          = Done (info, 8, None).
Proof.
  unfold inode_info_missing.
  destruct (LookupBytes env inode_info_cache (inode_key env inode)) as [err | | data];
    [left; exact I | left; exact I |].
  destruct (Nat.lt_ge_cases (length data) 8) as [Hlt | Hge]; [left; exact Hlt |].
  right. destruct (InodeInfo_UnmarshalBinary_long InodeInfo.zero data Hge) as [info Hi].
  exists data, info. split; [reflexivity | exact Hi].
Qed.

(** A failing enrichment returns its error and writes nothing: the state
    it leaves differs from the one it found in the log of calls only. *)
Lemma enrichEventFromProc_fails (proc : FilledProcess) (entry : addr) (s : State) :
  enrich_fails env proc ->
  exists err log,
    enrichEventFromProc env entry proc s
    = Returns (Some err) (set_calls (calls s ++ log) s).
Proof.
  intros Hfail. unfold enrichEventFromProc.
  set (pid := uint32 (proc_Pid proc)) in *.
  unfold bind at 1 2. unfold call at 1, ret at 1.
  destruct (Readlink env pid) as [pathnameStr | err] eqn:Hrl;
    [| exists err, [CallReadlink pid]; reflexivity].
  destruct (bool_decide (pathnameStr = "/ (deleted)")) eqn:Hdel;
    [eexists _, [CallReadlink pid]; reflexivity |].
  apply bool_decide_eq_false in Hdel.
  unfold bind at 1 2. unfold call at 1, ret at 1.
  destruct (Stat env pid) as [err | | inode] eqn:Hst;
    [ exists err, [CallReadlink pid; CallStat pid]
    | eexists _, [CallReadlink pid; CallStat pid] | ];
    [ unfold ret; exec; rewrite <- app_assoc; reflexivity ..| ].
  unfold bind at 1.
  destruct (classic_missing inode) as [Hmiss | [data [info [Hk Hdec]]]].
  - destruct (retrieveInodeInfo_missing inode
                (set_calls (calls (set_calls (calls s ++ [CallReadlink pid]) s)
                            ++ [CallStat pid])
                   (set_calls (calls s ++ [CallReadlink pid]) s)) Hmiss)
      as [err Hri].
    rewrite Hri.
    exists err, [CallReadlink pid; CallStat pid;
                 CallLookupBytes inode_info_cache (inode_key env inode)].
    unfold ret. exec. rewrite <- !app_assoc. reflexivity.
  - rewrite (retrieveInodeInfo_found inode data info 8 _ Hk Hdec).
    unfold bind at 1 2. unfold call at 1, ret at 1.
    destruct (GetContainerID env pid) as [containerID | err] eqn:Hcid.
    + exfalso.
      destruct Hfail as [err Hf | Hf | Hf | ino Hf Hm | err Hf]; fold pid in Hf.
      * congruence.
      * congruence.
      * exact (Hf inode Hst).
      * assert (ino = inode) by congruence. subst ino.
        unfold inode_info_missing in Hm. rewrite Hk in Hm.
        rewrite InodeInfo_UnmarshalBinary_short in Hdec by exact Hm. discriminate.
      * congruence.
    + exists err, [CallReadlink pid; CallStat pid;
                   CallLookupBytes inode_info_cache (inode_key env inode);
                   CallGetContainerID pid].
      unfold ret. exec. rewrite <- !app_assoc. reflexivity.
Qed.

(** A complete enrichment: the five calls, one write to the entry. *)
Lemma enrichEventFromProc_ok (proc : FilledProcess) (entry : addr)
    (e : ProcessCacheEntry) (s : State) (pathnameStr : string) (inode : Z)
    (info : InodeInfo.t) (containerID : string) :
  enrich_ok env proc pathnameStr inode info containerID ->
  heap s !! entry = Some e ->
  enrichEventFromProc env entry proc s
  = Returns None
      (mkState (mu s) (entryCache s)
         (<[entry := fill env proc pathnameStr inode info containerID
                       (PidTTY env (uint32 (proc_Pid proc))) e]> (heap s))
         (calls s ++ enrich_calls env (uint32 (proc_Pid proc)) inode)).
Proof.
  intros (Hrl & Hdel & Hst & (data & Hk & Hdec) & Hcid) He.
  unfold enrichEventFromProc, enrich_calls.
  set (pid := uint32 (proc_Pid proc)) in *.
  apply (bool_decide_eq_false_2 (pathnameStr = "/ (deleted)")) in Hdel.
  unfold bind at 1 2. unfold call at 1, ret at 1. rewrite Hrl, Hdel.
  unfold bind at 1 2. unfold call at 1, ret at 1. rewrite Hst.
  unfold bind at 1. rewrite (retrieveInodeInfo_found inode data info 8 _ Hk Hdec).
  unfold bind at 1 2. unfold call at 1, ret at 1. rewrite Hcid.
  unfold_ops. run_by ltac:(rewrite ?He).
  rewrite <- !app_assoc. reflexivity.
Qed.

(** [SyncCache] on a pid that is cached with a non-zero exec timestamp:
    "no change", and not a single call leaves the resolver. *)
Lemma SyncCache_resolved (proc : FilledProcess) (s : State) (a : addr)
    (e : ProcessCacheEntry) :
  mu s = Unlocked ->
  entryCache s !! uint32 (proc_Pid proc) = Some a ->
  heap s !! a = Some e ->
  IsZero (ExecTimestamp e) = false ->
  SyncCache env proc s = Returns false s.
Proof.
  intros Hmu Hc He Hts. unfold SyncCache.
  destruct (uint32 (proc_Pid proc) =? 0); [reflexivity |].
  unfold bind at 1. unfold Lock at 1. rewrite Hmu.
  unfold bind at 1. unfold gets at 1. exec. rewrite Hc.
  unfold bind at 1. unfold load at 1. exec. rewrite He, Hts.
  unfold_ops. exec.
  destruct s as [m c h l]. cbn in Hmu. subst m. reflexivity.
Qed.

(** [SyncCache] when the enrichment fails on a cached pid: "no change",
    and the state differs in the log of calls only. *)
Lemma SyncCache_enrich_fails (proc : FilledProcess) (s : State) (a : addr)
    (e : ProcessCacheEntry) :
  enrich_fails env proc ->
  mu s = Unlocked ->
  entryCache s !! uint32 (proc_Pid proc) = Some a ->
  heap s !! a = Some e ->
  exists log, SyncCache env proc s = Returns false (set_calls (calls s ++ log) s).
Proof.
  intros Hfail Hmu Hc He.
  assert (Hs : forall l, mkState Unlocked (entryCache s) (heap s) l = set_calls l s).
  { intros l. destruct s as [m c h l0]. cbn in Hmu. subst m. reflexivity. }
  destruct (IsZero (ExecTimestamp e)) eqn:Hts.
  - unfold SyncCache.
    destruct (uint32 (proc_Pid proc) =? 0).
    { exists []. rewrite app_nil_r, <- Hs.
      destruct s as [m c h l0]. cbn in Hmu. subst m. reflexivity. }
    unfold bind at 1. unfold Lock at 1. rewrite Hmu.
    unfold bind at 1. unfold gets at 1. exec. rewrite Hc.
    unfold bind at 1. unfold load at 1. exec. rewrite He, Hts. cbn [negb].
    unfold bind at 1.
    destruct (enrichEventFromProc_fails proc a (set_mu WLocked s) Hfail)
      as (err & log & Hrun).
    rewrite Hrun. exists log. unfold_ops. exec. apply f_equal. apply Hs.
  - exists []. rewrite (SyncCache_resolved proc s a e Hmu Hc He Hts).
    rewrite app_nil_r, <- Hs.
    destruct s as [m c h l0]. cbn in Hmu. subst m. reflexivity.
Qed.

(** The tail of [SyncCache] once the entry to fill is known: enrich it
    under the lock, release the lock, insert. *)
Lemma SyncCache_tail (proc : FilledProcess) (s : State) (entry : addr)
    (e0 : ProcessCacheEntry) (pathnameStr : string) (inode : Z)
    (info : InodeInfo.t) (containerID : string) :
  let pid := uint32 (proc_Pid proc) in
  let filled := fill env proc pathnameStr inode info containerID (PidTTY env pid) e0 in
  enrich_ok env proc pathnameStr inode info containerID ->
  mu s = WLocked ->
  heap s !! entry = Some e0 ->
  cache_wf s ->
  exists s' e',
    (let* err := enrichEventFromProc env entry proc in
     match err with
     | Some _ => Unlock >> ret false
     | None => Unlock >> insertEntry pid entry >> ret true
     end) s = Returns true s'
    /\ mu s' = Unlocked
    /\ calls s' = calls s ++ enrich_calls env pid inode
    /\ entryCache s' !! pid = Some entry
    /\ heap s' !! entry = Some e'
    /\ data_of e' = data_of filled.
Proof.
  intros pid filled Hok Hmu He Hwf.
  assert (Hlt : (entry < length (heap s))%nat) by (eapply lookup_lt_Some; eauto).
  destruct (insertEntry_total
              (mkState Unlocked (entryCache s) (<[entry := filled]> (heap s))
                 (calls s ++ enrich_calls env pid inode))
              pid entry filled)
    as (s' & e' & Hrun & Hmu' & Hcalls & Hc' & He' & Hdata & _).
  { reflexivity. }
  { cbn [heap]. apply list_lookup_insert_eq. exact Hlt. }
  { intros k a. cbn [entryCache heap]. rewrite length_insert. apply Hwf. }
  exists s', e'.
  split; [| split; [exact Hmu' | split; [exact Hcalls | split; [exact Hc' | split; [exact He' | exact Hdata]]]]].
  unfold bind at 1.
  rewrite (enrichEventFromProc_ok proc entry e0 s pathnameStr inode info containerID Hok He).
  unfold bind at 1. unfold Unlock at 1. exec. rewrite Hmu.
  unfold bind at 1. fold pid. fold filled. unfold set_mu. exec. rewrite Hrun. reflexivity.
Qed.

(** [SyncCache] of pid 0 returns false at once: before the lock, the cache
    and /proc are looked at, so in every state and whatever the
    environment answers. *)
Lemma SyncCache_pid_0 (proc : FilledProcess) (s : State) :
  uint32 (proc_Pid proc) = 0 ->
  SyncCache env proc s = Returns false s.
Proof. intros Hpid. unfold SyncCache. rewrite Hpid. reflexivity. Qed.

(** C9, as amended: [SyncCache] says "no change", with no call leaving the
    resolver, for a process that is cached with a non-zero exec timestamp;
    for a process of non-zero pid that is not fully resolved and whose
    enrichment succeeds, it makes the calls of the enrichment, returns
    true, and leaves under the pid an entry with the enriched data: the
    entry that was cached there, or a fresh one. For pid 0 it returns false
    at once in the state it was called in, whatever that state is (the lock
    may be held, the pid cached or not) and whatever /proc and the kernel
    tables would answer: nothing is enriched and nothing inserted. *)
Theorem SyncCache_spec (proc : FilledProcess) (s : State) :
  let pid := uint32 (proc_Pid proc) in
  (pid = 0 -> SyncCache env proc s = Returns false s)
  /\
  (mu s = Unlocked ->
   forall a e,
      entryCache s !! pid = Some a ->
      heap s !! a = Some e ->
      IsZero (ExecTimestamp e) = false ->
      SyncCache env proc s = Returns false s)
  /\
  (mu s = Unlocked ->
   forall pathnameStr inode info containerID,
      pid ≠ 0 ->
      cache_wf s ->
      not_resolved s pid ->
      enrich_ok env proc pathnameStr inode info containerID ->
      exists s' entry e0 e',
        SyncCache env proc s = Returns true s'
        /\ mu s' = Unlocked
        /\ calls s' = calls s ++ enrich_calls env pid inode
        /\ entryCache s' !! pid = Some entry
        /\ heap s' !! entry = Some e'
        /\ data_of e'
           = data_of (fill env proc pathnameStr inode info containerID
                        (PidTTY env pid) e0)
        /\ ExecTimestamp e' ≠ TimeZero
        /\ match entryCache s !! pid with
           | Some a => entry = a /\ heap s !! a = Some e0
           | None => entry = length (heap s) /\ e0 = zeroEntry
           end).
Proof.
  intros pid. split; [exact (SyncCache_pid_0 proc s) | split].
  - intros Hmu a e Hc He Hts. exact (SyncCache_resolved proc s a e Hmu Hc He Hts).
  - intros Hmu pathnameStr inode info containerID Hpid Hwf Hnr Hok.
    assert (Hts : forall e0 e',
               data_of e' = data_of (fill env proc pathnameStr inode info containerID
                                       (PidTTY env pid) e0) ->
               ExecTimestamp e' ≠ TimeZero).
    { intros e0 e' Hd. apply (f_equal ExecTimestamp) in Hd. revert Hd.
      unfold fill. destruct (proc_Uids proc), (proc_Gids proc); cbn; congruence. }
    assert (Hnz : (pid =? 0) = false) by (apply Z.eqb_neq; exact Hpid).
    unfold not_resolved in Hnr. unfold SyncCache. fold pid. rewrite Hnz.
    unfold bind at 1. unfold Lock at 1. rewrite Hmu.
    unfold bind at 1. unfold gets at 1. exec.
    destruct (entryCache s !! pid) as [a |] eqn:Hc.
    + destruct Hnr as (e0 & He0 & Hzero).
      unfold bind at 1. unfold load at 1. exec. rewrite He0, Hzero. cbn [negb].
      destruct (SyncCache_tail proc (set_mu WLocked s) a e0 pathnameStr inode info
                  containerID Hok eq_refl He0 Hwf)
        as (s' & e' & Hrun & Hmu' & Hcalls & Hc' & He' & Hdata).
      exists s', a, e0, e'.
      split; [exact Hrun | split; [exact Hmu' | split; [exact Hcalls |]]].
      split; [exact Hc' | split; [exact He' | split; [exact Hdata |]]].
      split; [exact (Hts e0 e' Hdata) | split; reflexivity].
    + unfold bind at 1. unfold alloc at 1. exec.
      destruct (SyncCache_tail proc
                  (set_heap (heap s ++ [zeroEntry]) (set_mu WLocked s))
                  (length (heap s)) zeroEntry pathnameStr inode info containerID Hok)
        as (s' & e' & Hrun & Hmu' & Hcalls & Hc' & He' & Hdata).
      { reflexivity. }
      { cbn [heap set_heap set_mu]. apply list_lookup_middle. reflexivity. }
      { intros k a Hk. cbn [heap set_heap set_mu entryCache] in *.
        rewrite length_app. specialize (Hwf _ _ Hk). lia. }
      exists s', (length (heap s)), zeroEntry, e'.
      split; [exact Hrun | split; [exact Hmu' | split; [exact Hcalls |]]].
      split; [exact Hc' | split; [exact He' | split; [exact Hdata |]]].
      split; [exact (Hts zeroEntry e' Hdata) | split; reflexivity].
Qed.

(** C10: the enrichment is all or nothing. When one of its steps fails,
    [enrichEventFromProc] returns an error and leaves the entry it was
    given, and every other entry, as it found them (the state differs in
    the log of calls only); and a [SyncCache] pass over a pid whose entry
    is cached then returns false and leaves the cache, the lock and every
    entry as it found them. *)
Theorem enrichment_all_or_nothing (proc : FilledProcess) :
  enrich_fails env proc ->
  (forall entry s,
      exists err log,
        enrichEventFromProc env entry proc s
        = Returns (Some err) (set_calls (calls s ++ log) s))
  /\
  (forall s a e,
      mu s = Unlocked ->
      entryCache s !! uint32 (proc_Pid proc) = Some a ->
      heap s !! a = Some e ->
      exists log s',
        SyncCache env proc s = Returns false s'
        /\ s' = set_calls (calls s ++ log) s
        /\ heap s' !! a = Some e
        /\ entryCache s' = entryCache s).
Proof.
  intros Hfail. split.
  - intros entry s. apply enrichEventFromProc_fails. exact Hfail.
  - intros s a e Hmu Hc He.
    destruct (SyncCache_enrich_fails proc s a e Hfail Hmu Hc He) as [log Hrun].
    exists log, (set_calls (calls s ++ log) s).
    split; [exact Hrun | split; [reflexivity | split; [exact He | reflexivity]]].
Qed.

Lemma retrieveInodeInfo_frame (inode : Z) (s : State) (ri : GoErr InodeInfo.t)
    (s1 : State) :
  retrieveInodeInfo env inode s = Returns ri s1 ->
  mu s1 = mu s /\ entryCache s1 = entryCache s /\ heap s1 = heap s.
Proof.
  unfold retrieveInodeInfo, lookupBytes.
  unfold bind at 1 2. unfold call at 1, ret at 1.
  destruct (LookupBytes env inode_info_cache _) as [err | | data];
    [intros [= _ <-]; auto .. |].
  unfold bind at 1. unfold run at 1.
  destruct (InodeInfo.UnmarshalBinary (ByteOrder env) InodeInfo.zero data)
    as [[[info n] [err |]] |]; [intros [= _ <-]; auto .. | discriminate].
Qed.

(** Whatever the enrichment does, it touches the entry it was given and
    nothing else (and not even that when it fails). *)
Lemma enrichEventFromProc_frame (proc : FilledProcess) (entry : addr) (s : State)
    (r : option error) (s' : State) :
  enrichEventFromProc env entry proc s = Returns r s' ->
  mu s' = mu s
  /\ entryCache s' = entryCache s
  /\ length (heap s') = length (heap s)
  /\ (forall a, a ≠ entry -> heap s' !! a = heap s !! a)
  /\ (r ≠ None -> heap s' = heap s).
Proof.
  unfold enrichEventFromProc.
  unfold bind at 1 2. unfold call at 1, ret at 1.
  destruct (Readlink env _) as [pathnameStr | err];
    [| intros [= _ <-]; cbn; auto 10].
  destruct (bool_decide (pathnameStr = "/ (deleted)"));
    [intros [= _ <-]; cbn; auto 10 |].
  unfold bind at 1 2. unfold call at 1, ret at 1.
  destruct (Stat env _) as [err | | inode];
    [intros [= _ <-]; cbn; auto 10 .. |].
  unfold bind at 1.
  destruct (retrieveInodeInfo env inode _) as [ri s1 | |] eqn:Hri; try discriminate.
  apply retrieveInodeInfo_frame in Hri. cbn [mu entryCache heap set_calls] in Hri.
  destruct Hri as (Hm1 & Hc1 & Hh1). rewrite <- Hm1, <- Hc1, <- Hh1.
  destruct ri as [info | err]; [| intros [= _ <-]; auto 10].
  unfold bind at 1 2. unfold call at 1, ret at 1.
  destruct (GetContainerID env _) as [containerID | err];
    [| intros [= _ <-]; cbn; auto 10].
  unfold_ops. exec.
  destruct (heap s1 !! entry) as [e |] eqn:He; [| discriminate].
  exec. rewrite He. intros [= <- <-]. cbn [mu entryCache heap].
  split; [reflexivity | split; [reflexivity | split; [apply length_insert |]]].
  split; [| congruence].
  intros a Ha. apply list_lookup_insert_ne. congruence.
Qed.

(** [SyncCache] keeps the lineage invariant: it never runs for pid 0, and
    the entry it rewrites is linked again by the insert that follows. *)
Lemma SyncCache_preserves_inv (proc : FilledProcess) (s : State) (b : bool)
    (s' : State) :
  SyncCache env proc s = Returns b s' ->
  lineage_inv s ->
  lineage_inv s'.
Proof.
  intros Hrun Hinv. revert Hrun. unfold SyncCache.
  set (pid := uint32 (proc_Pid proc)).
  destruct (Z.eqb_spec pid 0) as [Hz | Hnz]; [intros [= _ <-]; exact Hinv |].
  unfold bind at 1. unfold Lock at 1.
  destruct (mu s) eqn:Hmu; try discriminate.
  unfold bind at 1. unfold gets at 1. exec.
  assert (Htail : forall entry s0,
    mu s0 = WLocked ->
    entryCache s0 = entryCache s ->
    (length (heap s) <= length (heap s0))%nat ->
    (forall a, (a < length (heap s))%nat -> Some a ≠ Some entry ->
               heap s0 !! a = heap s !! a) ->
    (forall a, (a < length (heap s))%nat -> a ≠ entry ->
               heap s0 !! a = heap s !! a) ->
    (entry < length (heap s0))%nat ->
    (heap s0 = heap s \/ (length (heap s) <= entry)%nat) ->
    (let* err := enrichEventFromProc env entry proc in
     match err with
     | Some _ => Unlock >> ret false
     | None => Unlock >> insertEntry pid entry >> ret true
     end) s0 = Returns b s' ->
    lineage_inv s').
  { intros entry s0 Hmu0 Hc0 Hlen0 Hh0 Hh0' Hentry Hfresh.
    unfold bind at 1.
    destruct (enrichEventFromProc env entry proc s0) as [r s1 | |] eqn:Hen;
      try discriminate.
    apply enrichEventFromProc_frame in Hen.
    destruct Hen as (Hm1 & Hc1 & Hl1 & Hh1 & Hfail).
    destruct Hinv as (H0 & Hwf & Hold).
    destruct r as [err |].
    - unfold_ops. rewrite Hm1, Hmu0. exec. intros [= _ <-].
      apply (lineage_inv_frame s _); [split; [| split]; assumption | | |];
        cbn [entryCache heap set_mu].
      + congruence.
      + lia.
      + intros a Ha. rewrite (Hfail ltac:(discriminate)).
        destruct Hfresh as [-> | Hge]; [reflexivity |].
        apply Hh0'; [exact Ha | lia].
    - unfold bind at 1. unfold Unlock at 1. rewrite Hm1, Hmu0.
      unfold bind at 1.
      destruct (insertEntry pid entry (set_mu Unlocked s1)) as [[] s2 | |] eqn:Hins;
        try discriminate.
      unfold ret. intros [= _ <-].
      apply (insertEntry_establishes_inv _ _ _ _ Hins Hnz); cbn [entryCache heap set_mu].
      + congruence.
      + intros k a. cbn [entryCache heap set_mu]. rewrite Hc1, Hc0, Hl1.
        intros Hk. specialize (Hwf _ _ Hk). lia.
      + apply (orphans_unlinked_frame (Some entry) s); [exact Hwf | exact Hold | | ];
          cbn [entryCache heap set_mu].
        * congruence.
        * intros a Ha Hne. rewrite Hh1 by congruence. apply Hh0; assumption. }
  destruct (entryCache s !! pid) as [entry |] eqn:Hc.
  - unfold bind at 1. unfold load at 1. exec.
    destruct (heap s !! entry) as [e |] eqn:He; [| discriminate].
    destruct (negb (IsZero (ExecTimestamp e))).
    + unfold_ops. exec. intros [= _ <-].
      apply (lineage_inv_frame s _ Hinv); cbn [entryCache heap set_mu]; auto.
    + apply Htail; cbn [mu entryCache heap set_mu]; auto.
      eapply lookup_lt_Some; eauto.
  - unfold bind at 1. unfold alloc at 1. exec.
    apply Htail; cbn [mu entryCache heap set_mu set_heap].
    + reflexivity.
    + reflexivity.
    + rewrite length_app. lia.
    + intros a Ha _. apply lookup_app_l. exact Ha.
    + intros a Ha _. apply lookup_app_l. exact Ha.
    + rewrite length_app. cbn [length]. lia.
    + right. lia.
Qed.

End Enrichment.

(** ** The operations at concrete inputs *)

(** C1: the child (pid 20, parent pid 10) is inserted first, then the real
    entry of pid 10. The placeholder made for pid 10 (address 2) holds the
    child; the second insert replaces the slot of pid 10 by the new object
    (address 1) and writes nothing into the placeholder: the entry stored
    under pid 10 has an empty child list, and the parent pointer of the
    child still is the placeholder, which no slot holds any more. *)
Theorem AddEntry_real_parent_replaces_slot :
  exists s' child real placeholder,
    (AddEntry 20 0%nat >> AddEntry 10 1%nat) Example.s0 = Returns tt s'
    /\ entryCache s' !! 20 = Some 0%nat
    /\ entryCache s' !! 10 = Some 1%nat
    /\ heap s' !! 0%nat = Some child
    /\ heap s' !! 1%nat = Some real
    /\ heap s' !! 2%nat = Some placeholder
    /\ Children real = []
    /\ Parent child = Some 2%nat
    /\ Children placeholder = [0%nat]
    /\ (forall pid, entryCache s' !! pid ≠ Some 2%nat).
Proof.
  exists (mkState Unlocked
            (<[10 := 1%nat]> (<[1 := 3%nat]> (<[20 := 0%nat]> (<[10 := 2%nat]> ∅))))
            [set_Parent (Some 2%nat) Example.e20;
             set_Parent (Some 3%nat) Example.e10;
             set_Children [0%nat] (set_Pid 10 zeroEntry);
             set_Children [1%nat] (set_Pid 1 zeroEntry)]
            []).
  eexists _, _, _.
  split; [vm_compute; reflexivity |].
  repeat (split; [vm_compute; reflexivity |]).
  intros pid. cbn [entryCache].
  rewrite !lookup_insert, lookup_empty.
  repeat case_decide; congruence.
Qed.

(** C2: pid 42 is absent from a fresh cache and present in both kernel
    tables, with a payload of 212 bytes that decodes; [Resolve] neither
    returns an entry nor stores one: it ends blocked on the write lock it
    holds, with the cache still empty. *)
Theorem Resolve_fallback_blocks_at_pid_42 :
  entryCache NewProcessResolver !! 42 = None
  /\ kernel_hit Example.env 42 Example.cookie42
       (Example.record42 ++ Example.cookie42) (set_PPid 1 zeroEntry) 200
  /\ (exists s',
        Resolve Example.env 42 NewProcessResolver = Blocks s'
        /\ mu s' = WLocked
        /\ entryCache s' = ∅)
  /\ (forall r s', Resolve Example.env 42 NewProcessResolver ≠ Returns r s').
Proof.
  split; [reflexivity |]. split.
  - exists Example.record42.
    split; [vm_compute; reflexivity |].
    split; [apply Nat.leb_le; vm_compute; reflexivity |].
    split; [vm_compute; reflexivity |].
    split; [reflexivity |].
    split; [apply Nat.leb_le; vm_compute; reflexivity |].
    split; [reflexivity |].
    split; [lia | vm_compute; discriminate].
  - assert (Hrun : exists s', Resolve Example.env 42 NewProcessResolver = Blocks s'
                              /\ mu s' = WLocked /\ entryCache s' = ∅).
    { eexists. split; [vm_compute; reflexivity |]. split; reflexivity. }
    split; [exact Hrun |].
    destruct Hrun as (s' & Hrun & _). intros r s''. rewrite Hrun. discriminate.
Qed.

(** [Resolve_fallback_self_deadlock] at pid 42 of [Example], on a fresh resolver. *)
Lemma Resolve_fallback_self_deadlock_witness :
  exists s',
    Resolve Example.env 42 NewProcessResolver = Blocks s'
    /\ mu s' = WLocked
    /\ entryCache s' = entryCache NewProcessResolver
    /\ calls s' = calls NewProcessResolver
                  ++ [CallLookupBytes pid_cache (pid_key Example.env 42);
                      CallLookupBytes proc_cache (take 4 Example.cookie42)].
Proof.
  apply (Resolve_fallback_self_deadlock Example.env NewProcessResolver 42
           Example.cookie42 (Example.record42 ++ Example.cookie42)
           (set_PPid 1 zeroEntry) 200).
  - reflexivity.
  - reflexivity.
  - exists Example.record42.
    split; [vm_compute; reflexivity |].
    split; [apply Nat.leb_le; vm_compute; reflexivity |].
    split; [vm_compute; reflexivity |].
    split; [reflexivity |].
    split; [apply Nat.leb_le; vm_compute; reflexivity |].
    split; [reflexivity |].
    split; [lia | vm_compute; discriminate].
Defined.

(** [Resolve_kernel_miss] at pid 43, which the pid table of [Example] does not
    know. *)
Lemma Resolve_kernel_miss_witness :
  exists log,
    Resolve Example.env 43 NewProcessResolver
    = Returns None (set_calls (calls NewProcessResolver ++ log) NewProcessResolver).
Proof.
  apply (Resolve_kernel_miss Example.env NewProcessResolver 43).
  - reflexivity.
  - reflexivity.
  - apply miss_cookie. vm_compute. exact I.
Defined.

(** [DelEntry_frame] on the family of [Example]: pid 10 is evicted, its child
    pid 20 is still served and both objects are as they were. *)
Lemma DelEntry_frame_witness :
  exists s',
    DelEntry 10 Example.s_family = Returns tt s'
    /\ Get 10 s' = Returns None s'
    /\ Get 20 s' = Returns (Some 0%nat) s'
    /\ heap s' !! 0%nat = Some Example.child20
    /\ heap s' !! 1%nat = Some Example.parent10.
Proof.
  destruct (DelEntry_frame Example.s_family 10 1%nat Example.parent10)
    as (s' & Hdel & Hget & _ & Hparent & _ & Hchild & _).
  - reflexivity.
  - reflexivity.
  - reflexivity.
  - destruct (Hchild 20 0%nat Example.child20) as (Hget20 & Hheap & _).
    + discriminate.
    + reflexivity.
    + reflexivity.
    + vm_compute. apply list_elem_of_here.
    + reflexivity.
    + exists s'. repeat split; assumption.
Defined.

(** C9, the claim as stated fails at pid 0: the process is not cached, every
    step of its enrichment would succeed, and yet [SyncCache] returns false,
    with nothing inserted and no call made. *)
Lemma SyncCache_skips_pid_0 :
  not_resolved NewProcessResolver (uint32 (proc_Pid Example.proc0))
  /\ enrich_ok Example.env Example.proc0 "/usr/bin/app" 1234 Example.info1234 "c0ffee"
  /\ SyncCache Example.env Example.proc0 NewProcessResolver
     = Returns false NewProcessResolver
  /\ ~ (exists s', SyncCache Example.env Example.proc0 NewProcessResolver
                   = Returns true s').
Proof.
  split; [vm_compute; exact I |]. split.
  - split; [reflexivity |]. split; [discriminate |]. split; [reflexivity |].
    split; [| reflexivity].
    exists Example.inode1234. split; vm_compute; reflexivity.
  - split; [reflexivity |]. intros [s' Hrun]. vm_compute in Hrun. discriminate.
Qed.

(** [SyncCache_spec] on pid 7 of [Example]: cached and resolved, then on a
    fresh resolver; and on pid 0 while the write lock is held. *)
Lemma SyncCache_spec_witness :
  SyncCache Example.env Example.proc7 Example.s_resolved7
  = Returns false Example.s_resolved7
  /\ (exists s' entry e0 e',
        SyncCache Example.env Example.proc7 NewProcessResolver = Returns true s'
        /\ mu s' = Unlocked
        /\ calls s' = calls NewProcessResolver ++ enrich_calls Example.env 7 1234
        /\ entryCache s' !! 7 = Some entry
        /\ heap s' !! entry = Some e'
        /\ data_of e'
           = data_of (fill Example.env Example.proc7 "/usr/bin/app" 1234
                        Example.info1234 "c0ffee" "pts0" e0)
        /\ ExecTimestamp e' ≠ TimeZero
        /\ entry = 0%nat /\ e0 = zeroEntry)
  /\ SyncCache Example.env Example.proc0 (set_mu WLocked Example.s_family)
     = Returns false (set_mu WLocked Example.s_family).
Proof.
  split; [| split].
  - apply (proj1 (proj2 (SyncCache_spec Example.env Example.proc7 Example.s_resolved7))
             eq_refl 0%nat (set_ExecTimestamp (TimeUnix 1) (set_Pid 7 zeroEntry)));
      reflexivity.
  - apply (proj2 (proj2 (SyncCache_spec Example.env Example.proc7 NewProcessResolver))
             eq_refl "/usr/bin/app" 1234 Example.info1234 "c0ffee").
    + vm_compute. discriminate.
    + intros k a Hk. vm_compute in Hk. discriminate.
    + vm_compute. exact I.
    + split; [reflexivity |]. split; [discriminate |]. split; [reflexivity |].
      split; [| reflexivity].
      exists Example.inode1234. split; vm_compute; reflexivity.
  - apply (proj1 (SyncCache_spec Example.env Example.proc0
                    (set_mu WLocked Example.s_family))).
    reflexivity.
Defined.

(** [enrichment_all_or_nothing] on pid 9 of [Example], whose exec link is
    unreadable, with a placeholder cached under pid 9. *)
Lemma enrichment_all_or_nothing_witness :
  (exists err log,
     enrichEventFromProc Example.env 0%nat Example.proc9 Example.s_placeholder9
     = Returns (Some err)
         (set_calls (calls Example.s_placeholder9 ++ log) Example.s_placeholder9))
  /\ exists log s',
       SyncCache Example.env Example.proc9 Example.s_placeholder9 = Returns false s'
       /\ s' = set_calls (calls Example.s_placeholder9 ++ log) Example.s_placeholder9
       /\ heap s' !! 0%nat = Some (set_Children [5%nat] (set_Pid 9 zeroEntry))
       /\ entryCache s' = entryCache Example.s_placeholder9.
Proof.
  assert (Hfail : enrich_fails Example.env Example.proc9).
  { apply (fail_readlink Example.env Example.proc9 (ErrExternal 2)). reflexivity. }
  split.
  - apply (proj1 (enrichment_all_or_nothing Example.env Example.proc9 Hfail)).
  - apply (proj2 (enrichment_all_or_nothing Example.env Example.proc9 Hfail));
      reflexivity.
Defined.

(** ** Lineage over sequences of operations *)

Section Lineage.

Variable env : Env.

Lemma step_preserves_inv (op : Op) (s s' : State) :
  ~ inserts_under_pid_0 op ->
  lineage_inv s ->
  step env op s = Returns tt s' ->
  lineage_inv s'.
Proof.
  intros Hop Hinv. destruct op as [e | pid entry | pid | pid | pid | proc];
    cbn [step inserts_under_pid_0] in *.
  - unfold_ops. exec. intros [= <-].
    apply (lineage_inv_frame s _ Hinv); cbn [entryCache heap set_heap set_mu].
    + reflexivity.
    + rewrite length_app. lia.
    + intros a Ha. apply lookup_app_l. exact Ha.
  - intros Hrun. destruct Hinv as (H0 & Hwf & Hold).
    apply (insertEntry_establishes_inv s pid entry s' Hrun Hop H0 Hwf).
    intros k a x Hk _. apply (Hold k a x Hk). discriminate.
  - unfold DelEntry. unfold_ops.
    destruct (mu s); try discriminate. exec. intros [= <-].
    destruct Hinv as (H0 & Hwf & Hold). split; [| split].
    + cbn [entryCache set_entryCache set_mu]. rewrite lookup_delete.
      case_decide; [reflexivity | exact H0].
    + intros k a. cbn [entryCache heap set_entryCache set_mu]. intros Hk.
      apply lookup_delete_Some in Hk as [_ Hk]. exact (Hwf _ _ Hk).
    + intros k a x. cbn [entryCache heap set_entryCache set_mu].
      intros Hk Hex Hx Hzero.
      apply lookup_delete_Some in Hk as [_ Hk]. exact (Hold k a x Hk Hex Hx Hzero).
  - unfold bind at 1.
    destruct (Get pid s) as [r s1 | |] eqn:Hget; try discriminate.
    apply Get_returns_frame in Hget as [Hc Hh]. unfold ret. intros [= <-].
    apply (lineage_inv_frame s _ Hinv); [exact Hc | rewrite Hh; lia |].
    intros a _. rewrite Hh. reflexivity.
  - unfold bind at 1.
    destruct (Resolve env pid s) as [r s1 | |] eqn:Hres; try discriminate.
    apply Resolve_returns_frame in Hres as [Hc Hh]. unfold ret. intros [= <-].
    apply (lineage_inv_frame s _ Hinv); [exact Hc | rewrite Hh; lia |].
    intros a _. rewrite Hh. reflexivity.
  - unfold bind at 1.
    destruct (SyncCache env proc s) as [b s1 | |] eqn:Hsync; try discriminate.
    unfold ret. intros [= <-].
    exact (SyncCache_preserves_inv env proc s b s1 Hsync Hinv).
Qed.

(** C7, as amended: [insertEntry] makes no placeholder for an entry whose
    parent pid is below 1, and the parent pointer it gives such an entry is
    whatever the cache holds under that pid (nil when it holds nothing
    there). So, starting from a cache that satisfies the invariant (an
    empty one does) and never storing an entry under pid 0, every sequence
    of operations that runs to its end leaves every cached entry whose
    parent pid is zero without a parent pointer. *)
Theorem orphans_stay_unlinked :
  (forall s pid entry e s',
      heap s !! entry = Some e ->
      PPid e < 1 ->
      insertEntry pid entry s = Returns tt s' ->
      length (heap s') = length (heap s)
      /\ exists e', heap s' !! entry = Some e'
                    /\ Parent e' = entryCache s !! PPid e)
  /\ lineage_inv NewProcessResolver
  /\ (forall ops s s',
        lineage_inv s ->
        Forall (fun op => ~ inserts_under_pid_0 op) ops ->
        steps env ops s = Returns tt s' ->
        lineage_inv s').
Proof.
  split; [| split].
  - intros s pid entry e s' He Hlt Hrun.
    destruct (insertEntry_returns_inv s pid entry s' Hrun) as (Hmu & e0 & He0 & Halloc).
    assert (e0 = e) by congruence. subst e0.
    assert (Hlen : (entry < length (heap s))%nat) by (eapply lookup_lt_Some; eauto).
    destruct (entryCache s !! PPid e) as [parent |] eqn:Hc.
    + destruct (Halloc parent eq_refl) as [p Hp].
      destruct (insertEntry_parent_cached s pid entry e parent p Hmu He Hc Hp)
        as (e1 & He1 & Hrun').
      rewrite Hrun' in Hrun. injection Hrun as <-. cbn [heap].
      split; [rewrite !length_insert; reflexivity |].
      eexists. split; [apply list_lookup_insert_eq; rewrite length_insert; exact Hlen |].
      reflexivity.
    + rewrite (insertEntry_orphan s pid entry e Hmu He Hc Hlt) in Hrun.
      injection Hrun as <-. cbn [heap].
      split; [apply length_insert |].
      eexists. split; [apply list_lookup_insert_eq; exact Hlen | reflexivity].
  - split; [reflexivity | split].
    + intros k a Hk. cbn in Hk. rewrite lookup_empty in Hk. discriminate.
    + intros k a x Hk. cbn in Hk. rewrite lookup_empty in Hk. discriminate.
  - intros ops. induction ops as [| op ops IH]; intros s s' Hinv Hops.
    + cbn [steps]. unfold ret. intros [= <-]. exact Hinv.
    + cbn [steps]. unfold bind at 1.
      destruct (step env op s) as [[] s1 | |] eqn:Hstep; try discriminate.
      inversion Hops as [| ? ? Hop Hops']; subst.
      apply IH; [| exact Hops'].
      exact (step_preserves_inv op s s1 Hop Hinv Hstep).
Qed.

End Lineage.

(** C4, the claim as stated fails, both ways of reading "the same entry".
    The same object (pid 20, parent pid 10) inserted twice: after the first
    insert the placeholder of pid 10 (address 2) has the entry once in its
    child list, after the second one twice, and the two states differ. Two
    objects with the same data (addresses 0 and 1) inserted one after the
    other: the slot of pid 20 goes from the first object to the second, and
    the placeholder of pid 10 ends with both as children. *)
Lemma AddEntry_twice_duplicates_child :
  (exists s1 s2,
     AddEntry 20 0%nat Example.s0 = Returns tt s1
     /\ AddEntry 20 0%nat s1 = Returns tt s2
     /\ s2 ≠ s1
     /\ Children <$> heap s1 !! 2%nat = Some [0%nat]
     /\ Children <$> heap s2 !! 2%nat = Some [0%nat; 0%nat])
  /\ (exists s1 s2,
        heap Example.s_twins !! 0%nat = heap Example.s_twins !! 1%nat
        /\ AddEntry 20 0%nat Example.s_twins = Returns tt s1
        /\ AddEntry 20 1%nat s1 = Returns tt s2
        /\ entryCache s1 !! 20 = Some 0%nat
        /\ entryCache s2 !! 20 = Some 1%nat
        /\ Children <$> heap s1 !! 2%nat = Some [0%nat]
        /\ Children <$> heap s2 !! 2%nat = Some [0%nat; 1%nat]).
Proof.
  split.
  - eexists _, _.
    split; [vm_compute; reflexivity |].
    split; [vm_compute; reflexivity |].
    split; [| split; vm_compute; reflexivity].
    intros Heq. apply (f_equal heap) in Heq. vm_compute in Heq. discriminate.
  - eexists _, _.
    split; [reflexivity |].
    split; [vm_compute; reflexivity |].
    split; [vm_compute; reflexivity |].
    repeat split; vm_compute; reflexivity.
Qed.

(** [insertEntry_twice] on the two objects of pid 20 of [Example.s_twins]:
    the first object is inserted, and then the same object again, or the
    second one. *)
Lemma insertEntry_twice_witness :
  exists s1,
    insertEntry 20 0%nat Example.s_twins = Returns tt s1
    /\ entryCache s1 !! 20 = Some 0%nat
    /\ exists parent p,
         entryCache s1 !! 10 = Some parent
         /\ heap s1 !! parent = Some p
         /\ last (Children p) = Some 0%nat
         /\ insertEntry 20 0%nat s1
            = Returns tt
                (set_heap
                   (<[parent := set_Children (Children p ++ [0%nat]) p]> (heap s1))
                   s1)
         /\ insertEntry 20 1%nat s1
            = Returns tt
                (mkState Unlocked (<[20 := 1%nat]> (entryCache s1))
                   (<[1%nat := set_Parent (Some parent) Example.e20]>
                      (<[parent := set_Children (Children p ++ [1%nat]) p]>
                         (heap s1)))
                   (calls s1)).
Proof.
  destruct (insertEntry_twice Example.s_twins 20 0%nat Example.e20)
    as (s1 & Hrun & Hslot & Hsecond).
  - reflexivity.
  - reflexivity.
  - intros k a Hk. vm_compute in Hk. discriminate.
  - vm_compute. discriminate.
  - exists s1. split; [exact Hrun | split; [exact Hslot |]].
    change (PPid Example.e20) with 10 in Hsecond.
    destruct (entryCache s1 !! 10) as [parent |] eqn:Hc.
    + destruct Hsecond as (p & Hp & _ & Hlast & Hsame & Hother).
      exists parent, p.
      split; [reflexivity | split; [exact Hp | split; [exact Hlast |]]].
      split; [exact Hsame |].
      apply (Hother 1%nat Example.e20);
        [discriminate | reflexivity | reflexivity | vm_compute; discriminate].
    + exfalso. vm_compute in Hrun. injection Hrun as <-.
      vm_compute in Hc. discriminate.
Defined.

(** C7, the claim as stated fails: the entry of pid 0 is stored first, then
    an entry of pid 1 whose parent pid is 0; the second insert finds the
    first entry under pid 0 and links it, so an entry with parent pid zero
    ends with a parent pointer. *)
Lemma AddEntry_links_parent_pid_0 :
  exists s' e',
    (AddEntry 0 0%nat >> AddEntry 1 1%nat) Example.s_boot = Returns tt s'
    /\ entryCache s' !! 1 = Some 1%nat
    /\ heap s' !! 1%nat = Some e'
    /\ PPid e' = 0
    /\ Parent e' = Some 0%nat.
Proof.
  eexists _, _.
  split; [vm_compute; reflexivity |].
  repeat split; vm_compute; reflexivity.
Qed.

(** [orphans_stay_unlinked] on a run of five operations from [Example]. *)
Lemma orphans_stay_unlinked_witness :
  exists s',
    steps Example.env
      [OpAddEntry 20 0%nat; OpAddEntry 10 1%nat; OpSyncCache Example.proc7;
       OpDelEntry 20; OpResolve 43]
      Example.s0
    = Returns tt s'
    /\ lineage_inv s'.
Proof.
  eexists. split; [vm_compute; reflexivity |].
  apply (proj2 (proj2 (orphans_stay_unlinked Example.env))
           [OpAddEntry 20 0%nat; OpAddEntry 10 1%nat; OpSyncCache Example.proc7;
            OpDelEntry 20; OpResolve 43]
           Example.s0).
  - split; [reflexivity | split].
    + intros k a Hk. vm_compute in Hk. discriminate.
    + intros k a x Hk. vm_compute in Hk. discriminate.
  - repeat constructor; cbn; first [discriminate | tauto].
  - vm_compute. reflexivity.
Defined.

(** [InodeInfo_UnmarshalBinary_spec] on a 4-byte buffer and on the 8-byte
    record of inode 1234. *)
Lemma InodeInfo_UnmarshalBinary_spec_witness :
  InodeInfo.UnmarshalBinary binary.LittleEndian InodeInfo.zero
    (take 4 Example.inode1234)
  = Done (InodeInfo.zero, 0, Some ErrNotEnoughData)
  /\ exists b0 b1 b2 b3 b4 b5 b6 b7 rest,
       Example.inode1234 = b0 :: b1 :: b2 :: b3 :: b4 :: b5 :: b6 :: b7 :: rest
       /\ InodeInfo.UnmarshalBinary binary.LittleEndian InodeInfo.zero Example.inode1234
          = Done (InodeInfo.mk (native_value binary.LittleEndian [b0; b1; b2; b3])
                               (int32 (native_value binary.LittleEndian [b4; b5; b6; b7])),
                  8, None).
Proof.
  split.
  - apply (proj1 (InodeInfo_UnmarshalBinary_spec binary.LittleEndian InodeInfo.zero
                    (take 4 Example.inode1234))).
    vm_compute. lia.
  - apply (proj2 (InodeInfo_UnmarshalBinary_spec binary.LittleEndian InodeInfo.zero
                    Example.inode1234)).
    vm_compute. lia.
Defined.

(** The record of inode 1234 decodes to mount id 5 and two lower layers. *)
Example InodeInfo_UnmarshalBinary_inode1234 :
  InodeInfo.UnmarshalBinary binary.LittleEndian InodeInfo.zero Example.inode1234
  = Done (Example.info1234, 8, None).
Proof. vm_compute. reflexivity. Qed.

(** The path that keeps the lineage: the child (pid 20, parent pid 10) is
    inserted first, then [SyncCache] finds the placeholder of pid 10, fills
    it where it is and inserts the same object again. The slot of pid 10
    still holds the placeholder's address, its child list still is the child
    once, and the parent pointer of the child is the entry under pid 10. *)
Example SyncCache_fills_placeholder_in_place :
  exists s' child real,
    (AddEntry 20 0%nat >> SyncCache Example.env Example.proc10) Example.s0
    = Returns true s'
    /\ entryCache s' !! 10 = Some 2%nat
    /\ heap s' !! 2%nat = Some real
    /\ heap s' !! 0%nat = Some child
    /\ Children real = [0%nat]
    /\ Parent child = Some 2%nat
    /\ ExecTimestamp real = TimeUnix 5000000
    /\ Comm real = "parent".
Proof.
  eexists _, _, _.
  split; [vm_compute; reflexivity |].
  repeat split; vm_compute; reflexivity.
Qed.

(** * Further properties of the process cache *)

Section CacheComposition.

Implicit Types (s : State) (pid : Z) (entry parent : addr)
               (e p : ProcessCacheEntry).

(** The whole effect of a returning [insertEntry]: the slots, the entry
    itself, every other entry, and the placeholder when one is made. *)
Lemma insertEntry_after s pid entry e :
  mu s = Unlocked ->
  heap s !! entry = Some e ->
  cache_wf s ->
  exists s' e',
    insertEntry pid entry s = Returns tt s'
    /\ mu s' = Unlocked
    /\ calls s' = calls s
    /\ entryCache s'
       = <[pid := entry]>
           match entryCache s !! PPid e with
           | Some _ => entryCache s
           | None => if 1 <=? PPid e
                     then <[PPid e := length (heap s)]> (entryCache s)
                     else entryCache s
           end
    /\ heap s' !! entry = Some e'
    /\ data_of e' = data_of e
    /\ Parent e' = match entryCache s !! PPid e with
                   | Some parent => Some parent
                   | None => if 1 <=? PPid e then Some (length (heap s)) else None
                   end
    /\ Children e' = (if decide (entryCache s !! PPid e = Some entry)
                      then Children e ++ [entry] else Children e)
    /\ (forall a x,
          a ≠ entry ->
          heap s !! a = Some x ->
          exists x',
            heap s' !! a = Some x'
            /\ data_of x' = data_of x
            /\ Parent x' = Parent x
            /\ Children x' = (if decide (entryCache s !! PPid e = Some a)
                              then Children x ++ [entry] else Children x))
    /\ (forall a, (length (heap s) <= a)%nat ->
          heap s' !! a
          = match entryCache s !! PPid e with
            | Some _ => None
            | None => if (1 <=? PPid e) && bool_decide (a = length (heap s))
                      then Some (set_Children [entry] (set_Pid (PPid e) zeroEntry))
                      else None
            end).
Proof.
  intros Hmu He Hwf.
  assert (Hlt : (entry < length (heap s))%nat) by (eapply lookup_lt_Some; eauto).
  destruct (entryCache s !! PPid e) as [parent |] eqn:Hc.
  - destruct (lookup_lt_is_Some_2 (heap s) parent (Hwf _ _ Hc)) as [p Hp].
    assert (Hltp : (parent < length (heap s))%nat) by (eapply lookup_lt_Some; eauto).
    destruct (insertEntry_parent_cached s pid entry e parent p Hmu He Hc Hp)
      as (e1 & He1 & Hrun).
    eexists _, (set_Parent (Some parent) e1). split; [exact Hrun |].
    cbn [mu calls entryCache heap].
    split; [reflexivity | split; [reflexivity | split; [reflexivity |]]].
    split; [apply list_lookup_insert_eq; rewrite length_insert; exact Hlt |].
    destruct (decide (parent = entry)) as [-> | Hne].
    + rewrite list_lookup_insert_eq in He1 by exact Hlt. injection He1 as <-.
      assert (p = e) by congruence. subst p.
      split; [reflexivity | split; [reflexivity | split]].
      * rewrite decide_True by reflexivity. reflexivity.
      * split.
        -- intros a x Ha Hx. exists x.
           rewrite !list_lookup_insert_ne by congruence.
           split; [exact Hx | split; [reflexivity | split; [reflexivity |]]].
           rewrite decide_False by congruence. reflexivity.
        -- intros a Ha. apply lookup_ge_None. rewrite !length_insert. exact Ha.
    + rewrite list_lookup_insert_ne in He1 by exact Hne.
      assert (e1 = e) by congruence. subst e1.
      split; [reflexivity | split; [reflexivity | split]].
      * rewrite decide_False by congruence. reflexivity.
      * split.
        -- intros a x Ha Hx. rewrite list_lookup_insert_ne by congruence.
           destruct (decide (a = parent)) as [-> | Hap].
           ++ assert (x = p) by congruence. subst x.
              rewrite list_lookup_insert_eq by exact Hltp.
              eexists. split; [reflexivity |].
              rewrite decide_True by reflexivity.
              split; [reflexivity | split; reflexivity].
           ++ rewrite list_lookup_insert_ne by congruence.
              exists x. rewrite decide_False by congruence.
              split; [exact Hx | split; [reflexivity | split; reflexivity]].
        -- intros a Ha. apply lookup_ge_None. rewrite !length_insert. exact Ha.
  - destruct (Z.leb_spec 1 (PPid e)) as [Hge | Hlt1].
    + eexists _, (set_Parent (Some (length (heap s))) e).
      split; [apply (insertEntry_placeholder s pid entry e); assumption |].
      cbn [mu calls entryCache heap].
      split; [reflexivity | split; [reflexivity | split; [reflexivity |]]].
      split; [apply list_lookup_insert_eq; rewrite length_app; lia |].
      split; [reflexivity | split; [reflexivity | split]].
      * rewrite decide_False by discriminate. reflexivity.
      * split.
        -- intros a x Ha Hx. exists x.
           rewrite list_lookup_insert_ne by congruence.
           rewrite (lookup_app_l_Some _ _ _ _ Hx).
           rewrite decide_False by discriminate.
           split; [reflexivity | split; [reflexivity | split; reflexivity]].
        -- intros a Ha. rewrite list_lookup_insert_ne by lia. cbn [andb].
           case_bool_decide as Hal.
           ++ subst a. apply list_lookup_middle. reflexivity.
           ++ apply lookup_ge_None. rewrite length_app. cbn [length]. lia.
    + eexists _, (set_Parent None e).
      split; [apply (insertEntry_orphan s pid entry e); assumption |].
      cbn [mu calls entryCache heap].
      split; [reflexivity | split; [reflexivity | split; [reflexivity |]]].
      split; [apply list_lookup_insert_eq; exact Hlt |].
      split; [reflexivity | split; [reflexivity | split]].
      * rewrite decide_False by discriminate. reflexivity.
      * split.
        -- intros a x Ha Hx. exists x.
           rewrite list_lookup_insert_ne by congruence.
           rewrite decide_False by discriminate.
           split; [exact Hx | split; [reflexivity | split; reflexivity]].
        -- intros a Ha. cbn [andb]. apply lookup_ge_None. rewrite length_insert. exact Ha.
Qed.

(** Insert, then look up: [Get] returns the very pointer that was inserted,
    and the entry behind it has the data it was inserted with (pid and
    parent pid among them); only its links were written. *)
Theorem AddEntry_then_Get s pid entry e :
  mu s = Unlocked ->
  heap s !! entry = Some e ->
  cache_wf s ->
  exists s1 e',
    AddEntry pid entry s = Returns tt s1
    /\ Get pid s1 = Returns (Some entry) s1
    /\ heap s1 !! entry = Some e'
    /\ data_of e' = data_of e
    /\ Pid e' = Pid e
    /\ PPid e' = PPid e.
Proof.
  intros Hmu He Hwf.
  destruct (insertEntry_after s pid entry e Hmu He Hwf)
    as (s1 & e' & Hrun & Hmu1 & _ & Hcache & He' & Hdata & _).
  exists s1, e'. split; [exact Hrun |].
  split; [| split; [exact He' | split; [exact Hdata | split]]].
  - rewrite (Get_run s1 pid Hmu1), Hcache, lookup_insert_eq. reflexivity.
  - apply (f_equal Pid) in Hdata. exact Hdata.
  - apply (f_equal PPid) in Hdata. exact Hdata.
Qed.

(** An entry is its data and its two links. *)
Lemma entry_ext (x y : ProcessCacheEntry) :
  data_of x = data_of y -> Parent x = Parent y -> Children x = Children y -> x = y.
Proof.
  destruct x, y. unfold data_of, set_Children, set_Parent. cbn.
  intros [= -> -> -> -> -> -> -> -> -> ->] -> ->. reflexivity.
Qed.

(** What an insert leaves alone. No call leaves the resolver. Slots other
    than the pid and the parent pid are untouched, and when the pid is not
    the parent pid a slot that exists under the parent pid is kept. Of the
    entries other than the inserted one, exactly one can change: the entry
    cached under the parent pid gets the inserted entry appended to its
    child list, and nothing else of it changes; every other entry is as it
    was. *)
Theorem insertEntry_frame s pid entry e :
  mu s = Unlocked ->
  heap s !! entry = Some e ->
  cache_wf s ->
  exists s1,
    insertEntry pid entry s = Returns tt s1
    /\ calls s1 = calls s
    /\ (forall k, k ≠ pid -> k ≠ PPid e -> entryCache s1 !! k = entryCache s !! k)
    /\ (forall parent, PPid e ≠ pid -> entryCache s !! PPid e = Some parent ->
                       entryCache s1 !! PPid e = Some parent)
    /\ (forall parent p,
          parent ≠ entry ->
          entryCache s !! PPid e = Some parent ->
          heap s !! parent = Some p ->
          heap s1 !! parent = Some (set_Children (Children p ++ [entry]) p))
    /\ (forall a x,
          a ≠ entry ->
          entryCache s !! PPid e ≠ Some a ->
          heap s !! a = Some x ->
          heap s1 !! a = Some x).
Proof.
  intros Hmu He Hwf.
  destruct (insertEntry_after s pid entry e Hmu He Hwf)
    as (s1 & e' & Hrun & _ & Hcalls & Hcache & _ & _ & _ & _ & Hothers & _).
  exists s1.
  split; [exact Hrun | split; [exact Hcalls | split; [| split; [| split]]]].
  - intros k Hk Hkp. rewrite Hcache, lookup_insert_ne by congruence.
    destruct (entryCache s !! PPid e); [reflexivity |].
    destruct (1 <=? PPid e); [| reflexivity].
    apply lookup_insert_ne. congruence.
  - intros parent Hne Hc. rewrite Hcache, lookup_insert_ne by congruence.
    rewrite Hc. exact Hc.
  - intros parent p Hpe Hc Hp.
    destruct (Hothers parent p Hpe Hp) as (p' & Hp' & Hd & Hpar & Hch).
    rewrite decide_True in Hch by exact Hc.
    rewrite Hp'. f_equal. apply entry_ext; [| exact Hpar | exact Hch].
    rewrite data_of_set_Children. exact Hd.
  - intros a x Ha Hc Hx.
    destruct (Hothers a x Ha Hx) as (x' & Hx' & Hd & Hpar & Hch).
    rewrite decide_False in Hch by exact Hc.
    rewrite Hx'. f_equal. apply entry_ext; assumption.
Qed.

(** An insert links both ways. When the entry is not inserted under its own
    parent pid: either some entry is cached under the parent pid afterwards,
    and then it is the parent pointer of the inserted entry and has the
    inserted entry as the last element of its child list; or nothing is, the
    parent pid is below 1 and the inserted entry has no parent pointer. *)
Theorem insertEntry_links_both_ways s pid entry e :
  mu s = Unlocked ->
  heap s !! entry = Some e ->
  cache_wf s ->
  PPid e ≠ pid ->
  exists s1 e',
    insertEntry pid entry s = Returns tt s1
    /\ heap s1 !! entry = Some e'
    /\ Parent e' = entryCache s1 !! PPid e
    /\ match entryCache s1 !! PPid e with
       | Some parent =>
           exists p, heap s1 !! parent = Some p /\ last (Children p) = Some entry
       | None => PPid e < 1
       end.
Proof.
  intros Hmu He Hwf Hne.
  assert (Hlt : (entry < length (heap s))%nat) by (eapply lookup_lt_Some; eauto).
  destruct (insertEntry_after s pid entry e Hmu He Hwf)
    as (s1 & e' & Hrun & _ & _ & Hcache & He' & _ & Hpar & Hch & Hothers & Hnew).
  exists s1, e'. split; [exact Hrun | split; [exact He' |]].
  rewrite Hcache, lookup_insert_ne by congruence. rewrite Hpar.
  destruct (entryCache s !! PPid e) as [parent |] eqn:Hc.
  - rewrite Hc. split; [reflexivity |].
    destruct (decide (parent = entry)) as [-> | Hpe].
    + exists e'. split; [exact He' |].
      rewrite Hch, decide_True by reflexivity. apply last_snoc.
    + destruct (lookup_lt_is_Some_2 (heap s) parent (Hwf _ _ Hc)) as [p Hp].
      destruct (Hothers parent p Hpe Hp) as (p' & Hp' & _ & _ & Hchp).
      exists p'. split; [exact Hp' |].
      rewrite Hchp, decide_True by reflexivity. apply last_snoc.
  - destruct (Z.leb_spec 1 (PPid e)) as [Hge | Hlt1].
    + rewrite lookup_insert_eq. split; [reflexivity |].
      eexists. split.
      * rewrite (Hnew (length (heap s)) (Nat.le_refl _)).
        destruct (Z.leb_spec 1 (PPid e)); [| lia].
        rewrite bool_decide_eq_true_2 by reflexivity. reflexivity.
      * reflexivity.
    + rewrite Hc. split; [reflexivity | exact Hlt1].
Qed.

(** [Get] is a peek: while no writer holds the lock (free, or held by other
    readers) it returns the slot and leaves the state, the reader count
    included, exactly as it found it; while a writer holds the lock it
    waits. It never queries a kernel table. *)
Theorem Get_is_a_peek s pid :
  (mu s = Unlocked \/ (exists n, mu s = RLocked (S n)) ->
   Get pid s = Returns (entryCache s !! pid) s)
  /\ (mu s = WLocked -> Get pid s = Blocks s).
Proof.
  split.
  - intros [Hmu | [n Hmu]]; [exact (Get_run s pid Hmu) |].
    unfold Get. unfold_ops. run_by ltac:(rewrite ?Hmu).
    destruct s as [m c h l]. cbn in Hmu. subst m. reflexivity.
  - intros Hmu. unfold Get. unfold_ops. rewrite Hmu. reflexivity.
Qed.

(** [DelEntry] on a pid that is not cached changes nothing, and deleting
    twice is deleting once. *)
Theorem DelEntry_absent_or_twice s pid :
  mu s = Unlocked ->
  (entryCache s !! pid = None -> DelEntry pid s = Returns tt s)
  /\ (DelEntry pid >> DelEntry pid) s = DelEntry pid s.
Proof.
  intros Hmu. split.
  - intros Hc. rewrite (DelEntry_run s pid Hmu), (delete_id _ _ Hc).
    destruct s as [m c h l]. cbn in Hmu. subst m. reflexivity.
  - unfold bind at 1. rewrite (DelEntry_run s pid Hmu).
    rewrite DelEntry_run by reflexivity. cbn [entryCache heap calls].
    rewrite delete_delete_eq. reflexivity.
Qed.

End CacheComposition.

(** * Further properties of the facade *)

Section FacadeComposition.

Variable env : Env.

(** [insertEntry] makes no call, whether it returns or waits. *)
Lemma insertEntry_calls (s : State) (pid : Z) (entry : addr) :
  match insertEntry pid entry s with
  | Returns _ s' | Blocks s' => calls s' = calls s
  | Panics => True
  end.
Proof.
  unfold insertEntry. unfold_ops. repeat (exec; case_innermost); exec; auto.
Qed.

Lemma resolve_log_bound (s : State) (pid : Z) :
  match resolve env pid s with
  | Returns _ s' | Blocks s' =>
      exists log, calls s' = calls s ++ log /\ resolve_log env pid log
  | Panics => True
  end.
Proof.
  unfold resolve, lookupBytes. fold (pid_key env pid).
  unfold bind at 1 2. unfold call at 1, ret at 1.
  destruct (LookupBytes env pid_cache (pid_key env pid)) as [err | | cookieb];
    [eexists; split; [reflexivity | right; left; reflexivity] .. |].
  unfold bind at 1. unfold run at 1.
  destruct (slice 0 4 cookieb) as [key |]; [| exact I].
  assert (Hlog : forall s1, calls s1 = (calls s ++ [CallLookupBytes pid_cache (pid_key env pid)])
                                       ++ [CallLookupBytes proc_cache key] ->
            exists log, calls s1 = calls s ++ log /\ resolve_log env pid log).
  { intros s1 ->. eexists. split; [symmetry; apply app_assoc |].
    right; right. exists key. reflexivity. }
  unfold bind at 1 2. unfold call at 1, ret at 1.
  destruct (LookupBytes env proc_cache key) as [err | | entryb];
    [apply Hlog; reflexivity .. |].
  destruct (Z.of_nat (length (entryb ++ cookieb)) <? 208); [apply Hlog; reflexivity |].
  unfold bind at 1. unfold run at 1.
  destruct (EntryUnmarshalBinary env zeroEntry (entryb ++ cookieb))
    as [[[entry read] [err |]] |]; [apply Hlog; reflexivity | | exact I].
  unfold bind at 1. unfold run at 1.
  destruct (slice read (read + 4) (entryb ++ cookieb)) as [uidb |]; [| exact I].
  unfold bind at 1. unfold run at 1.
  destruct (binary.Uint32 (ByteOrder env) uidb) as [uid |]; [| exact I].
  unfold bind at 1. unfold run at 1.
  destruct (slice (read + 4) (read + 8) (entryb ++ cookieb)) as [gidb |]; [| exact I].
  unfold bind at 1. unfold run at 1.
  destruct (binary.Uint32 (ByteOrder env) gidb) as [gid |]; [| exact I].
  unfold bind at 1. unfold alloc at 1. unfold bind at 1.
  match goal with
  | |- context [insertEntry ?p ?a ?s0] =>
      pose proof (insertEntry_calls s0 p a) as Hins;
      destruct (insertEntry p a s0) as [[] s1 | s1 |]
  end.
  - unfold ret. apply Hlog. rewrite Hins. reflexivity.
  - apply Hlog. rewrite Hins. reflexivity.
  - exact I.
Qed.

(** [Resolve] makes at most two table queries, whether it returns or waits:
    none on a hit, the pid table on a miss, and the record table only after
    the pid table answered. *)
Theorem Resolve_at_most_two_lookups (s : State) (pid : Z) :
  match Resolve env pid s with
  | Returns _ s' | Blocks s' =>
      exists log, calls s' = calls s ++ log
                  /\ resolve_log env pid log
                  /\ (length log <= 2)%nat
  | Panics => True
  end.
Proof.
  assert (Hlen : forall log, resolve_log env pid log -> (length log <= 2)%nat).
  { intros log [-> | [-> | [key ->]]]; cbn; lia. }
  unfold Resolve. unfold bind at 1. unfold Lock at 1.
  destruct (mu s) eqn:Hmu;
    [| exists []; rewrite app_nil_r; split; [reflexivity | split; [left; reflexivity | cbn; lia]] ..].
  unfold defer. unfold bind at 1 2. unfold gets at 1. exec.
  destruct (entryCache s !! pid) as [entry |].
  - unfold_ops. exec. exists []. rewrite app_nil_r.
    split; [reflexivity | split; [left; reflexivity | cbn; lia]].
  - pose proof (resolve_log_bound (set_mu WLocked s) pid) as Hres.
    destruct (resolve env pid (set_mu WLocked s)) as [r s1 | s1 |]; [| | exact I].
    + destruct Hres as (log & Hcalls & Hlog). unfold_ops.
      destruct (mu s1); try exact I. exec.
      exists log. split; [exact Hcalls | split; [exact Hlog | exact (Hlen _ Hlog)]].
    + destruct Hres as (log & Hcalls & Hlog).
      exists log. split; [exact Hcalls | split; [exact Hlog | exact (Hlen _ Hlog)]].
Qed.

(** A hit: with the lock free, [Resolve] on a cached pid returns the cached
    pointer and leaves the state exactly as it was; in particular no table
    is queried. *)
Theorem Resolve_cache_hit (s : State) (pid : Z) (entry : addr) :
  mu s = Unlocked ->
  entryCache s !! pid = Some entry ->
  Resolve env pid s = Returns (Some entry) s.
Proof.
  intros Hmu Hc. unfold Resolve. unfold_ops.
  run_by ltac:(rewrite ?Hmu, ?Hc).
  destruct s as [m c h l]. cbn in Hmu. subst m. reflexivity.
Qed.

Lemma resolve_returns_None (s : State) (pid : Z) (r : option addr) (s' : State) :
  mu s ≠ Unlocked ->
  resolve env pid s = Returns r s' ->
  r = None.
Proof.
  intros Hmu. unfold resolve, lookupBytes.
  unfold bind at 1 2. unfold call at 1, ret at 1.
  destruct (LookupBytes env pid_cache _) as [err | | cookieb];
    [intros [= <- _]; reflexivity .. |].
  unfold bind at 1. unfold run at 1.
  destruct (slice 0 4 cookieb) as [key |]; [| discriminate].
  unfold bind at 1 2. unfold call at 1, ret at 1.
  destruct (LookupBytes env proc_cache key) as [err | | entryb];
    [intros [= <- _]; reflexivity .. |].
  destruct (Z.of_nat (length (entryb ++ cookieb)) <? 208);
    [intros [= <- _]; reflexivity |].
  unfold bind at 1. unfold run at 1.
  destruct (EntryUnmarshalBinary env zeroEntry (entryb ++ cookieb))
    as [[[entry read] [err |]] |]; [intros [= <- _]; reflexivity | | discriminate].
  unfold bind at 1. unfold run at 1.
  destruct (slice read (read + 4) (entryb ++ cookieb)) as [uidb |]; [| discriminate].
  unfold bind at 1. unfold run at 1.
  destruct (binary.Uint32 (ByteOrder env) uidb) as [uid |]; [| discriminate].
  unfold bind at 1. unfold run at 1.
  destruct (slice (read + 4) (read + 8) (entryb ++ cookieb)) as [gidb |]; [| discriminate].
  unfold bind at 1. unfold run at 1.
  destruct (binary.Uint32 (ByteOrder env) gidb) as [gid |]; [| discriminate].
  unfold bind at 1. unfold alloc at 1.
  unfold bind at 1. rewrite insertEntry_blocks by (exec; exact Hmu).
  discriminate.
Qed.

(** Whenever [Resolve] returns, it returns what the cache already held under
    the pid (nil on a miss), the lock was free and is free again, and the
    cache and every entry are as before: the fallback never hands out, and
    never stores, an entry decoded from the kernel tables. *)
Theorem Resolve_returns_only_cached (s : State) (pid : Z) (r : option addr)
    (s' : State) :
  Resolve env pid s = Returns r s' ->
  r = entryCache s !! pid
  /\ entryCache s' = entryCache s
  /\ heap s' = heap s
  /\ mu s = Unlocked
  /\ mu s' = Unlocked.
Proof.
  unfold Resolve. unfold bind at 1. unfold Lock at 1.
  destruct (mu s) eqn:Hmu; try discriminate.
  unfold defer. unfold bind at 1 2. unfold gets at 1. exec.
  destruct (entryCache s !! pid) as [entry |].
  - unfold_ops. exec. intros [= <- <-]. repeat split; reflexivity.
  - destruct (resolve env pid (set_mu WLocked s)) as [r1 s1 | |] eqn:Hres;
      try discriminate.
    assert (r1 = None) as ->.
    { apply (resolve_returns_None (set_mu WLocked s) pid r1 s1); [discriminate | exact Hres]. }
    apply resolve_returns_frame in Hres; [| discriminate].
    destruct Hres as (Hc & Hh & Hm). unfold_ops. cbn [mu set_mu] in Hm.
    rewrite Hm. intros [= <- <-]. exec. repeat split; assumption.
Qed.

End FacadeComposition.

(** * Further properties of the enrichment and of the snapshot driver *)

Section EnrichmentComposition.

Variable env : Env.

(** [retrieveInodeInfo] makes one query, with the key of the inode, and
    writes nothing. A lookup error is passed on, a missing key is the error
    "not found", a value under 8 bytes is [ErrNotEnoughData], and any longer
    value decodes: mount id from bytes 0-3, overlay-lower count from bytes
    4-7. *)
Theorem retrieveInodeInfo_spec (inode : Z) (s : State) :
  exists r,
    retrieveInodeInfo env inode s
    = Returns r
        (set_calls (calls s ++ [CallLookupBytes inode_info_cache (inode_key env inode)]) s)
    /\ match LookupBytes env inode_info_cache (inode_key env inode) with
       | LookupErr err => r = Failure err
       | LookupNil => r = Failure (ErrNew "not found")
       | LookupFound (b0 :: b1 :: b2 :: b3 :: b4 :: b5 :: b6 :: b7 :: _) =>
           r = Success
                 (InodeInfo.mk (native_value (ByteOrder env) [b0; b1; b2; b3])
                               (int32 (native_value (ByteOrder env) [b4; b5; b6; b7])))
       | LookupFound _ => r = Failure ErrNotEnoughData
       end.
Proof.
  unfold retrieveInodeInfo, lookupBytes. fold (inode_key env inode).
  unfold bind at 1 2. unfold call at 1, ret at 1.
  destruct (LookupBytes env inode_info_cache (inode_key env inode)) as [err | | data];
    [eexists; split; reflexivity .. |].
  unfold bind at 1. unfold run at 1.
  destruct data as [| b0 [| b1 [| b2 [| b3 [| b4 [| b5 [| b6 [| b7 rest]]]]]]]];
    try (rewrite InodeInfo_UnmarshalBinary_short by (cbn [length]; lia);
         eexists; split; reflexivity).
  rewrite InodeInfo_UnmarshalBinary_eight. eexists; split; reflexivity.
Qed.

(** The fields [fill] writes, and the two links it does not. *)
Lemma fill_fields (proc : FilledProcess) (pathnameStr : string) (inode : Z)
    (info : InodeInfo.t) (containerID tty : string) (e : ProcessCacheEntry) :
  let e' := fill env proc pathnameStr inode info containerID tty e in
  FileEvent e'
  = ResolveContainerPath env
      (FileEvent.mk inode (InodeInfo.OverlayNumLower info) (InodeInfo.MountID info)
         pathnameStr "")
  /\ ContainerID e' = containerID
  /\ ExecTimestamp e' = TimeUnix (int64 (proc_CreateTime proc * 1000000))
  /\ Comm e' = proc_Name proc
  /\ PPid e' = uint32 (proc_Ppid proc)
  /\ TTYName e' = tty
  /\ Pid e' = uint32 (proc_Pid proc)
  /\ Tid e' = uint32 (proc_Pid proc)
  /\ UID e' = match proc_Uids proc with uid :: _ => uint32 uid | [] => UID e end
  /\ GID e' = match proc_Gids proc with gid :: _ => uint32 gid | [] => GID e end
  /\ Children e' = Children e
  /\ Parent e' = Parent e.
Proof.
  unfold fill. destruct (proc_Uids proc), (proc_Gids proc); cbn; repeat split.
Qed.

(** A successful enrichment writes the entry it was given, and nothing
    else in the resolver: identity, container, terminal and timestamp come
    from /proc, the file from /proc and the inode table as the mount
    resolver resolves it; uid and gid are the first of the lists /proc
    gave, and stay as they were when a list is empty; the child list and
    the parent pointer are not touched; the timestamp is never the zero
    time. *)
Theorem enrichEventFromProc_fields (proc : FilledProcess) (entry : addr)
    (e : ProcessCacheEntry) (s : State) (pathnameStr : string) (inode : Z)
    (info : InodeInfo.t) (containerID : string) :
  enrich_ok env proc pathnameStr inode info containerID ->
  heap s !! entry = Some e ->
  exists s' e',
    enrichEventFromProc env entry proc s = Returns None s'
    /\ heap s' !! entry = Some e'
    /\ (forall a, a ≠ entry -> heap s' !! a = heap s !! a)
    /\ entryCache s' = entryCache s
    /\ mu s' = mu s
    /\ Pid e' = uint32 (proc_Pid proc)
    /\ Tid e' = uint32 (proc_Pid proc)
    /\ PPid e' = uint32 (proc_Ppid proc)
    /\ Comm e' = proc_Name proc
    /\ ContainerID e' = containerID
    /\ TTYName e' = PidTTY env (uint32 (proc_Pid proc))
    /\ FileEvent e'
       = ResolveContainerPath env
           (FileEvent.mk inode (InodeInfo.OverlayNumLower info)
              (InodeInfo.MountID info) pathnameStr "")
    /\ ExecTimestamp e' = TimeUnix (int64 (proc_CreateTime proc * 1000000))
    /\ IsZero (ExecTimestamp e') = false
    /\ UID e' = match proc_Uids proc with uid :: _ => uint32 uid | [] => UID e end
    /\ GID e' = match proc_Gids proc with gid :: _ => uint32 gid | [] => GID e end
    /\ Children e' = Children e
    /\ Parent e' = Parent e.
Proof.
  intros Hok He.
  assert (Hlt : (entry < length (heap s))%nat) by (eapply lookup_lt_Some; eauto).
  destruct (fill_fields proc pathnameStr inode info containerID
              (PidTTY env (uint32 (proc_Pid proc))) e)
    as (Hfe & Hcid & Hts & Hcomm & Hppid & Htty & Hpid & Htid & Huid & Hgid & Hch & Hpar).
  eexists _, _. split; [apply (enrichEventFromProc_ok env proc entry e s _ _ _ _ Hok He) |].
  cbn [mu entryCache heap calls].
  split; [apply list_lookup_insert_eq; exact Hlt |].
  split; [intros a Ha; apply list_lookup_insert_ne; congruence |].
  split; [reflexivity | split; [reflexivity |]].
  split; [exact Hpid | split; [exact Htid | split; [exact Hppid | split; [exact Hcomm |]]]].
  split; [exact Hcid | split; [exact Htty | split; [exact Hfe | split; [exact Hts |]]]].
  split; [rewrite Hts; reflexivity |].
  split; [exact Huid | split; [exact Hgid | split; [exact Hch | exact Hpar]]].
Qed.

(** [SyncCache] on a cached, unresolved entry whose enrichment succeeds is
    one insert of the same pointer on the state with the entry filled. *)
Lemma SyncCache_cached_reduce (proc : FilledProcess) (s : State) (a : addr)
    (e0 : ProcessCacheEntry) (pathnameStr : string) (inode : Z)
    (info : InodeInfo.t) (containerID : string) :
  let pid := uint32 (proc_Pid proc) in
  pid ≠ 0 ->
  mu s = Unlocked ->
  entryCache s !! pid = Some a ->
  heap s !! a = Some e0 ->
  IsZero (ExecTimestamp e0) = true ->
  enrich_ok env proc pathnameStr inode info containerID ->
  SyncCache env proc s
  = (insertEntry pid a >> ret true)
      (mkState Unlocked (entryCache s)
         (<[a := fill env proc pathnameStr inode info containerID (PidTTY env pid) e0]>
            (heap s))
         (calls s ++ enrich_calls env pid inode)).
Proof.
  intros pid Hpid Hmu Hc He0 Hzero Hok.
  assert (Hnz : (pid =? 0) = false) by (apply Z.eqb_neq; exact Hpid).
  unfold SyncCache. fold pid. rewrite Hnz.
  unfold bind at 1. unfold Lock at 1. rewrite Hmu.
  unfold bind at 1. unfold gets at 1. exec. rewrite Hc.
  unfold bind at 1. unfold load at 1. exec. rewrite He0, Hzero. cbn [negb].
  unfold bind at 1.
  rewrite (enrichEventFromProc_ok env proc a e0 (set_mu WLocked s) pathnameStr inode
             info containerID Hok He0).
  unfold bind at 1. unfold Unlock at 1. exec. unfold set_mu. exec. reflexivity.
Qed.

(** [SyncCache] on a pid that is not cached and whose enrichment succeeds is
    one insert of a new entry, allocated at the end of the heap and filled. *)
Lemma SyncCache_fresh_reduce (proc : FilledProcess) (s : State)
    (pathnameStr : string) (inode : Z) (info : InodeInfo.t) (containerID : string) :
  let pid := uint32 (proc_Pid proc) in
  pid ≠ 0 ->
  mu s = Unlocked ->
  entryCache s !! pid = None ->
  enrich_ok env proc pathnameStr inode info containerID ->
  SyncCache env proc s
  = (insertEntry pid (length (heap s)) >> ret true)
      (mkState Unlocked (entryCache s)
         (heap s ++ [fill env proc pathnameStr inode info containerID (PidTTY env pid)
                       zeroEntry])
         (calls s ++ enrich_calls env pid inode)).
Proof.
  intros pid Hpid Hmu Hc Hok.
  assert (Hnz : (pid =? 0) = false) by (apply Z.eqb_neq; exact Hpid).
  unfold SyncCache. fold pid. rewrite Hnz.
  unfold bind at 1. unfold Lock at 1. rewrite Hmu.
  unfold bind at 1. unfold gets at 1. exec. rewrite Hc.
  unfold bind at 1. unfold alloc at 1. exec.
  unfold bind at 1.
  rewrite (enrichEventFromProc_ok env proc (length (heap s)) zeroEntry
             (set_heap (heap s ++ [zeroEntry]) (set_mu WLocked s)) pathnameStr inode
             info containerID Hok)
    by (cbn [heap set_heap set_mu]; apply list_lookup_middle; reflexivity).
  unfold bind at 1. unfold Unlock at 1. exec. unfold set_mu. exec.
  rewrite insert_app_r_alt by lia. rewrite Nat.sub_diag. reflexivity.
Qed.

(** A successful [SyncCache]: the state it returns has the pid cached with a
    non-zero exec timestamp, the lock free and the cache well formed. *)
Lemma SyncCache_success (proc : FilledProcess) (s : State) (pathnameStr : string)
    (inode : Z) (info : InodeInfo.t) (containerID : string) :
  let pid := uint32 (proc_Pid proc) in
  pid ≠ 0 ->
  mu s = Unlocked ->
  cache_wf s ->
  not_resolved s pid ->
  enrich_ok env proc pathnameStr inode info containerID ->
  exists s' entry e',
    SyncCache env proc s = Returns true s'
    /\ mu s' = Unlocked
    /\ entryCache s' !! pid = Some entry
    /\ heap s' !! entry = Some e'
    /\ IsZero (ExecTimestamp e') = false
    /\ calls s' = calls s ++ enrich_calls env pid inode.
Proof.
  intros pid Hpid Hmu Hwf Hnr Hok. unfold not_resolved in Hnr.
  assert (Hts : forall e0 e',
             data_of e' = data_of (fill env proc pathnameStr inode info containerID
                                     (PidTTY env pid) e0) ->
             IsZero (ExecTimestamp e') = false).
  { intros e0 e' Hd. apply (f_equal ExecTimestamp) in Hd. cbn in Hd.
    destruct (fill_fields proc pathnameStr inode info containerID (PidTTY env pid) e0)
      as (_ & _ & Hf & _).
    rewrite Hf in Hd. cbn in Hd. rewrite Hd. reflexivity. }
  destruct (entryCache s !! pid) as [a |] eqn:Hc.
  - destruct Hnr as (e0 & He0 & Hzero).
    assert (Hlt : (a < length (heap s))%nat) by (eapply lookup_lt_Some; eauto).
    rewrite (SyncCache_cached_reduce proc s a e0 pathnameStr inode info containerID
               Hpid Hmu Hc He0 Hzero Hok). fold pid.
    edestruct (insertEntry_after
                 (mkState Unlocked (entryCache s)
                    (<[a := fill env proc pathnameStr inode info containerID
                             (PidTTY env pid) e0]> (heap s))
                    (calls s ++ enrich_calls env pid inode)) pid a)
      as (s' & e' & Hrun & Hmu' & Hcalls & Hcache & He' & Hdata & _).
    { reflexivity. }
    { cbn [heap]. apply list_lookup_insert_eq. exact Hlt. }
    { intros k b. cbn [entryCache heap]. rewrite length_insert. apply Hwf. }
    exists s', a, e'. unfold bind at 1. rewrite Hrun.
    split; [reflexivity | split; [exact Hmu' | split]].
    + rewrite Hcache. apply lookup_insert_eq.
    + split; [exact He' | split; [exact (Hts _ _ Hdata) | exact Hcalls]].
  - rewrite (SyncCache_fresh_reduce proc s pathnameStr inode info containerID
               Hpid Hmu Hc Hok). fold pid.
    edestruct (insertEntry_after
                 (mkState Unlocked (entryCache s)
                    (heap s ++ [fill env proc pathnameStr inode info containerID
                                  (PidTTY env pid) zeroEntry])
                    (calls s ++ enrich_calls env pid inode)) pid (length (heap s)))
      as (s' & e' & Hrun & Hmu' & Hcalls & Hcache & He' & Hdata & _).
    { reflexivity. }
    { cbn [heap]. apply list_lookup_middle. reflexivity. }
    { intros k b Hk. cbn [entryCache heap] in *. rewrite length_app.
      specialize (Hwf _ _ Hk). lia. }
    exists s', (length (heap s)), e'. unfold bind at 1. rewrite Hrun.
    split; [reflexivity | split; [exact Hmu' | split]].
    + rewrite Hcache. apply lookup_insert_eq.
    + split; [exact He' | split; [exact (Hts _ _ Hdata) | exact Hcalls]].
Qed.

(** A snapshot pass is not repeated: when [SyncCache] has enriched and
    inserted a process, a second [SyncCache] of the same process returns
    false and leaves the state exactly as the first one left it, without a
    single call to /proc or to the kernel tables. *)
Theorem SyncCache_twice (proc : FilledProcess) (s : State) (pathnameStr : string)
    (inode : Z) (info : InodeInfo.t) (containerID : string) :
  uint32 (proc_Pid proc) ≠ 0 ->
  mu s = Unlocked ->
  cache_wf s ->
  not_resolved s (uint32 (proc_Pid proc)) ->
  enrich_ok env proc pathnameStr inode info containerID ->
  exists s',
    SyncCache env proc s = Returns true s'
    /\ SyncCache env proc s' = Returns false s'.
Proof.
  intros Hpid Hmu Hwf Hnr Hok.
  destruct (SyncCache_success proc s pathnameStr inode info containerID
              Hpid Hmu Hwf Hnr Hok)
    as (s' & entry & e' & Hrun & Hmu' & Hc' & He' & Hts & _).
  exists s'. split; [exact Hrun |].
  exact (SyncCache_resolved env proc s' entry e' Hmu' Hc' He' Hts).
Qed.

(** [SyncCache] on a cached entry without exec timestamp. The entry is
    filled and inserted again under its pid; when the same object is also
    what the cache holds under the parent pid /proc reports, the insert
    makes it a child of itself. *)
Lemma SyncCache_in_place_gen (proc : FilledProcess) (s : State) (a : addr)
    (e0 : ProcessCacheEntry) (pathnameStr : string) (inode : Z)
    (info : InodeInfo.t) (containerID : string) :
  let pid := uint32 (proc_Pid proc) in
  pid ≠ 0 ->
  mu s = Unlocked ->
  cache_wf s ->
  entryCache s !! pid = Some a ->
  heap s !! a = Some e0 ->
  IsZero (ExecTimestamp e0) = true ->
  enrich_ok env proc pathnameStr inode info containerID ->
  exists s' e',
    SyncCache env proc s = Returns true s'
    /\ mu s' = Unlocked
    /\ entryCache s' !! pid = Some a
    /\ heap s' !! a = Some e'
    /\ Children e'
       = (if decide (entryCache s !! uint32 (proc_Ppid proc) = Some a)
          then Children e0 ++ [a] else Children e0)
    /\ data_of e'
       = data_of (fill env proc pathnameStr inode info containerID (PidTTY env pid) e0)
    /\ (forall c x, c ≠ a -> heap s !! c = Some x ->
          exists x', heap s' !! c = Some x'
                     /\ data_of x' = data_of x /\ Parent x' = Parent x)
    /\ (forall k v, k ≠ pid -> entryCache s !! k = Some v ->
                    entryCache s' !! k = Some v).
Proof.
  intros pid Hpid Hmu Hwf Hc He0 Hzero Hok.
  assert (Hlt : (a < length (heap s))%nat) by (eapply lookup_lt_Some; eauto).
  destruct (fill_fields proc pathnameStr inode info containerID (PidTTY env pid) e0)
    as (_ & _ & _ & _ & Hppid & _ & _ & _ & _ & _ & Hch & _).
  rewrite (SyncCache_cached_reduce proc s a e0 pathnameStr inode info containerID
             Hpid Hmu Hc He0 Hzero Hok). fold pid.
  edestruct (insertEntry_after
               (mkState Unlocked (entryCache s)
                  (<[a := fill env proc pathnameStr inode info containerID
                           (PidTTY env pid) e0]> (heap s))
                  (calls s ++ enrich_calls env pid inode)) pid a)
    as (s' & e' & Hrun & Hmu' & _ & Hcache & He' & Hdata & _ & Hchildren & Hothers & _).
  { reflexivity. }
  { cbn [heap]. apply list_lookup_insert_eq. exact Hlt. }
  { intros k b. cbn [entryCache heap]. rewrite length_insert. apply Hwf. }
  cbn [entryCache heap] in Hcache, Hchildren, Hothers. fold pid in Hppid.
  rewrite Hppid in Hcache, Hchildren. rewrite Hch in Hchildren.
  exists s', e'. unfold bind at 1. rewrite Hrun.
  split; [reflexivity | split; [exact Hmu' | split; [| split; [exact He' | split]]]].
  - rewrite Hcache. apply lookup_insert_eq.
  - exact Hchildren.
  - split; [exact Hdata | split].
    + intros c x Hca Hx.
      destruct (Hothers c x Hca) as (x' & Hx' & Hd & Hp & _).
      { rewrite list_lookup_insert_ne by congruence. exact Hx. }
      exists x'. split; [exact Hx' | split; [exact Hd | exact Hp]].
    + intros k v Hk Hkv. rewrite Hcache, lookup_insert_ne by congruence.
      destruct (entryCache s !! uint32 (proc_Ppid proc)) eqn:Hpp; [exact Hkv |].
      destruct (1 <=? uint32 (proc_Ppid proc)); [| exact Hkv].
      rewrite lookup_insert_ne; [exact Hkv | congruence].
Qed.

(** [SyncCache] on a cached entry without exec timestamp, the entry not
    being cached under the parent pid /proc reports for it. *)
Lemma SyncCache_in_place_run (proc : FilledProcess) (s : State) (a : addr)
    (e0 : ProcessCacheEntry) (pathnameStr : string) (inode : Z)
    (info : InodeInfo.t) (containerID : string) :
  let pid := uint32 (proc_Pid proc) in
  pid ≠ 0 ->
  mu s = Unlocked ->
  cache_wf s ->
  entryCache s !! pid = Some a ->
  heap s !! a = Some e0 ->
  IsZero (ExecTimestamp e0) = true ->
  entryCache s !! uint32 (proc_Ppid proc) ≠ Some a ->
  enrich_ok env proc pathnameStr inode info containerID ->
  exists s' e',
    SyncCache env proc s = Returns true s'
    /\ mu s' = Unlocked
    /\ entryCache s' !! pid = Some a
    /\ heap s' !! a = Some e'
    /\ Children e' = Children e0
    /\ data_of e'
       = data_of (fill env proc pathnameStr inode info containerID (PidTTY env pid) e0)
    /\ (forall c x, c ≠ a -> heap s !! c = Some x ->
          exists x', heap s' !! c = Some x'
                     /\ data_of x' = data_of x /\ Parent x' = Parent x)
    /\ (forall k v, k ≠ pid -> entryCache s !! k = Some v ->
                    entryCache s' !! k = Some v).
Proof.
  intros pid Hpid Hmu Hwf Hc He0 Hzero Hnp Hok.
  destruct (SyncCache_in_place_gen proc s a e0 pathnameStr inode info containerID
              Hpid Hmu Hwf Hc He0 Hzero Hok)
    as (s' & e' & Hrun & Hmu' & Hc' & He' & Hch & Hrest).
  rewrite decide_False in Hch by exact Hnp.
  exists s', e'. repeat (split; [assumption |]). exact Hrest.
Qed.

(** A placeholder is populated where it is. When [SyncCache] finds the pid
    cached without exec timestamp and the enrichment succeeds, the slot
    keeps its pointer and the entry behind it gets the enriched data. It
    keeps its child list, with one exception: when the same object is also
    what the cache holds under the parent pid /proc reports (the process is
    its own parent, or one object was stored under both pids), it is
    appended to its own child list once. Every other entry keeps its data
    and its parent pointer (so the children still point at the entry under
    the pid), and no other slot that existed is replaced. *)
Theorem SyncCache_fills_in_place (proc : FilledProcess) (s : State) (a : addr)
    (e0 : ProcessCacheEntry) (pathnameStr : string) (inode : Z)
    (info : InodeInfo.t) (containerID : string) :
  uint32 (proc_Pid proc) ≠ 0 ->
  mu s = Unlocked ->
  cache_wf s ->
  entryCache s !! uint32 (proc_Pid proc) = Some a ->
  heap s !! a = Some e0 ->
  IsZero (ExecTimestamp e0) = true ->
  enrich_ok env proc pathnameStr inode info containerID ->
  exists s' e',
    SyncCache env proc s = Returns true s'
    /\ entryCache s' !! uint32 (proc_Pid proc) = Some a
    /\ heap s' !! a = Some e'
    /\ Children e'
       = (if decide (entryCache s !! uint32 (proc_Ppid proc) = Some a)
          then Children e0 ++ [a] else Children e0)
    /\ Comm e' = proc_Name proc
    /\ IsZero (ExecTimestamp e') = false
    /\ (forall c x, c ≠ a -> heap s !! c = Some x ->
          exists x', heap s' !! c = Some x'
                     /\ data_of x' = data_of x /\ Parent x' = Parent x)
    /\ (forall k v, k ≠ uint32 (proc_Pid proc) -> entryCache s !! k = Some v ->
                    entryCache s' !! k = Some v).
Proof.
  intros Hpid Hmu Hwf Hc He0 Hzero Hok.
  destruct (SyncCache_in_place_gen proc s a e0 pathnameStr inode info containerID
              Hpid Hmu Hwf Hc He0 Hzero Hok)
    as (s' & e' & Hrun & _ & Hc' & He' & Hch & Hdata & Hothers & Hslots).
  destruct (fill_fields proc pathnameStr inode info containerID
              (PidTTY env (uint32 (proc_Pid proc))) e0)
    as (_ & _ & Hts & Hcomm & _).
  exists s', e'.
  split; [exact Hrun | split; [exact Hc' | split; [exact He' | split; [exact Hch |]]]].
  split; [| split; [| split; [exact Hothers | exact Hslots]]].
  - apply (f_equal Comm) in Hdata. cbn in Hdata. rewrite Hdata. exact Hcomm.
  - apply (f_equal ExecTimestamp) in Hdata. cbn in Hdata. rewrite Hdata, Hts. reflexivity.
Qed.

(** Child first, parent later, through the snapshot driver. A child whose
    parent pid (at least 1) is not cached is inserted, and then [SyncCache]
    snapshots the parent. Afterwards the entry under the parent pid is
    resolved, its child list is the child exactly once, the child is still
    cached under its own pid, and the parent pointer of the child is the
    entry under the parent pid. *)
Theorem child_first_then_SyncCache_parent (proc : FilledProcess) (s : State)
    (pid : Z) (child : addr) (c : ProcessCacheEntry) (pathnameStr : string)
    (inode : Z) (info : InodeInfo.t) (containerID : string) :
  mu s = Unlocked ->
  cache_wf s ->
  heap s !! child = Some c ->
  entryCache s !! PPid c = None ->
  1 <= PPid c ->
  PPid c ≠ pid ->
  uint32 (proc_Pid proc) = PPid c ->
  uint32 (proc_Ppid proc) ≠ PPid c ->
  enrich_ok env proc pathnameStr inode info containerID ->
  exists s' parent real c',
    (AddEntry pid child >> SyncCache env proc) s = Returns true s'
    /\ entryCache s' !! PPid c = Some parent
    /\ heap s' !! parent = Some real
    /\ IsZero (ExecTimestamp real) = false
    /\ Children real = [child]
    /\ entryCache s' !! pid = Some child
    /\ heap s' !! child = Some c'
    /\ Parent c' = Some parent.
Proof.
  intros Hmu Hwf Hchild Hc Hge Hne Hproc Hgrand Hok.
  assert (Hlt : (child < length (heap s))%nat) by (eapply lookup_lt_Some; eauto).
  set (n := length (heap s)).
  set (ph := set_Children [child] (set_Pid (PPid c) zeroEntry)).
  set (s1 := mkState Unlocked
               (<[pid := child]> (<[PPid c := n]> (entryCache s)))
               (<[child := set_Parent (Some n) c]> (heap s ++ [ph]))
               (calls s)).
  assert (Hn : heap s1 !! n = Some ph).
  { cbn [heap s1]. rewrite list_lookup_insert_ne by (unfold n; lia).
    apply list_lookup_middle. reflexivity. }
  edestruct (SyncCache_in_place_run proc s1 n ph pathnameStr inode info containerID)
    as (s' & e' & Hrun & _ & Hc' & He' & Hch & Hdata & Hothers & Hslots).
  - rewrite Hproc. lia.
  - reflexivity.
  - intros k b. cbn [entryCache heap s1].
    rewrite length_insert, length_app. cbn [length]. rewrite !lookup_insert.
    repeat case_decide.
    + intros [= <-]. lia.
    + intros [= <-]. unfold n. lia.
    + intros Hk. specialize (Hwf _ _ Hk). lia.
  - rewrite Hproc. cbn [entryCache s1].
    rewrite lookup_insert_ne by congruence. apply lookup_insert_eq.
  - exact Hn.
  - reflexivity.
  - cbn [entryCache s1]. rewrite !lookup_insert. repeat case_decide.
    + intros [= Heq]. unfold n in Heq. lia.
    + congruence.
    + intros Hk. specialize (Hwf _ _ Hk). unfold n in Hk. lia.
  - exact Hok.
  - rewrite Hproc in Hc', Hslots.
    destruct (Hothers child (set_Parent (Some n) c)) as (c' & Hc'' & _ & Hpar).
    { unfold n. lia. }
    { cbn [heap s1]. apply list_lookup_insert_eq. rewrite length_app. lia. }
    exists s', n, e', c'. split.
    + unfold AddEntry. unfold bind at 1.
      rewrite (insertEntry_placeholder s pid child c Hmu Hchild Hc Hge).
      fold n ph s1. exact Hrun.
    + split; [exact Hc' | split; [exact He' | split; [| split; [exact Hch | split]]]].
      * apply (f_equal ExecTimestamp) in Hdata. cbn in Hdata. rewrite Hdata.
        destruct (fill_fields proc pathnameStr inode info containerID
                    (PidTTY env (uint32 (proc_Pid proc))) ph) as (_ & _ & Hts & _).
        rewrite Hts. reflexivity.
      * apply Hslots; [congruence |]. cbn [entryCache s1]. apply lookup_insert_eq.
      * split; [exact Hc'' | exact Hpar].
Qed.

End EnrichmentComposition.

(** * Invariants over sequences of operations *)

Section Invariants.

Variable env : Env.

Lemma insertEntry_returns_mu (s : State) (pid : Z) (entry : addr) (s' : State) :
  insertEntry pid entry s = Returns tt s' -> mu s = Unlocked /\ mu s' = Unlocked.
Proof.
  intros Hrun.
  destruct (insertEntry_returns_inv s pid entry s' Hrun) as (Hmu & e & He & Halloc).
  split; [exact Hmu |].
  destruct (entryCache s !! PPid e) as [parent |] eqn:Hc.
  - destruct (Halloc parent eq_refl) as [p Hp].
    destruct (insertEntry_parent_cached s pid entry e parent p Hmu He Hc Hp)
      as (e1 & _ & Hrun').
    rewrite Hrun' in Hrun. injection Hrun as <-. reflexivity.
  - destruct (Z.leb_spec 1 (PPid e)) as [Hge | Hlt].
    + rewrite (insertEntry_placeholder s pid entry e Hmu He Hc Hge) in Hrun.
      injection Hrun as <-. reflexivity.
    + rewrite (insertEntry_orphan s pid entry e Hmu He Hc Hlt) in Hrun.
      injection Hrun as <-. reflexivity.
Qed.

(** A successful enrichment writes one entry, and not its links. *)
Lemma enrichEventFromProc_returns_None (proc : FilledProcess) (entry : addr)
    (s s' : State) :
  enrichEventFromProc env entry proc s = Returns None s' ->
  exists x0 x1,
    heap s !! entry = Some x0
    /\ heap s' = <[entry := x1]> (heap s)
    /\ Parent x1 = Parent x0
    /\ Children x1 = Children x0.
Proof.
  unfold enrichEventFromProc.
  unfold bind at 1 2. unfold call at 1, ret at 1.
  destruct (Readlink env _) as [pathnameStr | err]; [| discriminate].
  destruct (bool_decide (pathnameStr = "/ (deleted)")); [discriminate |].
  unfold bind at 1 2. unfold call at 1, ret at 1.
  destruct (Stat env _) as [err | | inode]; [discriminate .. |].
  unfold bind at 1.
  destruct (retrieveInodeInfo env inode _) as [ri s1 | |] eqn:Hri; try discriminate.
  apply retrieveInodeInfo_frame in Hri. cbn [mu entryCache heap set_calls] in Hri.
  destruct Hri as (_ & _ & Hh1). rewrite <- Hh1.
  destruct ri as [info | err]; [| discriminate].
  unfold bind at 1 2. unfold call at 1, ret at 1.
  destruct (GetContainerID env _) as [containerID | err]; [| discriminate].
  unfold_ops. exec.
  destruct (heap s1 !! entry) as [e |] eqn:He; [| discriminate].
  exec. rewrite He. intros [= <-]. cbn [heap].
  eexists e, _. split; [reflexivity | split; [reflexivity |]].
  match goal with
  | |- Parent (fill ?en ?pr ?pa ?i ?inf ?c ?t ?x) = _ /\ _ =>
      destruct (fill_fields en pr pa i inf c t x)
        as (_ & _ & _ & _ & _ & _ & _ & _ & _ & _ & Hch & Hpar)
  end.
  split; [exact Hpar | exact Hch].
Qed.

(** The ways [SyncCache] returns: false, with at most an unused entry
    allocated; or true, after one insert on a state in which the entry was
    rewritten but for its links. *)
Lemma SyncCache_returns_inv (proc : FilledProcess) (s : State) (b : bool) (s' : State) :
  SyncCache env proc s = Returns b s' ->
  (b = false
   /\ mu s' = mu s
   /\ entryCache s' = entryCache s
   /\ (heap s' = heap s \/ heap s' = heap s ++ [zeroEntry]))
  \/ (b = true
      /\ mu s = Unlocked
      /\ exists entry s1 h0 x0 x1,
           mu s1 = Unlocked
           /\ entryCache s1 = entryCache s
           /\ (h0 = heap s \/ (h0 = heap s ++ [zeroEntry] /\ entry = length (heap s)))
           /\ h0 !! entry = Some x0
           /\ heap s1 = <[entry := x1]> h0
           /\ Parent x1 = Parent x0
           /\ Children x1 = Children x0
           /\ insertEntry (uint32 (proc_Pid proc)) entry s1 = Returns tt s').
Proof.
  unfold SyncCache. set (pid := uint32 (proc_Pid proc)).
  destruct (pid =? 0); [intros [= <- <-]; left; auto |].
  unfold bind at 1. unfold Lock at 1.
  destruct (mu s) eqn:Hmu; try discriminate.
  unfold bind at 1. unfold gets at 1. exec.
  assert (Htail : forall entry s0 h0,
    mu s0 = WLocked ->
    entryCache s0 = entryCache s ->
    heap s0 = h0 ->
    (h0 = heap s \/ (h0 = heap s ++ [zeroEntry] /\ entry = length (heap s))) ->
    (let* err := enrichEventFromProc env entry proc in
     match err with
     | Some _ => Unlock >> ret false
     | None => Unlock >> insertEntry pid entry >> ret true
     end) s0 = Returns b s' ->
    (b = false /\ mu s' = Unlocked /\ entryCache s' = entryCache s
     /\ (heap s' = heap s \/ heap s' = heap s ++ [zeroEntry]))
    \/ (b = true /\ Unlocked = Unlocked
        /\ exists entry s1 h0 x0 x1,
             mu s1 = Unlocked
             /\ entryCache s1 = entryCache s
             /\ (h0 = heap s \/ (h0 = heap s ++ [zeroEntry] /\ entry = length (heap s)))
             /\ h0 !! entry = Some x0
             /\ heap s1 = <[entry := x1]> h0
             /\ Parent x1 = Parent x0
             /\ Children x1 = Children x0
             /\ insertEntry pid entry s1 = Returns tt s')).
  { intros entry s0 h0 Hmu0 Hc0 Hh0 Hcase. unfold bind at 1.
    destruct (enrichEventFromProc env entry proc s0) as [r s1 | |] eqn:Hen;
      try discriminate.
    pose proof (enrichEventFromProc_frame env proc entry s0 r s1 Hen)
      as (Hm1 & Hc1 & _ & _ & Hfail).
    destruct r as [err |].
    - unfold_ops. rewrite Hm1, Hmu0. exec. intros [= <- <-]. left.
      cbn [mu entryCache heap set_mu].
      split; [reflexivity | split; [reflexivity | split; [congruence |]]].
      rewrite (Hfail ltac:(discriminate)), Hh0.
      destruct Hcase as [-> | [-> _]]; [left | right]; reflexivity.
    - apply enrichEventFromProc_returns_None in Hen.
      destruct Hen as (x0 & x1 & Hx0 & Hh1 & Hpar & Hch).
      unfold bind at 1. unfold Unlock at 1. rewrite Hm1, Hmu0.
      unfold bind at 1.
      destruct (insertEntry pid entry (set_mu Unlocked s1)) as [[] s2 | |] eqn:Hins;
        try discriminate.
      unfold ret. intros [= <- <-]. right.
      split; [reflexivity | split; [reflexivity |]].
      exists entry, (set_mu Unlocked s1), h0, x0, x1.
      cbn [mu entryCache heap set_mu].
      split; [reflexivity | split; [congruence | split; [exact Hcase |]]].
      split; [rewrite <- Hh0; exact Hx0 |].
      split; [rewrite Hh1, Hh0; reflexivity |].
      split; [exact Hpar | split; [exact Hch | exact Hins]]. }
  destruct (entryCache s !! pid) as [entry |] eqn:Hc.
  - unfold bind at 1. unfold load at 1. exec.
    destruct (heap s !! entry) as [e |] eqn:He; [| discriminate].
    destruct (negb (IsZero (ExecTimestamp e))).
    + unfold_ops. exec. intros [= <- <-]. left. cbn [mu entryCache heap set_mu]. auto.
    + intros Hrun.
      apply (Htail entry (set_mu WLocked s) (heap s)) in Hrun; auto.
  - unfold bind at 1. unfold alloc at 1. exec. intros Hrun.
    apply (Htail (length (heap s)) (set_heap (heap s ++ [zeroEntry]) (set_mu WLocked s))
             (heap s ++ [zeroEntry])) in Hrun; auto.
Qed.

Lemma step_returns_mu (op : Op) (s s' : State) :
  mu s = Unlocked ->
  step env op s = Returns tt s' ->
  mu s' = Unlocked.
Proof.
  intros Hmu. destruct op as [e | pid entry | pid | pid | pid | proc]; cbn [step].
  - unfold_ops. exec. intros [= <-]. exact Hmu.
  - intros Hrun. apply insertEntry_returns_mu in Hrun. tauto.
  - rewrite (DelEntry_run s pid Hmu). intros [= <-]. reflexivity.
  - unfold bind at 1. rewrite (Get_run s pid Hmu). unfold ret. intros [= <-]. exact Hmu.
  - unfold bind at 1.
    destruct (Resolve env pid s) as [r s1 | |] eqn:Hres; try discriminate.
    unfold ret. intros [= <-]. revert Hres.
    unfold Resolve. unfold bind at 1. unfold Lock at 1. rewrite Hmu.
    unfold defer. unfold bind at 1 2. unfold gets at 1. exec.
    destruct (entryCache s !! pid) as [entry |].
    + unfold_ops. exec. intros [= _ <-]. reflexivity.
    + destruct (resolve env pid (set_mu WLocked s)) as [r1 s2 | |] eqn:Hr;
        try discriminate.
      apply resolve_returns_frame in Hr; [| discriminate].
      destruct Hr as (_ & _ & Hm). unfold_ops. cbn [mu set_mu] in Hm.
      rewrite Hm. intros [= _ <-]. reflexivity.
  - unfold bind at 1.
    destruct (SyncCache env proc s) as [b s1 | |] eqn:Hsync; try discriminate.
    unfold ret. intros [= <-].
    destruct (SyncCache_returns_inv proc s b s1 Hsync)
      as [(_ & Hm & _) | (_ & _ & entry & s2 & h0 & x0 & x1 & _ & _ & _ & _ & _ & _ & _ & Hins)].
    + congruence.
    + apply insertEntry_returns_mu in Hins. tauto.
Qed.

(** No operation leaks the lock: from a free lock, every sequence of
    operations that runs to its end leaves the lock free. *)
Theorem lock_is_free_after_any_run (ops : list Op) (s s' : State) :
  mu s = Unlocked ->
  steps env ops s = Returns tt s' ->
  mu s' = Unlocked.
Proof.
  revert s. induction ops as [| op ops IH]; intros s Hmu.
  - cbn [steps]. unfold ret. intros [= <-]. exact Hmu.
  - cbn [steps]. unfold bind at 1.
    destruct (step env op s) as [[] s1 | |] eqn:Hstep; try discriminate.
    apply IH. exact (step_returns_mu op s s1 Hmu Hstep).
Qed.

Lemma links_inv_same_links (s s1 : State) :
  links_inv s ->
  entryCache s1 = entryCache s ->
  (forall a x, heap s !! a = Some x ->
     exists x', heap s1 !! a = Some x'
                /\ Parent x' = Parent x /\ Children x' = Children x) ->
  links_inv s1.
Proof.
  intros (Hwf & Hlinks) Hc Hh. split.
  - intros k a. rewrite Hc. intros Hk.
    destruct (lookup_lt_is_Some_2 (heap s) a (Hwf _ _ Hk)) as [x Hx].
    destruct (Hh a x Hx) as (x' & Hx' & _). eapply lookup_lt_Some. exact Hx'.
  - intros k a x' parent Hk Hx' Hpar. rewrite Hc in Hk.
    destruct (lookup_lt_is_Some_2 (heap s) a (Hwf _ _ Hk)) as [x Hx].
    destruct (Hh a x Hx) as (x'' & Hx'' & Hp & _).
    assert (x'' = x') by congruence. subst x''.
    destruct (Hlinks k a x parent Hk Hx ltac:(congruence)) as (p & Hp0 & Hin).
    destruct (Hh parent p Hp0) as (p' & Hp' & _ & Hch).
    exists p'. split; [exact Hp' | rewrite Hch; exact Hin].
Qed.

Lemma links_inv_insertEntry (s : State) (pid : Z) (entry : addr) (s' : State) :
  links_inv s ->
  insertEntry pid entry s = Returns tt s' ->
  links_inv s'.
Proof.
  intros (Hwf & Hlinks) Hrun.
  destruct (insertEntry_returns_inv s pid entry s' Hrun) as (Hmu & e & He & _).
  assert (Hlt : (entry < length (heap s))%nat) by (eapply lookup_lt_Some; eauto).
  destruct (insertEntry_total s pid entry e Hmu He Hwf)
    as (s2 & e2 & Hrun2 & _ & _ & _ & _ & _ & _ & Hwf' & _).
  rewrite Hrun in Hrun2. injection Hrun2 as <-.
  destruct (insertEntry_after s pid entry e Hmu He Hwf)
    as (s2 & e' & Hrun2 & _ & _ & Hcache & He' & _ & Hpar & Hch & Hothers & Hnew).
  rewrite Hrun in Hrun2. injection Hrun2 as <-.
  split; [exact Hwf' |].
  intros k a x parent Hk Hx Hpx.
  destruct (decide (a = entry)) as [-> | Hae].
  - assert (x = e') by congruence. subst x. rewrite Hpar in Hpx.
    destruct (entryCache s !! PPid e) as [par |] eqn:Hc.
    + injection Hpx as ->.
      destruct (decide (parent = entry)) as [-> | Hpe].
      * exists e'. split; [exact He' |].
        rewrite Hch, decide_True by reflexivity.
        apply elem_of_app. right. apply list_elem_of_here.
      * destruct (lookup_lt_is_Some_2 (heap s) parent (Hwf _ _ Hc)) as [p Hp].
        destruct (Hothers parent p Hpe Hp) as (p' & Hp' & _ & _ & Hchp).
        exists p'. split; [exact Hp' |].
        rewrite Hchp, decide_True by reflexivity.
        apply elem_of_app. right. apply list_elem_of_here.
    + destruct (Z.leb_spec 1 (PPid e)) as [Hge | Hlt1]; [| discriminate].
      injection Hpx as <-.
      specialize (Hnew (length (heap s)) (Nat.le_refl _)).
      destruct (Z.leb_spec 1 (PPid e)); [| lia].
      rewrite bool_decide_eq_true_2 in Hnew by reflexivity. cbn [andb] in Hnew.
      eexists. split; [exact Hnew |]. cbn. apply list_elem_of_here.
  - assert (Hka : entryCache s !! k = Some a).
    { rewrite Hcache in Hk. rewrite lookup_insert in Hk.
      case_decide; [congruence |].
      destruct (entryCache s !! PPid e) eqn:Hc; [exact Hk |].
      destruct (Z.leb_spec 1 (PPid e)) as [Hge | Hlt1]; [| exact Hk].
      rewrite lookup_insert in Hk. case_decide; [| exact Hk].
      injection Hk as <-. exfalso.
      specialize (Hnew (length (heap s)) (Nat.le_refl _)).
      destruct (Z.leb_spec 1 (PPid e)); [| lia].
      rewrite bool_decide_eq_true_2 in Hnew by reflexivity. cbn [andb] in Hnew.
      rewrite Hnew in Hx. injection Hx as <-. discriminate. }
    destruct (lookup_lt_is_Some_2 (heap s) a (Hwf _ _ Hka)) as [x0 Hx0].
    destruct (Hothers a x0 Hae Hx0) as (x' & Hx' & _ & Hp & _).
    assert (x' = x) by congruence. subst x'.
    destruct (Hlinks k a x0 parent Hka Hx0 ltac:(congruence)) as (p0 & Hp0 & Hin).
    destruct (decide (parent = entry)) as [-> | Hpe].
    + assert (p0 = e) by congruence. subst p0.
      exists e'. split; [exact He' |]. rewrite Hch.
      destruct (decide (entryCache s !! PPid e = Some entry));
        [apply elem_of_app; left |]; exact Hin.
    + destruct (Hothers parent p0 Hpe Hp0) as (p' & Hp' & _ & _ & Hchp).
      exists p'. split; [exact Hp' |]. rewrite Hchp.
      destruct (decide (entryCache s !! PPid e = Some parent));
        [apply elem_of_app; left |]; exact Hin.
Qed.

Lemma links_inv_step (op : Op) (s s' : State) :
  links_inv s ->
  step env op s = Returns tt s' ->
  links_inv s'.
Proof.
  intros Hinv. destruct op as [e | pid entry | pid | pid | pid | proc]; cbn [step].
  - unfold_ops. exec. intros [= <-].
    apply (links_inv_same_links s _ Hinv); [reflexivity |].
    intros a x Hx. exists x. cbn [heap set_heap].
    split; [apply lookup_app_l_Some; exact Hx | split; reflexivity].
  - apply links_inv_insertEntry. exact Hinv.
  - unfold DelEntry. unfold_ops.
    destruct (mu s); try discriminate. exec. intros [= <-].
    destruct Hinv as (Hwf & Hlinks). split.
    + intros k a. cbn [entryCache heap set_entryCache set_mu]. intros Hk.
      apply lookup_delete_Some in Hk as [_ Hk]. exact (Hwf _ _ Hk).
    + intros k a x parent. cbn [entryCache heap set_entryCache set_mu].
      intros Hk Hx Hpar. apply lookup_delete_Some in Hk as [_ Hk].
      exact (Hlinks k a x parent Hk Hx Hpar).
  - unfold bind at 1.
    destruct (Get pid s) as [r s1 | |] eqn:Hget; try discriminate.
    apply Get_returns_frame in Hget as [Hc Hh]. unfold ret. intros [= <-].
    apply (links_inv_same_links s _ Hinv Hc). intros a x Hx. exists x.
    rewrite Hh. auto.
  - unfold bind at 1.
    destruct (Resolve env pid s) as [r s1 | |] eqn:Hres; try discriminate.
    apply Resolve_returns_frame in Hres as [Hc Hh]. unfold ret. intros [= <-].
    apply (links_inv_same_links s _ Hinv Hc). intros a x Hx. exists x.
    rewrite Hh. auto.
  - unfold bind at 1.
    destruct (SyncCache env proc s) as [b s1 | |] eqn:Hsync; try discriminate.
    unfold ret. intros [= <-].
    destruct (SyncCache_returns_inv proc s b s1 Hsync)
      as [(_ & _ & Hc & Hh)
         | (_ & _ & entry & s2 & h0 & x0 & x1 & _ & Hc & Hh0 & Hx0 & Hh2 & Hpar & Hch & Hins)].
    + apply (links_inv_same_links s _ Hinv Hc). intros a x Hx. exists x.
      destruct Hh as [-> | ->]; [auto |].
      split; [apply lookup_app_l_Some; exact Hx | auto].
    + apply (links_inv_insertEntry s2 (uint32 (proc_Pid proc)) entry); [| exact Hins].
      apply (links_inv_same_links s _ Hinv Hc). intros a x Hx. rewrite Hh2.
      assert (Ha0 : h0 !! a = Some x).
      { destruct Hh0 as [-> | [-> _]]; [exact Hx | apply lookup_app_l_Some; exact Hx]. }
      destruct (decide (a = entry)) as [-> | Hae].
      * exists x1. split.
        -- apply list_lookup_insert_eq. eapply lookup_lt_Some. exact Hx0.
        -- assert (x0 = x) by congruence. subst x0. auto.
      * exists x. rewrite list_lookup_insert_ne by congruence. auto.
Qed.

(** Parent pointers are backed by child lists. On a fresh resolver, and then
    after every sequence of operations that runs to its end, every cached
    pointer is live and the parent pointer of every cached entry leads to an
    entry that has it in its child list. *)
Theorem parent_links_are_backed :
  links_inv NewProcessResolver
  /\ forall (ops : list Op) (s s' : State),
       links_inv s ->
       steps env ops s = Returns tt s' ->
       links_inv s'.
Proof.
  split.
  - split.
    + intros k a Hk. cbn in Hk. rewrite lookup_empty in Hk. discriminate.
    + intros k a x parent Hk. cbn in Hk. rewrite lookup_empty in Hk. discriminate.
  - intros ops. induction ops as [| op ops IH]; intros s s' Hinv.
    + cbn [steps]. unfold ret. intros [= <-]. exact Hinv.
    + cbn [steps]. unfold bind at 1.
      destruct (step env op s) as [[] s1 | |] eqn:Hstep; try discriminate.
      apply IH. exact (links_inv_step op s s1 Hinv Hstep).
Qed.

End Invariants.

(** * Feature detection *)

Section FeatureDetection.

Import config.

Local Set Warnings "-clear-no-such-hyp".

Variable host : Host.

Lemma detect_stages (st : Detected) :
  detectContainerFeatures host st
  = orchestrator_stage host
      (cri_stage (cri_socket host (docker_stage host (docker_socket host) st))
         (docker_stage host (docker_socket host) st)).
Proof. reflexivity. Qed.

Lemma docker_stage_features (dockerPath : string) (st : Detected) :
  detectedFeatures (docker_stage host dockerPath st)
  = (if DockerHostSet host || StatOk host dockerPath
     then {[ Docker ]} ∪ detectedFeatures st else detectedFeatures st).
Proof.
  unfold docker_stage. destruct (DockerHostSet host), (StatOk host dockerPath); reflexivity.
Qed.

Lemma cri_stage_features (criSocket : string) (st : Detected) :
  detectedFeatures (cri_stage criSocket st)
  = (if bool_decide (criSocket ≠ "")
     then (if Contains criSocket "containerd" then {[ Containerd ]} else ∅)
          ∪ {[ Cri ]} ∪ detectedFeatures st
     else detectedFeatures st).
Proof.
  unfold cri_stage. destruct (bool_decide (criSocket ≠ "")); [| reflexivity].
  destruct (Contains criSocket "containerd"); cbn [detectedFeatures add AddOverride];
    set_solver.
Qed.

Lemma orchestrator_stage_features (st : Detected) :
  detectedFeatures (orchestrator_stage host st)
  = (if eks_fargate host then {[ Kubernetes; EKSFargate ]} else ∅)
    ∪ (if IsECSFargate host then {[ ECSFargate ]} else ∅)
    ∪ (if IsKubernetes host then {[ Kubernetes ]} else ∅)
    ∪ detectedFeatures st.
Proof.
  unfold orchestrator_stage.
  destruct (eks_fargate host), (IsECSFargate host), (IsKubernetes host);
    cbn [detectedFeatures add]; set_solver.
Qed.

(** Detection only adds features, and keeps the two implications between
    them: Containerd is only ever present with Cri, and EKSFargate with
    Kubernetes. *)
Theorem detection_keeps_features_coherent (st : Detected) :
  coherent (detectedFeatures st) ->
  coherent (detectedFeatures (detectContainerFeatures host st))
  /\ detectedFeatures st ⊆ detectedFeatures (detectContainerFeatures host st).
Proof.
  unfold coherent. intros [Hc He].
  rewrite detect_stages, orchestrator_stage_features, cri_stage_features,
    docker_stage_features.
  generalize (cri_socket host (docker_stage host (docker_socket host) st)).
  intros criSocket.
  destruct (eks_fargate host), (IsECSFargate host), (IsKubernetes host),
    (bool_decide (criSocket ≠ "")), (Contains criSocket "containerd"),
    (DockerHostSet host || StatOk host (docker_socket host));
    (split; [split |]); set_solver.
Qed.

Lemma detect_overrides (st : Detected) :
  overrides (detectContainerFeatures host st)
  = overrides st
    ++ (if negb (DockerHostSet host) && StatOk host (docker_socket host)
        then [OverrideSetenv "DOCKER_HOST" (String.append "unix://" (docker_socket host))]
        else [])
    ++ (if bool_decide
             (cri_socket host (docker_stage host (docker_socket host) st) ≠ "")
        then [OverrideValue "cri_socket_path"
                (cri_socket host (docker_stage host (docker_socket host) st))]
        else []).
Proof.
  rewrite detect_stages.
  generalize (cri_socket host (docker_stage host (docker_socket host) st)).
  intros criSocket.
  unfold orchestrator_stage, cri_stage, docker_stage.
  destruct (eks_fargate host), (IsECSFargate host), (IsKubernetes host),
    (bool_decide (criSocket ≠ "")), (Contains criSocket "containerd"),
    (DockerHostSet host), (StatOk host (docker_socket host));
    cbn [overrides add AddOverride negb andb];
    rewrite ?app_nil_r, <- ?app_assoc; reflexivity.
Qed.

Lemma detect_features (st : Detected) :
  detectedFeatures (detectContainerFeatures host st)
  = (if eks_fargate host then {[ Kubernetes; EKSFargate ]} else ∅)
    ∪ (if IsECSFargate host then {[ ECSFargate ]} else ∅)
    ∪ (if IsKubernetes host then {[ Kubernetes ]} else ∅)
    ∪ (if bool_decide
            (cri_socket host (docker_stage host (docker_socket host) st) ≠ "")
       then (if Contains (cri_socket host (docker_stage host (docker_socket host) st))
                  "containerd"
             then {[ Containerd ]} else ∅)
            ∪ {[ Cri ]}
            ∪ (if DockerHostSet host || StatOk host (docker_socket host)
               then {[ Docker ]} ∪ detectedFeatures st else detectedFeatures st)
       else (if DockerHostSet host || StatOk host (docker_socket host)
             then {[ Docker ]} ∪ detectedFeatures st else detectedFeatures st)).
Proof.
  rewrite detect_stages, orchestrator_stage_features, cri_stage_features,
    docker_stage_features. reflexivity.
Qed.

Lemma length_zero_empty (str : string) :
  (String.length str =? 0)%nat = bool_decide (str = "").
Proof. destruct str; reflexivity. Qed.

(** Whether Docker is present once the docker part has run. *)
Lemma docker_present_after_stage (st : Detected) :
  IsFeaturePresent Docker (docker_stage host (docker_socket host) st)
  = bool_decide (Docker ∈ detectedFeatures st)
    || DockerHostSet host || StatOk host (docker_socket host).
Proof.
  unfold IsFeaturePresent. rewrite docker_stage_features.
  destruct (DockerHostSet host), (StatOk host (docker_socket host));
    cbn [orb]; rewrite ?orb_true_r, ?orb_false_r;
    try (apply bool_decide_eq_true_2; set_solver); reflexivity.
Qed.

Lemma docker_in_detected (st : Detected) :
  Docker ∈ detectedFeatures (detectContainerFeatures host st)
  <-> (Docker ∈ detectedFeatures st
       \/ DockerHostSet host = true
       \/ StatOk host (docker_socket host) = true).
Proof.
  rewrite detect_features.
  generalize (cri_socket host (docker_stage host (docker_socket host) st)).
  intros criSocket.
  destruct (eks_fargate host), (IsECSFargate host), (IsKubernetes host),
    (bool_decide (criSocket ≠ "")), (Contains criSocket "containerd"),
    (DockerHostSet host), (StatOk host (docker_socket host));
    cbn [orb]; set_unfold; naive_solver.
Qed.

(** Docker: the feature is there afterwards exactly when it was there
    before, [DOCKER_HOST] is set, or the docker socket exists; and the one
    override of [DOCKER_HOST] detection may ask for is asked for exactly
    when [DOCKER_HOST] is not set and the socket exists, with the socket as
    a unix URL: a [DOCKER_HOST] that is set is never overridden. *)
Theorem docker_detection (st : Detected) :
  (Docker ∈ detectedFeatures (detectContainerFeatures host st)
   <-> (Docker ∈ detectedFeatures st
        \/ DockerHostSet host = true
        \/ StatOk host (docker_socket host) = true))
  /\ exists added,
       overrides (detectContainerFeatures host st) = overrides st ++ added
       /\ forall name value,
            OverrideSetenv name value ∈ added
            <-> (DockerHostSet host = false
                 /\ StatOk host (docker_socket host) = true
                 /\ name = "DOCKER_HOST"
                 /\ value = String.append "unix://" (docker_socket host)).
Proof.
  split; [apply docker_in_detected |].
  eexists. split; [apply detect_overrides |].
  intros name value.
  destruct (DockerHostSet host), (StatOk host (docker_socket host)),
    (bool_decide (cri_socket host (docker_stage host (docker_socket host) st) ≠ ""));
    cbn [negb andb app]; set_unfold; naive_solver.
Qed.

(** With no CRI socket configured, Docker switches the CRI detection off:
    when Docker is among the features after detection, the run has added
    neither Cri nor Containerd and has asked for no override of
    [cri_socket_path], whatever sockets exist. *)
Theorem docker_suppresses_cri_autodetect (st : Detected) :
  cri_socket_path host = "" ->
  Docker ∈ detectedFeatures (detectContainerFeatures host st) ->
  (Cri ∈ detectedFeatures (detectContainerFeatures host st)
   <-> Cri ∈ detectedFeatures st)
  /\ (Containerd ∈ detectedFeatures (detectContainerFeatures host st)
      <-> Containerd ∈ detectedFeatures st)
  /\ exists added,
       overrides (detectContainerFeatures host st) = overrides st ++ added
       /\ forall value, OverrideValue "cri_socket_path" value ∉ added.
Proof.
  intros Hcfg Hdocker.
  assert (Hsock : cri_socket host (docker_stage host (docker_socket host) st) = "").
  { unfold cri_socket. rewrite docker_present_after_stage, Hcfg.
    apply docker_in_detected in Hdocker.
    destruct Hdocker as [Hd | [-> | ->]];
      [rewrite (bool_decide_eq_true_2 _ Hd) | ..];
      cbn [orb negb andb]; rewrite ?orb_true_r, ?andb_false_r; reflexivity. }
  split; [| split].
  - rewrite detect_features, Hsock. cbn [bool_decide decide_rel].
    rewrite bool_decide_eq_false_2 by (intros H; apply H; reflexivity).
    destruct (eks_fargate host), (IsECSFargate host), (IsKubernetes host),
      (DockerHostSet host || StatOk host (docker_socket host));
      set_unfold; naive_solver.
  - rewrite detect_features, Hsock.
    rewrite bool_decide_eq_false_2 by (intros H; apply H; reflexivity).
    destruct (eks_fargate host), (IsECSFargate host), (IsKubernetes host),
      (DockerHostSet host || StatOk host (docker_socket host));
      set_unfold; naive_solver.
  - eexists. split; [apply detect_overrides |].
    rewrite Hsock. rewrite bool_decide_eq_false_2 by (intros H; apply H; reflexivity).
    intros value.
    destruct (negb (DockerHostSet host) && StatOk host (docker_socket host));
      set_unfold; naive_solver.
Qed.

(** A configured CRI socket wins: when [cri_socket_path] is configured,
    detection declares Cri, asks for exactly one override of
    [cri_socket_path], to the configured value, and declares Containerd when
    that value contains "containerd"; no socket on disk and no Docker
    changes that. *)
Theorem configured_cri_socket_wins (st : Detected) :
  cri_socket_path host ≠ "" ->
  Cri ∈ detectedFeatures (detectContainerFeatures host st)
  /\ (Containerd ∈ detectedFeatures (detectContainerFeatures host st)
      <-> (Containerd ∈ detectedFeatures st
           \/ Contains (cri_socket_path host) "containerd" = true))
  /\ exists added,
       overrides (detectContainerFeatures host st) = overrides st ++ added
       /\ forall value,
            OverrideValue "cri_socket_path" value ∈ added
            <-> value = cri_socket_path host.
Proof.
  intros Hcfg.
  assert (Hsock : cri_socket host (docker_stage host (docker_socket host) st)
                  = cri_socket_path host).
  { unfold cri_socket. rewrite length_zero_empty.
    rewrite (bool_decide_eq_false_2 _ Hcfg). reflexivity. }
  split; [| split].
  - rewrite detect_features, Hsock, (bool_decide_eq_true_2 _ Hcfg).
    set_unfold. naive_solver.
  - rewrite detect_features, Hsock, (bool_decide_eq_true_2 _ Hcfg).
    destruct (eks_fargate host), (IsECSFargate host), (IsKubernetes host),
      (Contains (cri_socket_path host) "containerd"),
      (DockerHostSet host || StatOk host (docker_socket host));
      set_unfold; naive_solver.
  - eexists. split; [apply detect_overrides |].
    rewrite Hsock, (bool_decide_eq_true_2 _ Hcfg). intros value.
    destruct (negb (DockerHostSet host) && StatOk host (docker_socket host));
      set_unfold; naive_solver.
Qed.

End FeatureDetection.

(** * HTTP transactions and batches *)

Section HttpFragments.

Import http.

Local Set Warnings "-clear-no-such-hyp".

Lemma skip_no_space (m : list byte) (i : nat) :
  space ∉ m -> skip m i = (i + length m)%nat.
Proof.
  revert i. induction m as [| c m IH]; intros i Hm; cbn [skip length].
  - lia.
  - destruct (Byte.eqb c space) eqn:Hc.
    + apply Byte.byte_dec_bl in Hc. subst c. exfalso. apply Hm. left.
    + rewrite IH by (intros H; apply Hm; right; exact H). lia.
Qed.

Lemma skip_to_space (m rest : list byte) (i : nat) :
  space ∉ m -> skip (m ++ space :: rest) i = (i + length m)%nat.
Proof.
  revert i. induction m as [| c m IH]; intros i Hm; cbn [skip length app].
  - change (Byte.eqb space space) with true. lia.
  - destruct (Byte.eqb c space) eqn:Hc.
    + apply Byte.byte_dec_bl in Hc. subst c. exfalso. apply Hm. left.
    + rewrite IH by (intros H; apply Hm; right; exact H). lia.
Qed.

(** Every buffer is a run without space, followed by nothing or by a space
    and the rest. *)
Lemma split_at_space (b : list byte) :
  exists m, (space ∉ m) /\ (b = m \/ exists rest, b = m ++ space :: rest).
Proof.
  induction b as [| c b (m & Hm & IH)].
  - exists []. split; [set_solver | left; reflexivity].
  - destruct (Byte.eqb c space) eqn:Hc.
    + apply Byte.byte_dec_bl in Hc. subst c.
      exists []. split; [set_solver | right; exists b; reflexivity].
    + assert (c <> space).
      { intros ->. discriminate Hc. }
      exists (c :: m). split; [set_solver |].
      destruct IH as [-> | [rest ->]]; [left | right; exists rest]; reflexivity.
Qed.

Lemma Path_no_space_run (b : list byte) :
  space ∉ b -> Path b = Done [].
Proof.
  intros Hb. unfold Path. rewrite (skip_no_space _ _ Hb).
  rewrite drop_ge by (cbn; lia). cbn [skip].
  rewrite (proj2 (Nat.ltb_ge _ _)) by lia. reflexivity.
Qed.

Lemma Path_to_end_run (m p : list byte) :
  space ∉ m -> space ∉ p -> Path (m ++ space :: p) = Done p.
Proof.
  intros Hm Hp. unfold Path. rewrite (skip_to_space _ _ _ Hm).
  replace (S (0 + length m)) with (length (m ++ [space]))
    by (rewrite length_app; cbn; lia).
  replace (m ++ space :: p) with ((m ++ [space]) ++ p)
    by (rewrite <- app_assoc; reflexivity).
  rewrite drop_app_length, (skip_no_space _ _ Hp).
  destruct p as [| c p].
  - rewrite (proj2 (Nat.ltb_ge _ _)) by (cbn; lia). reflexivity.
  - rewrite (proj2 (Nat.ltb_lt _ _)) by (cbn; lia).
    rewrite (proj2 (Nat.leb_le _ _)) by (rewrite !length_app; cbn [length]; lia).
    cbn [andb]. rewrite slice_in_range by (rewrite ?length_app; cbn [length]; lia).
    rewrite Nat2Z.id, drop_app_length.
    rewrite take_ge by lia. reflexivity.
Qed.

Lemma Path_between_run (m p rest : list byte) :
  space ∉ m -> space ∉ p -> Path (m ++ space :: p ++ space :: rest) = Done p.
Proof.
  intros Hm Hp. unfold Path. rewrite (skip_to_space _ _ _ Hm).
  replace (S (0 + length m)) with (length (m ++ [space]))
    by (rewrite length_app; cbn; lia).
  replace (m ++ space :: p ++ space :: rest)
    with ((m ++ [space]) ++ p ++ space :: rest)
    by (rewrite <- app_assoc; reflexivity).
  rewrite drop_app_length, (skip_to_space _ _ _ Hp).
  destruct p as [| c p].
  - rewrite (proj2 (Nat.ltb_ge _ _)) by (cbn; lia). reflexivity.
  - rewrite (proj2 (Nat.ltb_lt _ _)) by (cbn; lia).
    rewrite (proj2 (Nat.leb_le _ _)) by (rewrite !length_app; cbn [length]; lia).
    cbn [andb]. rewrite slice_in_range by (rewrite ?length_app; cbn [length]; lia).
    rewrite Nat2Z.id, drop_app_length.
    replace (Z.to_nat _) with (length (c :: p)) by lia.
    rewrite take_app_length. reflexivity.
Qed.

(** The request fragment [GET /foo HTTP/1.1]: the path is what stands
    between the first space and the second one, and runs to the end of the
    buffer when no second space was captured. *)
Theorem Path_of_a_request_line (m p rest : list byte) :
  space ∉ m -> space ∉ p ->
  Path (m ++ space :: p ++ space :: rest) = Done p
  /\ Path (m ++ space :: p) = Done p.
Proof.
  intros Hm Hp. split;
    [apply Path_between_run | apply Path_to_end_run]; assumption.
Qed.

(** [Path] never indexes out of the buffer, whatever was captured: it
    returns a stretch of the buffer that holds no space and is shorter than
    the buffer (the empty string for a buffer without space). *)
Theorem Path_never_panics (b : list byte) :
  exists p, Path b = Done p
            /\ (space ∉ p)
            /\ (exists before after, b = before ++ p ++ after)
            /\ (length p <= length b - 1)%nat.
Proof.
  destruct (split_at_space b) as (m & Hm & [-> | [b' ->]]).
  - exists []. split; [apply Path_no_space_run; exact Hm |].
    split; [set_solver |]. split; [| cbn; lia].
    exists [], m. reflexivity.
  - destruct (split_at_space b') as (p & Hp & [-> | [rest ->]]).
    + exists p. split; [apply Path_to_end_run; assumption |].
      split; [exact Hp |]. split; [| rewrite length_app; cbn; lia].
      exists (m ++ [space]), []. rewrite app_nil_r, <- app_assoc. reflexivity.
    + exists p. split; [apply Path_between_run; assumption |].
      split; [exact Hp |]. split; [| rewrite !length_app; cbn; rewrite length_app; cbn; lia].
      exists (m ++ [space]), (space :: rest). rewrite <- app_assoc. reflexivity.
Qed.

(** [StatusClass] of a status code (never negative) is the hundred at or
    below it. *)
Theorem StatusClass_is_the_hundred_below (status_code : Z) :
  0 <= status_code ->
  exists k, 0 <= k
            /\ StatusClass status_code = 100 * k
            /\ StatusClass status_code <= status_code < StatusClass status_code + 100.
Proof.
  intros H. unfold StatusClass. rewrite Z.quot_div_nonneg by lia.
  exists (status_code / 100). pose proof (Z.div_pos status_code 100).
  pose proof (Z.mul_div_le status_code 100).
  pose proof (Z.mul_succ_div_gt status_code 100). lia.
Qed.

(** Go's [int] conversion is the identity below 2^63. *)
Lemma int_small (z : Z) : 0 <= z < 2 ^ 63 -> int z = z.
Proof.
  intros H. unfold int, int64. cbv zeta.
  rewrite Z.mod_small by lia.
  destruct (Z.ltb_spec z (2 ^ 63)); lia.
Qed.

(** In the range where nothing wraps, the page is the batch index modulo
    the number of pages. *)
Lemma GetTransactions_small (HTTPBatchSize HTTPBatchPages txs_len batch_idx : Z) :
  0 < HTTPBatchSize -> 0 < HTTPBatchPages ->
  HTTPBatchPages * HTTPBatchSize <= txs_len < 2 ^ 63 ->
  0 <= batch_idx < 2 ^ 63 ->
  GetTransactions HTTPBatchSize HTTPBatchPages txs_len batch_idx
  = Done (batch_idx mod HTTPBatchPages * HTTPBatchSize)
  /\ 0 <= batch_idx mod HTTPBatchPages * HTTPBatchSize
  /\ batch_idx mod HTTPBatchPages * HTTPBatchSize + HTTPBatchSize <= txs_len.
Proof.
  intros Hs Hp Hlen Hb.
  pose proof (Z.mod_pos_bound batch_idx HTTPBatchPages Hp) as Hm.
  assert (Hoff : 0 <= batch_idx mod HTTPBatchPages * HTTPBatchSize
                 /\ batch_idx mod HTTPBatchPages * HTTPBatchSize + HTTPBatchSize
                    <= HTTPBatchPages * HTTPBatchSize) by nia.
  split; [| lia].
  unfold GetTransactions. cbv zeta.
  rewrite (int_small batch_idx) by lia.
  rewrite Z.rem_mod_nonneg by lia.
  rewrite int_small by lia.
  destruct (Z.leb_spec 0 (batch_idx mod HTTPBatchPages * HTTPBatchSize)); [| lia].
  destruct (Z.ltb_spec (batch_idx mod HTTPBatchPages * HTTPBatchSize) txs_len); [| lia].
  reflexivity.
Qed.

Lemma IsDirty_small (HTTPBatchPages idx batch_idx : Z) :
  0 < HTTPBatchPages -> 0 <= batch_idx <= idx -> idx + HTTPBatchPages < 2 ^ 63 ->
  IsDirty HTTPBatchPages idx batch_idx = (batch_idx + HTTPBatchPages <=? idx).
Proof.
  intros Hp Hb Hi. unfold IsDirty.
  rewrite (int_small batch_idx), (int_small idx), int_small by lia. reflexivity.
Qed.

(** Two batch indices less than the number of pages apart are on different
    pages. *)
Lemma pages_differ (HTTPBatchPages b later : Z) :
  0 < HTTPBatchPages -> b < later < b + HTTPBatchPages ->
  b mod HTTPBatchPages ≠ later mod HTTPBatchPages.
Proof.
  intros Hp Hl Heq.
  pose proof (Z.div_mod b HTTPBatchPages ltac:(lia)) as Hb.
  pose proof (Z.div_mod later HTTPBatchPages ltac:(lia)) as Hlater.
  rewrite <- Heq in Hlater.
  assert (Hd : later - b = HTTPBatchPages * (later / HTTPBatchPages - b / HTTPBatchPages))
    by lia.
  destruct (Z.le_gt_cases (later / HTTPBatchPages - b / HTTPBatchPages) 0); nia.
Qed.

(** The pages of a batch, for counters in the range where Go's [int] does
    not wrap around and an array [batch.txs] of at least
    [HTTPBatchPages * HTTPBatchSize] transactions. [GetTransactions] does
    not panic, and the [HTTPBatchSize] transactions of the page it points at
    lie inside the array. As long as [IsDirty] says the page is clean, no
    later batch up to the current one uses a page that overlaps it; and
    when [IsDirty] says it is dirty, the batch [HTTPBatchPages] later, which
    has been started, uses exactly that page. *)
Theorem GetTransactions_page_in_range
    (HTTPBatchSize HTTPBatchPages txs_len batch_idx idx : Z) :
  0 < HTTPBatchSize -> 0 < HTTPBatchPages ->
  HTTPBatchPages * HTTPBatchSize <= txs_len < 2 ^ 63 ->
  0 <= batch_idx <= idx -> idx + HTTPBatchPages < 2 ^ 63 ->
  exists off,
    GetTransactions HTTPBatchSize HTTPBatchPages txs_len batch_idx = Done off
    /\ 0 <= off
    /\ off + HTTPBatchSize <= txs_len
    /\ (IsDirty HTTPBatchPages idx batch_idx = false ->
        forall later,
          batch_idx < later <= idx ->
          exists off',
            GetTransactions HTTPBatchSize HTTPBatchPages txs_len later = Done off'
            /\ (off' + HTTPBatchSize <= off \/ off + HTTPBatchSize <= off'))
    /\ (IsDirty HTTPBatchPages idx batch_idx = true ->
        batch_idx + HTTPBatchPages <= idx
        /\ GetTransactions HTTPBatchSize HTTPBatchPages txs_len
             (batch_idx + HTTPBatchPages)
           = Done off).
Proof.
  intros Hs Hp Hlen Hb Hi.
  destruct (GetTransactions_small HTTPBatchSize HTTPBatchPages txs_len batch_idx
              Hs Hp Hlen ltac:(lia)) as (Hrun & H0 & Hin).
  eexists. split; [exact Hrun | split; [exact H0 | split; [exact Hin |]]].
  rewrite (IsDirty_small HTTPBatchPages idx batch_idx Hp Hb Hi).
  split.
  - intros Hclean later Hl. apply Z.leb_gt in Hclean.
    destruct (GetTransactions_small HTTPBatchSize HTTPBatchPages txs_len later
                Hs Hp Hlen ltac:(lia)) as (Hrun' & _ & _).
    eexists. split; [exact Hrun' |].
    pose proof (pages_differ HTTPBatchPages batch_idx later Hp ltac:(lia)).
    nia.
  - intros Hdirty. apply Z.leb_le in Hdirty. split; [exact Hdirty |].
    destruct (GetTransactions_small HTTPBatchSize HTTPBatchPages txs_len
                (batch_idx + HTTPBatchPages) Hs Hp Hlen ltac:(lia)) as (Hrun' & _ & _).
    rewrite Hrun'. do 2 f_equal.
    replace (batch_idx + HTTPBatchPages) with (batch_idx + 1 * HTTPBatchPages) by lia.
    apply Z.mod_add. lia.
Qed.

End HttpFragments.

(** * Concrete runs *)

(** What /proc and the tables of [Example.env] say about pids 7 and 10 makes
    their enrichment succeed. *)
Lemma Example_enrich_ok (proc : FilledProcess) :
  proc = Example.proc7 \/ proc = Example.proc10 ->
  enrich_ok Example.env proc "/usr/bin/app" 1234 Example.info1234 "c0ffee".
Proof.
  intros [-> | ->];
    (split; [reflexivity |]; split; [discriminate |]; split; [reflexivity |];
     split; [| reflexivity];
     exists Example.inode1234; split; vm_compute; reflexivity).
Qed.

Lemma Example_s0_wf : cache_wf Example.s0.
Proof. intros k a Hk. vm_compute in Hk. discriminate. Qed.

(** A resolver with pid 10 cached as a placeholder that has one child. *)
Lemma placeholder10_wf :
  cache_wf (mkState Unlocked {[ 10 := 0%nat ]}
              [set_Children [5%nat] (set_Pid 10 zeroEntry)] []).
Proof.
  intros k a Hk. cbn [entryCache heap] in *.
  apply lookup_singleton_Some in Hk as [_ <-]. cbn. lia.
Qed.

(** [AddEntry_then_Get] on a fresh resolver: pid 20 is added and read back. *)
Lemma AddEntry_then_Get_witness :
  exists s1 e',
    AddEntry 20 0%nat Example.s0 = Returns tt s1
    /\ Get 20 s1 = Returns (Some 0%nat) s1
    /\ heap s1 !! 0%nat = Some e'
    /\ data_of e' = data_of Example.e20
    /\ Pid e' = Pid Example.e20
    /\ PPid e' = PPid Example.e20.
Proof.
  apply (AddEntry_then_Get Example.s0 20 0%nat Example.e20);
    [reflexivity | reflexivity | exact Example_s0_wf].
Defined.

(** [insertEntry_frame] on the insert of pid 20 over the cached family:
    the parent under pid 10 gets the child once more, the entry of pid 10 is
    otherwise as it was. *)
Lemma insertEntry_frame_witness :
  exists s1,
    insertEntry 20 0%nat Example.s_family = Returns tt s1
    /\ calls s1 = calls Example.s_family
    /\ entryCache s1 !! 10 = Some 1%nat
    /\ heap s1 !! 1%nat
       = Some (set_Children (Children Example.parent10 ++ [0%nat]) Example.parent10).
Proof.
  destruct (insertEntry_frame Example.s_family 20 0%nat Example.child20 eq_refl eq_refl)
    as (s1 & Hrun & Hcalls & _ & Hslot & Hparent & _).
  - intros k a Hk. cbn [entryCache Example.s_family] in Hk.
    apply lookup_insert_Some in Hk as [[_ <-] | [_ Hk]]; [cbn; lia |].
    apply lookup_insert_Some in Hk as [[_ <-] | [_ Hk]]; [cbn; lia |].
    rewrite lookup_empty in Hk. discriminate.
  - exists s1. split; [exact Hrun | split; [exact Hcalls | split]].
    + apply (Hslot 1%nat); [vm_compute; discriminate | reflexivity].
    + apply (Hparent 1%nat Example.parent10); [discriminate | reflexivity | reflexivity].
Defined.

(** [insertEntry_links_both_ways] on the same insert: pid 20 points at the
    placeholder of pid 10, whose last child it is. *)
Lemma insertEntry_links_both_ways_witness :
  exists s1 e',
    insertEntry 20 0%nat Example.s0 = Returns tt s1
    /\ heap s1 !! 0%nat = Some e'
    /\ Parent e' = entryCache s1 !! PPid Example.e20
    /\ match entryCache s1 !! PPid Example.e20 with
       | Some parent =>
           exists p, heap s1 !! parent = Some p /\ last (Children p) = Some 0%nat
       | None => PPid Example.e20 < 1
       end.
Proof.
  apply (insertEntry_links_both_ways Example.s0 20 0%nat Example.e20);
    [reflexivity | reflexivity | exact Example_s0_wf | discriminate].
Defined.

(** [Get_is_a_peek] on the cached family. *)
Lemma Get_is_a_peek_witness :
  Get 20 Example.s_family
  = Returns (entryCache Example.s_family !! 20) Example.s_family.
Proof.
  apply (proj1 (Get_is_a_peek Example.s_family 20)). left. reflexivity.
Defined.

(** [DelEntry_absent_or_twice] on the cached family. *)
Lemma DelEntry_absent_or_twice_witness :
  DelEntry 5 Example.s_family = Returns tt Example.s_family
  /\ (DelEntry 20 >> DelEntry 20) Example.s_family = DelEntry 20 Example.s_family.
Proof.
  split.
  - apply (proj1 (DelEntry_absent_or_twice Example.s_family 5 eq_refl)).
    reflexivity.
  - apply (proj2 (DelEntry_absent_or_twice Example.s_family 20 eq_refl)).
Defined.

(** [Resolve_cache_hit]: pid 10 of the cached family. *)
Lemma Resolve_cache_hit_witness :
  Resolve Example.env 10 Example.s_family = Returns (Some 1%nat) Example.s_family.
Proof.
  apply (Resolve_cache_hit Example.env Example.s_family 10 1%nat);
    [reflexivity | reflexivity].
Defined.

(** [Resolve_returns_only_cached]: pid 43, unknown to the cache and to the
    kernel tables, on a fresh resolver. *)
Lemma Resolve_returns_only_cached_witness :
  exists s',
    Resolve Example.env 43 Example.s0 = Returns None s'
    /\ None = entryCache Example.s0 !! 43
    /\ entryCache s' = entryCache Example.s0
    /\ heap s' = heap Example.s0
    /\ mu Example.s0 = Unlocked
    /\ mu s' = Unlocked.
Proof.
  eexists. split; [vm_compute; reflexivity |].
  apply (Resolve_returns_only_cached Example.env Example.s0 43 None).
  vm_compute. reflexivity.
Defined.

(** [enrichEventFromProc_fields]: pid 7 into a blank entry. *)
Lemma enrichEventFromProc_fields_witness :
  exists s' e',
    enrichEventFromProc Example.env 0%nat Example.proc7
      (set_heap [zeroEntry] NewProcessResolver)
    = Returns None s'
    /\ heap s' !! 0%nat = Some e'
    /\ Pid e' = 7
    /\ PPid e' = 1
    /\ Comm e' = "app"
    /\ ContainerID e' = "c0ffee"
    /\ IsZero (ExecTimestamp e') = false.
Proof.
  destruct (enrichEventFromProc_fields Example.env Example.proc7 0%nat zeroEntry
              (set_heap [zeroEntry] NewProcessResolver)
              "/usr/bin/app" 1234 Example.info1234 "c0ffee"
              (Example_enrich_ok Example.proc7 (or_introl eq_refl)) eq_refl)
    as (s' & e' & Hrun & Hheap & _ & _ & _ & Hpid & _ & Hppid & Hcomm & Hcid
        & _ & _ & _ & Hts & _).
  exists s', e'. repeat split; assumption.
Defined.

(** [SyncCache_twice]: pid 7 on a fresh resolver. *)
Lemma SyncCache_twice_witness :
  exists s',
    SyncCache Example.env Example.proc7 NewProcessResolver = Returns true s'
    /\ SyncCache Example.env Example.proc7 s' = Returns false s'.
Proof.
  apply (SyncCache_twice Example.env Example.proc7 NewProcessResolver
           "/usr/bin/app" 1234 Example.info1234 "c0ffee").
  - vm_compute. discriminate.
  - reflexivity.
  - intros k a Hk. vm_compute in Hk. discriminate.
  - vm_compute. exact I.
  - apply Example_enrich_ok. left. reflexivity.
Defined.

(** [SyncCache_fills_in_place]: pid 10, cached as a placeholder with a
    child. *)
Lemma SyncCache_fills_in_place_witness :
  exists s' e',
    SyncCache Example.env Example.proc10
      (mkState Unlocked {[ 10 := 0%nat ]}
         [set_Children [5%nat] (set_Pid 10 zeroEntry)] [])
    = Returns true s'
    /\ entryCache s' !! 10 = Some 0%nat
    /\ heap s' !! 0%nat = Some e'
    /\ Children e' = [5%nat]
    /\ Comm e' = "parent"
    /\ IsZero (ExecTimestamp e') = false.
Proof.
  destruct (SyncCache_fills_in_place Example.env Example.proc10
              (mkState Unlocked {[ 10 := 0%nat ]}
                 [set_Children [5%nat] (set_Pid 10 zeroEntry)] [])
              0%nat (set_Children [5%nat] (set_Pid 10 zeroEntry))
              "/usr/bin/app" 1234 Example.info1234 "c0ffee")
    as (s' & e' & Hrun & Hslot & Hheap & Hch & Hcomm & Hts & _).
  - vm_compute. discriminate.
  - reflexivity.
  - exact placeholder10_wf.
  - reflexivity.
  - reflexivity.
  - reflexivity.
  - apply Example_enrich_ok. right. reflexivity.
  - exists s', e'. repeat split; assumption.
Defined.

(** [child_first_then_SyncCache_parent]: the child pid 20 is added, then the
    snapshot of its parent pid 10 arrives. *)
Lemma child_first_then_SyncCache_parent_witness :
  exists s' parent real c',
    (AddEntry 20 0%nat >> SyncCache Example.env Example.proc10) Example.s0
    = Returns true s'
    /\ entryCache s' !! PPid Example.e20 = Some parent
    /\ heap s' !! parent = Some real
    /\ IsZero (ExecTimestamp real) = false
    /\ Children real = [0%nat]
    /\ entryCache s' !! 20 = Some 0%nat
    /\ heap s' !! 0%nat = Some c'
    /\ Parent c' = Some parent.
Proof.
  apply (child_first_then_SyncCache_parent Example.env Example.proc10 Example.s0
           20 0%nat Example.e20 "/usr/bin/app" 1234 Example.info1234 "c0ffee").
  - reflexivity.
  - exact Example_s0_wf.
  - reflexivity.
  - reflexivity.
  - vm_compute. discriminate.
  - discriminate.
  - reflexivity.
  - vm_compute. discriminate.
  - apply Example_enrich_ok. right. reflexivity.
Defined.

(** [lock_is_free_after_any_run] on a run of five operations. *)
Lemma lock_is_free_after_any_run_witness :
  exists s',
    steps Example.env
      [OpAddEntry 20 0%nat; OpGet 20; OpSyncCache Example.proc10;
       OpDelEntry 20; OpResolve 43]
      Example.s0
    = Returns tt s'
    /\ mu s' = Unlocked.
Proof.
  eexists. split; [vm_compute; reflexivity |].
  apply (lock_is_free_after_any_run Example.env
           [OpAddEntry 20 0%nat; OpGet 20; OpSyncCache Example.proc10;
            OpDelEntry 20; OpResolve 43]
           Example.s0);
    [reflexivity | vm_compute; reflexivity].
Defined.

(** [parent_links_are_backed] on a run that adds a child, resolves its
    parent from /proc and evicts the child. *)
Lemma parent_links_are_backed_witness :
  exists s',
    steps Example.env
      [OpNew Example.e20; OpAddEntry 20 0%nat; OpSyncCache Example.proc10;
       OpDelEntry 20]
      NewProcessResolver
    = Returns tt s'
    /\ links_inv s'.
Proof.
  eexists. split; [vm_compute; reflexivity |].
  apply (proj2 (parent_links_are_backed Example.env)
           [OpNew Example.e20; OpAddEntry 20 0%nat; OpSyncCache Example.proc10;
            OpDelEntry 20]
           NewProcessResolver).
  - apply (proj1 (parent_links_are_backed Example.env)).
  - vm_compute. reflexivity.
Defined.

(** [detection_keeps_features_coherent] on the example host, from no
    feature. *)
Lemma detection_keeps_features_coherent_witness :
  config.coherent
    (config.detectedFeatures
       (config.detectContainerFeatures config.example_host config.initial))
  /\ config.detectedFeatures config.initial
     ⊆ config.detectedFeatures
         (config.detectContainerFeatures config.example_host config.initial).
Proof.
  apply (detection_keeps_features_coherent config.example_host config.initial).
  split; intros H; exfalso; revert H; apply not_elem_of_empty.
Defined.

(** [docker_suppresses_cri_autodetect] on the host with a docker socket. *)
Lemma docker_suppresses_cri_autodetect_witness :
  config.Cri ∉ config.detectedFeatures
                 (config.detectContainerFeatures config.example_docker_host
                    config.initial).
Proof.
  destruct (docker_suppresses_cri_autodetect config.example_docker_host
              config.initial eq_refl) as [Hcri _].
  - apply (proj2 (docker_in_detected config.example_docker_host config.initial)).
    right. right. reflexivity.
  - intros H.
    exact (not_elem_of_empty (C:=gset config.Feature) _ (proj1 Hcri H)).
Defined.

(** [configured_cri_socket_wins] on the host with a configured socket. *)
Lemma configured_cri_socket_wins_witness :
  config.Cri ∈ config.detectedFeatures
                 (config.detectContainerFeatures config.example_configured_host
                    config.initial)
  /\ config.Containerd
       ∈ config.detectedFeatures
           (config.detectContainerFeatures config.example_configured_host
              config.initial).
Proof.
  destruct (configured_cri_socket_wins config.example_configured_host
              config.initial) as (Hcri & Hcd & _).
  - discriminate.
  - split; [exact Hcri |]. apply Hcd. right. vm_compute. reflexivity.
Defined.

(** [Path_of_a_request_line] on the fragment [GET /foo HTTP/1.1]. *)
Lemma Path_of_a_request_line_witness :
  http.Path (String.list_byte_of_string "GET /foo HTTP/1.1")
  = Done (String.list_byte_of_string "/foo")
  /\ http.Path (String.list_byte_of_string "GET /foo") = Done (String.list_byte_of_string "/foo").
Proof.
  apply (Path_of_a_request_line
           (String.list_byte_of_string "GET") (String.list_byte_of_string "/foo")
           (String.list_byte_of_string "HTTP/1.1"));
    apply (bool_decide_unpack _); vm_compute; exact I.
Defined.

(** [StatusClass_is_the_hundred_below] on a 404. *)
Lemma StatusClass_is_the_hundred_below_witness :
  exists k, 0 <= k
            /\ http.StatusClass 404 = 100 * k
            /\ http.StatusClass 404 <= 404 < http.StatusClass 404 + 100.
Proof. apply (StatusClass_is_the_hundred_below 404). lia. Defined.

(** [GetTransactions_page_in_range] with 3 pages of 15 transactions, the
    notification of batch 7 and the batch at index 8. *)
Lemma GetTransactions_page_in_range_witness :
  exists off,
    http.GetTransactions 15 3 45 7 = Done off
    /\ 0 <= off
    /\ off + 15 <= 45
    /\ (http.IsDirty 3 8 7 = false ->
        forall later,
          7 < later <= 8 ->
          exists off',
            http.GetTransactions 15 3 45 later = Done off'
            /\ (off' + 15 <= off \/ off + 15 <= off'))
    /\ (http.IsDirty 3 8 7 = true ->
        7 + 3 <= 8 /\ http.GetTransactions 15 3 45 (7 + 3) = Done off).
Proof. apply (GetTransactions_page_in_range 15 3 45 7 8); lia. Defined.

(** At the end of the range of [int] the conversion wraps around: the
    notification three batches after batch 2^63 - 1 does not read the page of
    that batch. *)
Example GetTransactions_wraps_around :
  http.GetTransactions 15 3 45 (2 ^ 63 - 1) = Done 15
  /\ http.GetTransactions 15 3 45 (2 ^ 63 - 1 + 3) = Done 0
  /\ http.IsDirty 3 (2 ^ 63 - 1) (2 ^ 63 - 1) = true.
Proof. repeat split; vm_compute; reflexivity. Qed.
